(** * 2pc-engine: a shallow embedding of the coordination plane

    The development follows the Go packages of the repository:

    - [Strs]        the few functions of [strings], [strconv] and [sort]
                    that the code calls, on byte strings;
    - [Protocol]    pkg/protocol (roles, states, wire messages);
    - [Node]        pkg/node (the participant store: Prepare, Commit, Abort
                    and the SQL statement construction);
    - [Cluster]     pkg/cluster (membership table and election);
    - [Heartbeat]   pkg/cluster (the rounds of health checks);
    - [Transport]   pkg/transport (the client with retries, and the
                    handlers of a node's server for the three phases);
    - [Participant] pkg/two_phase_commit/participant.go;
    - [Coordinator] pkg/two_phase_commit/coordinator.go (Execute);
    - [Spec]        the predicates of the specification;
    - [Scenario]    concrete clusters, databases and peers.

    Go pointers to nodes are locations of a heap, so that the membership
    table, the master pointer and the coordinator's local node may alias.
    The relational database and the HTTP client are opaque collaborators:
    each is a record of answer functions that see the calls made so far,
    and every call is appended to a log.  In [Transport] the client is the
    code itself, and what it is given is the connection. *)

From Stdlib Require Import Ascii String DecimalString.
From stdpp Require Import gmap strings list sorting.

Local Open Scope string_scope.
Local Open Scope list_scope.

(** String concatenation is written [+:+], list concatenation [++]. *)
Infix "+:+" := String.append (at level 60, right associativity).

(** ** Strings *)

Module Strs.

(** The double quote, as a one-character string. *)
Definition dq : string := String (ascii_of_nat 34) EmptyString.

Definition is_lower (c : ascii) : bool :=
  let n := nat_of_ascii c in (97 <=? n)%nat && (n <=? 122)%nat.
Definition is_upper (c : ascii) : bool :=
  let n := nat_of_ascii c in (65 <=? n)%nat && (n <=? 90)%nat.
Definition is_digit (c : ascii) : bool :=
  let n := nat_of_ascii c in (48 <=? n)%nat && (n <=? 57)%nat.

Definition upper_ascii (c : ascii) : ascii :=
  if is_lower c then ascii_of_nat (nat_of_ascii c - 32) else c.
Definition lower_ascii (c : ascii) : ascii :=
  if is_upper c then ascii_of_nat (nat_of_ascii c + 32) else c.

Fixpoint map_string (f : ascii -> ascii) (s : string) : string :=
  match s with
  | EmptyString => EmptyString
  | String c s' => String (f c) (map_string f s')
  end.

(** [strings.ToLower] as the code uses it: on identifiers that have
    passed the character check of [safeIdent], which are ASCII. *)
Definition ToLower : string -> string := map_string lower_ascii.

(** What [strings.ToUpper] and [strings.TrimSpace] do on ASCII text.  On
    other text the two functions of Go do more (they know the white space
    and the letters of Unicode), so the code is not embedded with these:
    they only make up the library of the scenarios, whose texts are
    ASCII. *)
Definition asciiToUpper : string -> string := map_string upper_ascii.

Fixpoint trim_left (s : string) : string :=
  match s with
  | EmptyString => EmptyString
  | String c s' => if Ascii.is_space c then trim_left s' else s
  end.

Definition asciiTrimSpace (s : string) : string :=
  String.rev (trim_left (String.rev (trim_left s))).

(** [strings.Contains]. *)
Fixpoint Contains (s substr : string) : bool :=
  String.prefix substr s ||
  match s with
  | EmptyString => false
  | String _ s' => Contains s' substr
  end.

(** [strings.Join]. *)
Fixpoint Join (elems : list string) (sep : string) : string :=
  match elems with
  | [] => EmptyString
  | [e] => e
  | e :: rest => e +:+ sep +:+ Join rest sep
  end.

(** [strconv.Itoa] on the non-negative integers. *)
Definition Itoa (n : nat) : string := NilEmpty.string_of_uint (Nat.to_uint n).

(** [sort.Strings]: ascending byte-wise lexicographic order.  The order
    is total and antisymmetric, so the sorted slice does not depend on
    the sorting algorithm. *)
Definition SortStrings (l : list string) : list string :=
  merge_sort String.le l.

Definition eqb (a b : string) : bool := bool_decide (a = b).

End Strs.

(** ** pkg/protocol *)

Module Protocol.

Inductive TxState := StateInit | StatePrepare | StateReady | StateCommit | StateAbort.
Inductive NodeRole := RoleMaster | RoleSlave.

(** [PrepareStatus] arrives over the wire, so it stays a string. *)
Definition PrepareStatus := string.
Definition StatusReady : PrepareStatus := "READY".
Definition StatusAbort : PrepareStatus := "ABORT".

#[global] Instance NodeRole_eq_dec : EqDecision NodeRole.
Proof. solve_decision. Defined.
#[global] Instance TxState_eq_dec : EqDecision TxState.
Proof. solve_decision. Defined.

End Protocol.

(** The message of a Go [error] value. *)
Definition error := string.

Module PrepareResponse.
Record t := mk { Status : Protocol.PrepareStatus; Error : string }.
End PrepareResponse.

Module CommitResponse.
Record t := mk { Success : bool; Error : string }.
End CommitResponse.

Module AbortResponse.
Record t := mk { Success : bool; Error : string }.
End AbortResponse.

Module TransactionResponse.
Record t := mk {
  TransactionID : string;
  Success : bool;
  Message : string;
  Error : string }.
End TransactionResponse.

(** ** The database, as the participant store sees it

    [database/sql] is outside the core.  A [DB] answers each call from the
    calls made so far; a call is recorded in the log whatever its answer.
    An open [*sql.Tx] is a handle. *)

Definition TxHandle := nat.

(** A scalar of a payload or a bound statement argument. *)
Inductive Scalar :=
| SNull
| SBool (b : bool)
| SNum (z : Z)
| SStr (s : string).

Inductive DbCall :=
| QueryTableExists (name : string)
| ExecDDL
| BeginTx
| TxExec (tx : TxHandle) (stmt : string) (args : list Scalar)
| TxCommit (tx : TxHandle)
| TxRollback (tx : TxHandle)
| DbExec (stmt : string) (args : list Scalar).

Record DB := mkDB {
  (** [SELECT to_regclass($1)]: whether the table exists, or an error. *)
  tableExists : list DbCall -> string -> error + bool;
  (** [db.ExecContext(ctx, ddl)]. *)
  execDDL : list DbCall -> option error;
  (** [db.BeginTx]. *)
  beginTx : list DbCall -> error + TxHandle;
  (** [tx.ExecContext]: an error, or a result whose [RowsAffected] is an
      error or a count. *)
  txExec : list DbCall -> TxHandle -> string -> list Scalar -> error + (error + Z);
  txCommit : list DbCall -> TxHandle -> option error;
  txRollback : list DbCall -> TxHandle -> option error;
  (** [db.ExecContext] outside a transaction. *)
  dbExec : list DbCall -> string -> list Scalar -> option error }.

(** An open [*sql.Tx]: its handle and the database it was begun on. *)
Record OpenTx := mkOpenTx { txDB : DB; txHandle : TxHandle }.

(** ** pkg/node *)

Module Node.
Import Protocol.

(** [SQLAction]: a nil Go map and an empty one are both the empty map. *)
Record SQLAction := mkSQLAction {
  Table : string;
  Operation : string;
  Values : gmap string Scalar;
  Where : gmap string Scalar }.

(** The [payload any] argument, by the cases [parseSQLAction] tells
    apart. *)
Inductive Payload :=
| PayloadNil                      (* untyped nil *)
| PayloadAction (a : SQLAction)   (* an SQLAction, or a non-nil *SQLAction *)
| PayloadNilPtr                   (* a nil *SQLAction *)
| PayloadJSON (raw : string)      (* []byte or string holding JSON *)
| PayloadOther (v : string).      (* any other value, named by a tag *)

(** The library functions the store calls on text that may be any
    Unicode text are taken as the library gives them: they are the fields
    of a record, named after the codec.  [encoding/json]: [Unmarshal] and
    [Marshal].  [strings]: [TrimSpace] and [ToUpper], which treat the white
    space and the letters of all of Unicode. *)
Record Json := mkJson {
  Unmarshal : string -> error + SQLAction;
  Marshal : Payload -> error + string;
  TrimSpace : string -> string;
  ToUpper : string -> string }.

Record Node := mkNode {
  Addr : string;
  Role : NodeRole;
  IsAlive : bool;
  TxState : Protocol.TxState;
  pendingTx : gmap string OpenTx;
  pendingData : gmap string Payload;
  db : option DB;
  schemaOnce : bool;            (* whether the [sync.Once] has fired *)
  schemaErr : option error }.

Definition NewNode (addr : string) (role : NodeRole) : Node :=
  {| Addr := addr; Role := role; IsAlive := true; TxState := StateInit;
     pendingTx := ∅; pendingData := ∅;
     db := None; schemaOnce := false; schemaErr := None |}.

Definition NewNodeWithDB (addr : string) (role : NodeRole) (d : DB) : Node :=
  let n := NewNode addr role in
  {| Addr := Addr n; Role := Role n; IsAlive := IsAlive n; TxState := TxState n;
     pendingTx := pendingTx n; pendingData := pendingData n;
     db := Some d; schemaOnce := false; schemaErr := None |}.

(** Field updates. *)
Definition SetAlive (alive : bool) (n : Node) : Node :=
  {| Addr := Addr n; Role := Role n; IsAlive := alive; TxState := TxState n;
     pendingTx := pendingTx n; pendingData := pendingData n;
     db := db n; schemaOnce := schemaOnce n; schemaErr := schemaErr n |}.

Definition GetAlive (n : Node) : bool := IsAlive n.

Definition SetRole (role : NodeRole) (n : Node) : Node :=
  {| Addr := Addr n; Role := role; IsAlive := IsAlive n; TxState := TxState n;
     pendingTx := pendingTx n; pendingData := pendingData n;
     db := db n; schemaOnce := schemaOnce n; schemaErr := schemaErr n |}.

Definition GetRole (n : Node) : NodeRole := Role n.

Definition setSchema (e : option error) (n : Node) : Node :=
  {| Addr := Addr n; Role := Role n; IsAlive := IsAlive n; TxState := TxState n;
     pendingTx := pendingTx n; pendingData := pendingData n;
     db := db n; schemaOnce := true; schemaErr := e |}.

Definition setTx (st : Protocol.TxState) (ptx : gmap string OpenTx)
    (pdata : gmap string Payload) (n : Node) : Node :=
  {| Addr := Addr n; Role := Role n; IsAlive := IsAlive n; TxState := st;
     pendingTx := ptx; pendingData := pdata;
     db := db n; schemaOnce := schemaOnce n; schemaErr := schemaErr n |}.

(** *** Schema *)

Definition distTx : string := "distributed_tx".

Definition tableExistsCall (d : DB) (log : list DbCall) (name : string)
  : (error + bool) * list DbCall :=
  (tableExists d log name, log ++ [QueryTableExists name]).

Definition ensureSchemaLocked (d : DB) (log : list DbCall)
  : option error * list DbCall :=
  match tableExistsCall d log distTx with
  | (inl err, log1) => (Some err, log1)
  | (inr true, log1) => (None, log1)
  | (inr false, log1) =>
      match execDDL d log1 with
      | Some err =>
          match tableExistsCall d (log1 ++ [ExecDDL]) distTx with
          | (inl chkErr, log2) => (Some chkErr, log2)
          | (inr true, log2) => (None, log2)
          | (inr false, log2) => (Some err, log2)
          end
      | None => (None, log1 ++ [ExecDDL])
      end
  end.

Definition ensureSchema (n : Node) (log : list DbCall)
  : option error * Node * list DbCall :=
  match db n with
  | None => (None, n, log)
  | Some d =>
      if schemaOnce n then (schemaErr n, n, log)
      else
        let '(e, log1) := ensureSchemaLocked d log in
        (e, setSchema e n, log1)
  end.

(** *** Payload parsing and validation *)

Definition validateSQLAction (action : SQLAction) : option error :=
  if Strs.eqb (Table action) EmptyString then Some "table is required"
  else if bool_decide (size (Values action) = 0%nat) then Some "values are required"
  else if Strs.eqb (Operation action) "INSERT" then None
  else if Strs.eqb (Operation action) "UPDATE" then
    if bool_decide (size (Where action) = 0%nat)
    then Some "where is required for UPDATE"
    else None
  else Some ("unsupported operation: " +:+ Operation action).

Definition decodePayload (J : Json) (payload : Payload) : error + SQLAction :=
  match payload with
  | PayloadNil => inl "payload is required"
  | PayloadAction a => inr a
  | PayloadNilPtr => inl "payload is required"
  | PayloadJSON raw => Unmarshal J raw
  | PayloadOther _ =>
      match Marshal J payload with
      | inl err => inl err
      | inr bytes => Unmarshal J bytes
      end
  end.

Definition parseSQLAction (J : Json) (payload : Payload) : error + SQLAction :=
  match decodePayload J payload with
  | inl err => inl err
  | inr action =>
      let op := ToUpper J (TrimSpace J (Operation action)) in
      let op := if Strs.eqb op EmptyString then "INSERT" else op in
      let action := {| Table := TrimSpace J (Table action); Operation := op;
                       Values := Values action; Where := Where action |} in
      match validateSQLAction action with
      | Some err => inl err
      | None => inr action
      end
  end.

(** *** Statement construction *)

Definition sortedKeysOf (iteration : list string) : list string :=
  Strs.SortStrings iteration.

(** [sortedKeys]: the keys in the order the map is ranged over, then
    sorted. *)
Definition sortedKeys (m : gmap string Scalar) : list string :=
  sortedKeysOf (map_to_list m).*1.

Definition placeholder (idx : nat) : string := "$" +:+ Strs.Itoa idx.

Definition identChar (r : ascii) : bool :=
  bool_decide (r = "_"%char) || bool_decide (r = "-"%char) ||
  Strs.is_digit r || Strs.is_lower r || Strs.is_upper r.

Fixpoint allChars (p : ascii -> bool) (s : string) : bool :=
  match s with
  | EmptyString => true
  | String r s' => p r && allChars p s'
  end.

Definition safeIdent (id : string) : error + string :=
  if Strs.eqb id EmptyString then inl "identifier empty"
  else if allChars identChar id then inr (Strs.ToLower id)
  else inl "identifier contains invalid characters".

Definition quoted (ident : string) : string := Strs.dq +:+ ident +:+ Strs.dq.

(** [m[c]] for a map of [any]: nil when the key is missing. *)
Definition valueAt (m : gmap string Scalar) (c : string) : Scalar :=
  default SNull (m !! c).

(** The loop of the INSERT case over [cols] from index [i], writing the
    three preallocated slices. *)
Fixpoint insertLoop (values : gmap string Scalar) (cols : list string) (i : nat)
    (colIdents : list string) (args : list Scalar) (placeholders : list string)
  : error + (list string * list Scalar * list string) :=
  match cols with
  | [] => inr (colIdents, args, placeholders)
  | c :: rest =>
      match safeIdent c with
      | inl err => inl err
      | inr ident =>
          insertLoop values rest (S i)
            (<[i := quoted ident]> colIdents)
            (<[i := valueAt values c]> args)
            (<[i := placeholder (i + 1)]> placeholders)
      end
  end.

(** The two loops of the UPDATE case share their shape: [parts[i]] is
    written, [args] is appended to and [idx] counts on. *)
Fixpoint updateLoop (m : gmap string Scalar) (cols : list string) (i : nat)
    (parts : list string) (args : list Scalar) (idx : nat)
  : error + (list string * list Scalar * nat) :=
  match cols with
  | [] => inr (parts, args, idx)
  | c :: rest =>
      match safeIdent c with
      | inl err => inl err
      | inr ident =>
          updateLoop m rest (S i)
            (<[i := quoted ident +:+ "=" +:+ placeholder idx]> parts)
            (args ++ [valueAt m c])
            (S idx)
      end
  end.

(** The statement and the bound arguments that [applySQLAction] hands to
    [tx.ExecContext], or the error it returns before executing. *)
Definition buildStatement (action : SQLAction) : error + (string * list Scalar) :=
  match safeIdent (Table action) with
  | inl err => inl err
  | inr table =>
      if Strs.eqb (Operation action) "INSERT" then
        let cols := sortedKeys (Values action) in
        let n := length cols in
        match insertLoop (Values action) cols 0
                (replicate n EmptyString) (replicate n SNull) (replicate n EmptyString) with
        | inl err => inl err
        | inr (colIdents, args, placeholders) =>
            inr ("INSERT INTO " +:+ Strs.dq +:+ table +:+ Strs.dq +:+ " (" +:+
                 Strs.Join colIdents "," +:+ ") VALUES (" +:+
                 Strs.Join placeholders "," +:+ ")", args)
        end
      else if Strs.eqb (Operation action) "UPDATE" then
        let setCols := sortedKeys (Values action) in
        let whereCols := sortedKeys (Where action) in
        if bool_decide (length whereCols = 0%nat)
        then inl "where is required for UPDATE"
        else
          match updateLoop (Values action) setCols 0
                  (replicate (length setCols) EmptyString) [] 1 with
          | inl err => inl err
          | inr (setParts, args, idx) =>
              match updateLoop (Where action) whereCols 0
                      (replicate (length whereCols) EmptyString) args idx with
              | inl err => inl err
              | inr (whereParts, args, _) =>
                  inr ("UPDATE " +:+ Strs.dq +:+ table +:+ Strs.dq +:+ " SET " +:+
                       Strs.Join setParts "," +:+ " WHERE " +:+
                       Strs.Join whereParts " AND ", args)
              end
          end
      else inl ("unsupported operation: " +:+ Operation action)
  end.

Definition execIn (tx : OpenTx) (log : list DbCall) (stmt : string) (args : list Scalar)
  : (error + (error + Z)) * list DbCall :=
  (txExec (txDB tx) log (txHandle tx) stmt args,
   log ++ [TxExec (txHandle tx) stmt args]).

Definition applySQLAction (tx : OpenTx) (log : list DbCall) (action : SQLAction)
  : option error * list DbCall :=
  match buildStatement action with
  | inl err => (Some err, log)
  | inr (stmt, args) =>
      match execIn tx log stmt args with
      | (inl err, log1) => (Some err, log1)
      | (inr _, log1) => (None, log1)
      end
  end.

Definition isAlreadyFinishedErr (err : error) : bool :=
  Strs.Contains err "already been committed" ||
  Strs.Contains err "already been rolled back" ||
  Strs.Contains err "already been committed or rolled back".

(** *** Prepare, Commit, Abort

    The text of the three statements on the audit table, with their white
    space normalised. *)
Definition sqlInsertPrepared : string :=
  "INSERT INTO distributed_tx (tx_id, payload, status) VALUES ($1, $2::jsonb, 'PREPARED')".
Definition sqlSetCommitted : string :=
  "UPDATE distributed_tx SET status='COMMITTED', updated_at=NOW() WHERE tx_id=$1".
Definition sqlSetAborted : string :=
  "UPDATE distributed_tx SET status='ABORTED', updated_at=NOW() WHERE tx_id=$1".

(** [_ = tx.Rollback()]: the call is made, its answer dropped. *)
Definition rollback (tx : OpenTx) (log : list DbCall) : list DbCall :=
  log ++ [TxRollback (txHandle tx)].

Definition Prepare (J : Json) (txID : string) (payload : Payload)
    (n : Node) (log : list DbCall)
  : (bool * option error) * Node * list DbCall :=
  match pendingData n !! txID with
  | Some _ => ((false, Some "transaction already in progress"), n, log)
  | None =>
      match db n with
      | Some d =>
          match ensureSchema n log with
          | (Some err, n1, log1) => ((false, Some err), n1, log1)
          | (None, n1, log1) =>
              match beginTx d log1 with
              | inl err => ((false, Some err), n1, log1 ++ [BeginTx])
              | inr h =>
                  let tx := mkOpenTx d h in
                  let log2 := log1 ++ [BeginTx] in
                  match parseSQLAction J payload with
                  | inl err => ((false, Some err), n1, rollback tx log2)
                  | inr action =>
                      match applySQLAction tx log2 action with
                      | (Some err, log3) => ((false, Some err), n1, rollback tx log3)
                      | (None, log3) =>
                          match Marshal J payload with
                          | inl err => ((false, Some err), n1, rollback tx log3)
                          | inr payloadBytes =>
                              match execIn tx log3 sqlInsertPrepared
                                      [SStr txID; SStr payloadBytes] with
                              | (inl err, log4) =>
                                  ((false, Some err), n1, rollback tx log4)
                              | (inr (inl err), log4) =>
                                  ((false, Some err), n1, rollback tx log4)
                              | (inr (inr rows), log4) =>
                                  if bool_decide (rows = 0%Z)
                                  then ((false, Some "transaction already exists"),
                                        n1, rollback tx log4)
                                  else
                                    ((true, None),
                                     setTx StateReady (<[txID := tx]> (pendingTx n1))
                                       (<[txID := payload]> (pendingData n1)) n1,
                                     log4)
                              end
                          end
                      end
                  end
              end
          end
      | None =>
          ((true, None),
           setTx StateReady (pendingTx n) (<[txID := payload]> (pendingData n)) n,
           log)
      end
  end.

(** The tail shared by the branches of [Commit] and [Abort]. *)
Definition finish (st : Protocol.TxState) (txID : string) (ptx : gmap string OpenTx)
    (n : Node) : Node :=
  setTx st ptx (delete txID (pendingData n)) n.

(** An error that [isAlreadyFinishedErr] recognises is swallowed. *)
Definition unswallowed (err : option error) : option error :=
  match err with
  | Some e => if negb (isAlreadyFinishedErr e) then Some e else None
  | None => None
  end.

Definition execError {A} (r : error + A) : option error :=
  match r with inl err => Some err | inr _ => None end.

Definition Commit (txID : string) (n : Node) (log : list DbCall)
  : option error * Node * list DbCall :=
  match pendingTx n !! txID with
  | Some tx =>
      let '(r1, log1) := execIn tx log sqlSetCommitted [SStr txID] in
      match unswallowed (execError r1) with
      | Some err => (Some err, n, rollback tx log1)
      | None =>
          let log2 := log1 ++ [TxCommit (txHandle tx)] in
          match unswallowed (txCommit (txDB tx) log1 (txHandle tx)) with
          | Some err => (Some err, n, log2)
          | None =>
              (None, finish StateCommit txID (delete txID (pendingTx n)) n, log2)
          end
      end
  | None =>
      match db n with
      | Some d =>
          let log1 := log ++ [DbExec sqlSetCommitted [SStr txID]] in
          match dbExec d log sqlSetCommitted [SStr txID] with
          | Some err => (Some err, n, log1)
          | None => (None, finish StateCommit txID (pendingTx n) n, log1)
          end
      | None => (None, finish StateCommit txID (pendingTx n) n, log)
      end
  end.

Definition Abort (txID : string) (n : Node) (log : list DbCall)
  : option error * Node * list DbCall :=
  match pendingTx n !! txID with
  | Some tx =>
      let log1 := log ++ [TxRollback (txHandle tx)] in
      match unswallowed (txRollback (txDB tx) log (txHandle tx)) with
      | Some err => (Some err, n, log1)
      | None => (None, finish StateAbort txID (delete txID (pendingTx n)) n, log1)
      end
  | None =>
      match db n with
      | Some d =>
          let log1 := log ++ [DbExec sqlSetAborted [SStr txID]] in
          match dbExec d log sqlSetAborted [SStr txID] with
          | Some err => (Some err, n, log1)
          | None => (None, finish StateAbort txID (pendingTx n) n, log1)
          end
      | None => (None, finish StateAbort txID (pendingTx n) n, log)
      end
  end.

Definition HasPendingTransaction (txID : string) (n : Node) : bool :=
  bool_decide (is_Some (pendingData n !! txID)).

(** The ids in the order the map is ranged over. *)
Definition GetPendingTransactions (n : Node) : list string :=
  (map_to_list (pendingData n)).*1.

End Node.

(** ** pkg/cluster

    A [*node.Node] is a location of the heap. *)

Module Cluster.
Import Protocol.

Definition loc := nat.

Record Cluster := mkCluster {
  nodes : gmap string loc;      (* address -> node *)
  master : option loc }.

Definition NewCluster : Cluster := mkCluster ∅ None.

Definition aliveAt (h : gmap loc Node.Node) (n : loc) : bool :=
  match h !! n with Some nd => Node.GetAlive nd | None => false end.

Definition roleAt (h : gmap loc Node.Node) (n : loc) : option NodeRole :=
  Node.GetRole <$> h !! n.

Definition addrAt (h : gmap loc Node.Node) (n : loc) : string :=
  match h !! n with Some nd => Node.Addr nd | None => EmptyString end.

Definition setRoleAt (n : loc) (role : NodeRole) (h : gmap loc Node.Node)
  : gmap loc Node.Node := alter (Node.SetRole role) n h.

Definition setAliveAt (n : loc) (alive : bool) (h : gmap loc Node.Node)
  : gmap loc Node.Node := alter (Node.SetAlive alive) n h.

(** [node.NewNode] allocates at the first free location. *)
Definition alloc (nd : Node.Node) (h : gmap loc Node.Node) : loc * gmap loc Node.Node :=
  let n := fresh (dom h) in (n, <[n := nd]> h).

(** [AddNode]: a node that is not allocated stands for a nil pointer,
    on which Go panics; the table is then left as it is. *)
Definition AddNode (n : loc) (h : gmap loc Node.Node) (c : Cluster) : Cluster :=
  match h !! n with
  | Some nd => mkCluster (<[Node.Addr nd := n]> (nodes c)) (master c)
  | None => c
  end.

Definition RemoveNode (addr : string) (c : Cluster) : Cluster :=
  match nodes c !! addr with
  | Some n =>
      mkCluster (delete addr (nodes c))
                (if bool_decide (master c = Some n) then None else master c)
  | None => c
  end.

Definition GetNode (addr : string) (c : Cluster) : option loc := nodes c !! addr.

Definition GetMaster (c : Cluster) : option loc := master c.

(** The nodes of the table.  Go ranges over a map in an order that may
    change from one ranging to the next; the list below is one of these
    orders.  What is said of the program about a slice made by ranging is
    said up to the order, or for every order. *)
Definition GetNodes (c : Cluster) : list loc := (map_to_list (nodes c)).*2.

Definition GetSlaveNodes (h : gmap loc Node.Node) (c : Cluster) : list loc :=
  filter (fun n => aliveAt h n = true /\ roleAt h n = Some RoleSlave) (GetNodes c).

Definition SetMaster (n : option loc) (h : gmap loc Node.Node) (c : Cluster)
  : gmap loc Node.Node * Cluster :=
  let h1 := match master c with
            | Some old => setRoleAt old RoleSlave h
            | None => h
            end in
  (match n with Some m => setRoleAt m RoleMaster h1 | None => h1 end,
   mkCluster (nodes c) n).

Definition IsMasterAlive (h : gmap loc Node.Node) (c : Cluster) : bool :=
  match master c with None => false | Some m => aliveAt h m end.

Definition GetAliveNodes (h : gmap loc Node.Node) (c : Cluster) : list loc :=
  filter (fun n => aliveAt h n = true) (GetNodes c).

(** [GetNodeAddresses]: the keys, sorted. *)
Definition GetNodeAddresses (c : Cluster) : list string :=
  Strs.SortStrings (map_to_list (nodes c)).*1.

Definition Size (c : Cluster) : nat := size (nodes c).

(** *** Election *)

Definition lowestAliveAddrLocked (h : gmap loc Node.Node) (c : Cluster) : string :=
  let aliveAddrs :=
    (filter (fun p : string * loc => aliveAt h p.2 = true) (map_to_list (nodes c))).*1 in
  if bool_decide (length aliveAddrs = 0%nat) then EmptyString
  else hd EmptyString (Strs.SortStrings aliveAddrs).

Definition resetRoles (h : gmap loc Node.Node) (c : Cluster) : gmap loc Node.Node :=
  foldl (fun acc n => setRoleAt n RoleSlave acc) h (GetNodes c).

(** [electMasterLocked]: the lowest alive address is a key of the map, so
    the lookup of the new master finds it; the other branch stands for
    the nil dereference. *)
Definition electMasterLocked (h : gmap loc Node.Node) (c : Cluster)
  : bool * gmap loc Node.Node * Cluster :=
  let lowestAlive := lowestAliveAddrLocked h c in
  if Strs.eqb lowestAlive EmptyString then (false, h, mkCluster (nodes c) None)
  else
    let h1 := resetRoles h c in
    match nodes c !! lowestAlive with
    | Some newMaster =>
        (true, setRoleAt newMaster RoleMaster h1, mkCluster (nodes c) (Some newMaster))
    | None => (true, h1, c)
    end.

Definition ElectMaster (h : gmap loc Node.Node) (c : Cluster)
  : gmap loc Node.Node * Cluster :=
  let '(_, h1, c1) := electMasterLocked h c in (h1, c1).

Definition EvictMaster (h : gmap loc Node.Node) (c : Cluster)
  : gmap loc Node.Node * Cluster :=
  match master c with
  | Some m => (setRoleAt m RoleSlave h, mkCluster (nodes c) None)
  | None => (h, c)
  end.

Definition CheckAndElect (h : gmap loc Node.Node) (c : Cluster)
  : bool * gmap loc Node.Node * Cluster :=
  let lowestAlive := lowestAliveAddrLocked h c in
  let '(currentMaster, h1, c1) :=
    match master c with
    | Some m =>
        if negb (aliveAt h m)
        then (EmptyString, setRoleAt m RoleSlave h, mkCluster (nodes c) None)
        else (addrAt h m, h, c)
    | None => (EmptyString, h, c)
    end in
  if Strs.eqb lowestAlive EmptyString then
    match master c1 with
    | Some m => (false, setRoleAt m RoleSlave h1, mkCluster (nodes c1) None)
    | None => (false, h1, c1)
    end
  else if bool_decide (master c1 = None) || negb (Strs.eqb currentMaster lowestAlive)
  then electMasterLocked h1 c1
  else (false, h1, c1).

Definition ShouldBeMaster (addr : string) (h : gmap loc Node.Node) (c : Cluster) : bool :=
  let aliveAddrs :=
    (filter (fun p : string * loc => aliveAt h p.2 = true) (map_to_list (nodes c))).*1 in
  if bool_decide (length aliveAddrs = 0%nat) then false
  else Strs.eqb (hd EmptyString (Strs.SortStrings aliveAddrs)) addr.

(** *** The operations as a transition system *)

Record State := mkState { heap : gmap loc Node.Node; cluster : Cluster }.

Definition init : State := mkState ∅ NewCluster.

Inductive Op :=
| OpNewNode (addr : string) (role : NodeRole)
| OpAddNode (n : loc)
| OpRemoveNode (addr : string)
| OpSetMaster (n : option loc)
| OpSetAlive (n : loc) (alive : bool)
| OpElectMaster
| OpEvictMaster
| OpCheckAndElect.

Definition step (s : State) (o : Op) : State :=
  match o with
  | OpNewNode addr role => mkState (alloc (Node.NewNode addr role) (heap s)).2 (cluster s)
  | OpAddNode n => mkState (heap s) (AddNode n (heap s) (cluster s))
  | OpRemoveNode addr => mkState (heap s) (RemoveNode addr (cluster s))
  | OpSetMaster n => let '(h, c) := SetMaster n (heap s) (cluster s) in mkState h c
  | OpSetAlive n alive => mkState (setAliveAt n alive (heap s)) (cluster s)
  | OpElectMaster => let '(h, c) := ElectMaster (heap s) (cluster s) in mkState h c
  | OpEvictMaster => let '(h, c) := EvictMaster (heap s) (cluster s) in mkState h c
  | OpCheckAndElect => let '(_, h, c) := CheckAndElect (heap s) (cluster s) in mkState h c
  end.

Definition run (ops : list Op) : State := foldl step init ops.

Inductive reachable : State -> Prop :=
| reachable_init : reachable init
| reachable_step s o : reachable s -> reachable (step s o).

End Cluster.

(** ** pkg/cluster, the heartbeat manager

    [HealthCheck] is the answer of the probe of an address during one
    round of checks: the error, or none.  The probes of a round run in
    parallel, one per node; here they run in the order of the snapshot
    of the table. *)

Module Heartbeat.
Import Protocol Cluster.

Record HeartbeatManager := mkHeartbeatManager {
  HealthCheck : string -> option error }.

Definition checkNode (hm : HeartbeatManager) (addr : string)
    (h : gmap loc Node.Node) (c : Cluster) : gmap loc Node.Node :=
  match GetNode addr c with
  | None => h
  | Some n =>
      match HealthCheck hm addr with
      | Some _ => setAliveAt n false h
      | None => setAliveAt n true h
      end
  end.

Definition checkAllNodes (hm : HeartbeatManager)
    (h : gmap loc Node.Node) (c : Cluster) : gmap loc Node.Node * Cluster :=
  let nodes := GetNodes c in
  if bool_decide (length nodes = 0%nat) then (h, c)
  else
    let h1 := foldl (fun acc n => checkNode hm (addrAt acc n) acc c) h nodes in
    let '(_, h2, c2) := CheckAndElect h1 c in
    (h2, c2).

Definition CheckNode (hm : HeartbeatManager) (addr : string)
    (h : gmap loc Node.Node) (c : Cluster) : bool * gmap loc Node.Node :=
  let h1 := checkNode hm addr h c in
  match GetNode addr c with
  | None => (false, h1)
  | Some n => (aliveAt h1 n, h1)
  end.

Definition IsNodeAlive (hm : HeartbeatManager) (addr : string) : bool :=
  if HealthCheck hm addr is None then true else false.

End Heartbeat.

(** ** pkg/two_phase_commit/participant.go *)

Module Participant.
Import Protocol.

Record TransactionState := mkTransactionState {
  ID : string;
  State : TxState;
  Payload : Node.Payload }.

(** The participant owns its node: [node] is the state of the node the Go
    pointer refers to. *)
Record Participant := mkParticipant {
  node : Node.Node;
  transactions : gmap string TransactionState }.

Definition NewParticipant (n : Node.Node) : Participant := mkParticipant n ∅.

Definition Prepare (J : Node.Json) (txID : string) (payload : Node.Payload)
    (p : Participant) (log : list DbCall)
  : PrepareResponse.t * Participant * list DbCall :=
  match transactions p !! txID with
  | Some _ =>
      (PrepareResponse.mk StatusAbort "Transaction already in progress", p, log)
  | None =>
      let '((ready, err), n1, log1) := Node.Prepare J txID payload (node p) log in
      if negb ready || bool_decide (err <> None) then
        let errMsg := match err with Some e => e | None => "Prepare failed" end in
        (PrepareResponse.mk StatusAbort errMsg, mkParticipant n1 (transactions p), log1)
      else
        (PrepareResponse.mk StatusReady EmptyString,
         mkParticipant n1
           (<[txID := mkTransactionState txID StateReady payload]> (transactions p)),
         log1)
  end.

Definition Commit (txID : string) (p : Participant) (log : list DbCall)
  : CommitResponse.t * Participant * list DbCall :=
  match transactions p !! txID with
  | None => (CommitResponse.mk false "Transaction not found", p, log)
  | Some txState =>
      if bool_decide (State txState <> StateReady)
      then (CommitResponse.mk false "Transaction not in READY state", p, log)
      else
        match Node.Commit txID (node p) log with
        | (Some err, n1, log1) =>
            (CommitResponse.mk false err, mkParticipant n1 (transactions p), log1)
        | (None, n1, log1) =>
            (CommitResponse.mk true EmptyString,
             mkParticipant n1 (delete txID (transactions p)), log1)
        end
  end.

Definition Abort (txID : string) (p : Participant) (log : list DbCall)
  : AbortResponse.t * Participant * list DbCall :=
  match transactions p !! txID with
  | None => (AbortResponse.mk true EmptyString, p, log)
  | Some _ =>
      match Node.Abort txID (node p) log with
      | (Some err, n1, log1) =>
          (AbortResponse.mk false err, mkParticipant n1 (transactions p), log1)
      | (None, n1, log1) =>
          (AbortResponse.mk true EmptyString,
           mkParticipant n1 (delete txID (transactions p)), log1)
      end
  end.

End Participant.

(** ** pkg/transport

    The client is the version with retries.  [net/http] and
    [encoding/json] are libraries: a request is a function that changes
    the state of the world and answers with a response or a transport
    error, and the encodings of the messages are the fields of a codec.
    Go's [int] is taken to be 64 bits wide. *)

Module Transport.
Import Protocol.

Record Response := mkResponse {
  StatusCode : nat;
  Body : string }.

Definition StatusOK : nat := 200.
Definition StatusBadRequest : nat := 400.
Definition StatusMethodNotAllowed : nat := 405.
Definition StatusInternalServerError : nat := 500.
Definition MethodPost : string := "POST".

Definition wrap64 (z : Z) : Z := ((z + 2 ^ 63) mod 2 ^ 64 - 2 ^ 63)%Z.

Record PrepareRequest := mkPrepareRequest {
  TransactionID : string;
  Payload : Node.Payload }.

(** The JSON encodings; [CommitRequest] and [AbortRequest] hold the
    transaction id only. *)
Record Wire := mkWire {
  MarshalPrepareRequest : PrepareRequest -> error + string;
  DecodePrepareRequest : string -> error + PrepareRequest;
  EncodePrepareResponse : PrepareResponse.t -> string;
  DecodePrepareResponse : string -> error + PrepareResponse.t;
  MarshalCommitRequest : string -> error + string;
  DecodeCommitRequest : string -> error + string;
  EncodeCommitResponse : CommitResponse.t -> string;
  DecodeCommitResponse : string -> error + CommitResponse.t;
  MarshalAbortRequest : string -> error + string;
  DecodeAbortRequest : string -> error + string;
  EncodeAbortResponse : AbortResponse.t -> string;
  DecodeAbortResponse : string -> error + AbortResponse.t }.

(** *** The client *)

Record HTTPClient := mkHTTPClient {
  maxRetries : Z;
  retryDelay : Z }.

Definition NewHTTPClient : HTTPClient := mkHTTPClient 0 0.

Definition WithRetry (maxRetries retryDelay : Z) (c : HTTPClient) : HTTPClient :=
  let maxRetries := if (maxRetries <? 0)%Z then 0%Z else maxRetries in
  let retryDelay := if (retryDelay <? 0)%Z then 0%Z else retryDelay in
  mkHTTPClient maxRetries retryDelay.

(** What [doWithRetry] does besides calling [do]. *)
Inductive Event :=
| Attempt                (* a call of [do] *)
| Drain                  (* the body of a transient answer is read and closed *)
| Sleep (d : Z).

Definition isAttempt (e : Event) : bool := if e is Attempt then true else false.
Definition isSleep (e : Event) : bool := if e is Sleep _ then true else false.

(** The loop of [doWithRetry] with [remaining] = [attempts - attempt]
    iterations to go.  The body of a response of the client is never
    nil. *)
Fixpoint retryLoop {S : Type} (do : S -> (error + Response) * S) (delay : Z)
    (remaining : nat) (lastErr : option error) (st : S) (ev : list Event)
  : (option Response * option error) * S * list Event :=
  match remaining with
  | O => ((None, lastErr), st, ev)
  | Datatypes.S k =>
      let '(answer, st1) := do st in
      let ev1 := ev ++ [Attempt] in
      let retry (lastErr : option error) (ev2 : list Event) :=
        if bool_decide (k = 0%nat) then ((None, lastErr), st1, ev2)
        else retryLoop do delay k lastErr st1
               (if (0 <? delay)%Z then ev2 ++ [Sleep delay] else ev2) in
      match answer with
      | inr resp =>
          if (StatusCode resp <? StatusInternalServerError)%nat
          then ((Some resp, None), st1, ev1)
          else retry (Some ("transient status: " +:+ Strs.Itoa (StatusCode resp)))
                     (ev1 ++ [Drain])
      | inl err => retry (Some err) ev1
      end
  end.

Definition doWithRetry {S : Type} (c : HTTPClient) (do : S -> (error + Response) * S)
    (st : S) (ev : list Event) : (option Response * option error) * S * list Event :=
  let attempts := wrap64 (maxRetries c + 1) in
  retryLoop do (retryDelay c) (Z.to_nat attempts) None st ev.

(** [c.client.Post] to [http://addr/path] with a body. *)
Definition Post (S : Type) : Type := string -> string -> string -> S -> (error + Response) * S.

Definition postJSON {S : Type} (c : HTTPClient) (post : Post S) (addr path : string)
    (body : error + string) (st : S) (ev : list Event)
  : (option Response * option error) * S * list Event :=
  match body with
  | inl err => ((None, Some err), st, ev)
  | inr body => doWithRetry c (post addr path body) st ev
  end.

(** The tail shared by [Prepare], [Commit] and [Abort]: a nil response
    with a nil error is the nil dereference. *)
Definition decoded {S A : Type} (decode : string -> error + A)
    (r : (option Response * option error) * S * list Event)
  : (option A * option error) * S * list Event :=
  let '((resp, err), st, ev) := r in
  match err, resp with
  | Some e, _ => ((None, Some e), st, ev)
  | None, Some resp =>
      match decode (Body resp) with
      | inl e => ((None, Some e), st, ev)
      | inr a => ((Some a, None), st, ev)
      end
  | None, None => ((None, Some "nil response"), st, ev)
  end.

Definition Prepare {S : Type} (W : Wire) (c : HTTPClient) (post : Post S) (addr : string)
    (req : PrepareRequest) (st : S) (ev : list Event)
  : (option PrepareResponse.t * option error) * S * list Event :=
  decoded (DecodePrepareResponse W)
    (postJSON c post addr "prepare" (MarshalPrepareRequest W req) st ev).

Definition Commit {S : Type} (W : Wire) (c : HTTPClient) (post : Post S) (addr : string)
    (txID : string) (st : S) (ev : list Event)
  : (option CommitResponse.t * option error) * S * list Event :=
  decoded (DecodeCommitResponse W)
    (postJSON c post addr "commit" (MarshalCommitRequest W txID) st ev).

Definition Abort {S : Type} (W : Wire) (c : HTTPClient) (post : Post S) (addr : string)
    (txID : string) (st : S) (ev : list Event)
  : (option AbortResponse.t * option error) * S * list Event :=
  decoded (DecodeAbortResponse W)
    (postJSON c post addr "abort" (MarshalAbortRequest W txID) st ev).

(** *** The server of a node *)

Definition methodNotAllowed : Response :=
  mkResponse StatusMethodNotAllowed ("Method not allowed" +:+ String (ascii_of_nat 10) EmptyString).

Definition sendPrepareResponse (W : Wire) (status : PrepareStatus) (errMsg : string)
    (httpStatus : nat) : Response :=
  mkResponse httpStatus (EncodePrepareResponse W (PrepareResponse.mk status errMsg)).

Definition sendCommitResponse (W : Wire) (success : bool) (errMsg : string)
    (httpStatus : nat) : Response :=
  mkResponse httpStatus (EncodeCommitResponse W (CommitResponse.mk success errMsg)).

Definition sendAbortResponse (W : Wire) (success : bool) (errMsg : string)
    (httpStatus : nat) : Response :=
  mkResponse httpStatus (EncodeAbortResponse W (AbortResponse.mk success errMsg)).

Definition handlePrepare (J : Node.Json) (W : Wire) (method body : string)
    (n : Node.Node) (log : list DbCall) : Response * Node.Node * list DbCall :=
  if negb (Strs.eqb method MethodPost) then (methodNotAllowed, n, log)
  else
    match DecodePrepareRequest W body with
    | inl _ =>
        (sendPrepareResponse W StatusAbort "Invalid request body" StatusBadRequest, n, log)
    | inr req =>
        let '((ready, err), n1, log1) :=
          Node.Prepare J (TransactionID req) (Payload req) n log in
        if negb ready || (if err is Some _ then true else false) then
          let errMsg := match err with Some e => e | None => "Prepare failed" end in
          (sendPrepareResponse W StatusAbort errMsg StatusInternalServerError, n1, log1)
        else (sendPrepareResponse W StatusReady EmptyString StatusOK, n1, log1)
    end.

Definition handleCommit (W : Wire) (method body : string)
    (n : Node.Node) (log : list DbCall) : Response * Node.Node * list DbCall :=
  if negb (Strs.eqb method MethodPost) then (methodNotAllowed, n, log)
  else
    match DecodeCommitRequest W body with
    | inl _ => (sendCommitResponse W false "Invalid request body" StatusBadRequest, n, log)
    | inr txID =>
        match Node.Commit txID n log with
        | (Some err, n1, log1) =>
            (sendCommitResponse W false err StatusInternalServerError, n1, log1)
        | (None, n1, log1) => (sendCommitResponse W true EmptyString StatusOK, n1, log1)
        end
    end.

Definition handleAbort (W : Wire) (method body : string)
    (n : Node.Node) (log : list DbCall) : Response * Node.Node * list DbCall :=
  if negb (Strs.eqb method MethodPost) then (methodNotAllowed, n, log)
  else
    match DecodeAbortRequest W body with
    | inl _ => (sendAbortResponse W false "Invalid request body" StatusBadRequest, n, log)
    | inr txID =>
        match Node.Abort txID n log with
        | (Some err, n1, log1) =>
            (sendAbortResponse W false err StatusInternalServerError, n1, log1)
        | (None, n1, log1) => (sendAbortResponse W true EmptyString StatusOK, n1, log1)
        end
    end.

End Transport.

(** ** pkg/two_phase_commit/coordinator.go

    The fan-out of a phase runs one goroutine per participant and stores
    each result at the participant's index.  The embedding makes the calls
    in index order; the properties below speak of which calls are made and
    of what the result slice holds, and neither depends on the interleaving.
    Every call the coordinator makes, in process or over HTTP, is recorded
    in a trace.

    The addresses the coordinator sends requests to are taken to be served
    by other processes: a request changes nothing in the heap of the
    coordinating process, it only yields the client's answer.  A request to
    an address that the coordinating process itself serves would run on its
    local node; the embedding does not follow such a request, and says
    nothing of the local node where one is sent. *)

Module Coordinator.
Import Protocol Cluster.

Inductive Call :=
| LocalPrepare (txID : string)
| LocalCommit (txID : string)
| LocalAbort (txID : string)
| RpcPrepare (addr txID : string)
| RpcCommit (addr txID : string)
| RpcAbort (addr txID : string).

#[global] Instance Call_eq_dec : EqDecision Call.
Proof. solve_decision. Defined.

(** [transport.HTTPClient]: each method returns a response pointer and an
    error; the answers may depend on the calls made so far. *)
Record HTTPClient := mkHTTPClient {
  clientPrepare : list Call -> string -> string -> Node.Payload ->
                  option PrepareResponse.t * option error;
  clientCommit : list Call -> string -> string -> option CommitResponse.t * option error;
  clientAbort : list Call -> string -> string -> option AbortResponse.t * option error }.

Record Coordinator := mkCoordinator {
  cluster : Cluster.Cluster;
  localNode : option loc;       (* the local (master) node that also participates *)
  client : HTTPClient }.

Record PrepareResult := mkPrepareResult {
  prAddr : string;
  prSuccess : bool;
  prResponse : option PrepareResponse.t;
  prError : option error }.

Record CommitResult := mkCommitResult {
  crAddr : string;
  crSuccess : bool;
  crError : option error }.

Record prepareOutcome := mkPrepareOutcome {
  includeLocal : bool;
  localPrepared : bool;
  preparedRemotes : list string;
  failedNodes : list string }.

(** What one Execute works on: the heap of nodes, the database log and
    the trace of coordinator calls. *)
Record World := mkWorld {
  heap : gmap loc Node.Node;
  dblog : list DbCall;
  trace : list Call }.

Definition isNone {A} (o : option A) : bool := if o is None then true else false.

(** [preparePhase]: one request per participant, results by index. *)
Fixpoint preparePhase (cl : HTTPClient) (txID : string) (payload : Node.Payload)
    (h : gmap loc Node.Node) (participants : list loc) (tr : list Call)
  : list PrepareResult * list Call :=
  match participants with
  | [] => ([], tr)
  | participant :: rest =>
      let addr := addrAt h participant in
      let '(resp, err) := clientPrepare cl tr addr txID payload in
      let result :=
        mkPrepareResult addr
          (isNone err &&
           match resp with
           | Some r => Strs.eqb (PrepareResponse.Status r) StatusReady
           | None => false
           end)
          resp err in
      let '(results, tr1) :=
        preparePhase cl txID payload h rest (tr ++ [RpcPrepare addr txID]) in
      (result :: results, tr1)
  end.

(** [commitPhase]: a body-level error of an unsuccessful response becomes
    the error of the result. *)
Fixpoint commitPhase (cl : HTTPClient) (txID : string) (preparedAddrs : list string)
    (tr : list Call) : list CommitResult * list Call :=
  match preparedAddrs with
  | [] => ([], tr)
  | nodeAddr :: rest =>
      let '(resp, err) := clientCommit cl tr nodeAddr txID in
      let err :=
        match err, resp with
        | None, Some r =>
            if negb (CommitResponse.Success r) &&
               negb (Strs.eqb (CommitResponse.Error r) EmptyString)
            then Some (CommitResponse.Error r) else err
        | _, _ => err
        end in
      let result :=
        mkCommitResult nodeAddr
          (isNone err &&
           match resp with Some r => CommitResponse.Success r | None => false end)
          err in
      let '(results, tr1) := commitPhase cl txID rest (tr ++ [RpcCommit nodeAddr txID]) in
      (result :: results, tr1)
  end.

(** [abortPhase]: the early return on an empty slice yields the nil
    slice. *)
Fixpoint abortPhase (cl : HTTPClient) (txID : string) (participantAddrs : list string)
    (tr : list Call) : list CommitResult * list Call :=
  match participantAddrs with
  | [] => ([], tr)
  | nodeAddr :: rest =>
      let '(resp, err) := clientAbort cl tr nodeAddr txID in
      let result :=
        mkCommitResult nodeAddr
          (isNone err &&
           match resp with Some r => AbortResponse.Success r | None => false end)
          err in
      let '(results, tr1) := abortPhase cl txID rest (tr ++ [RpcAbort nodeAddr txID]) in
      (result :: results, tr1)
  end.

(** The calls on the local node: [l] is allocated, since the coordinator
    is built from a live node; the other branch stands for the nil
    dereference. *)
Definition localPrepare (J : Node.Json) (txID : string) (payload : Node.Payload)
    (l : loc) (w : World) : (bool * option error) * World :=
  match heap w !! l with
  | Some n =>
      let '(r, n1, log1) := Node.Prepare J txID payload n (dblog w) in
      (r, mkWorld (<[l := n1]> (heap w)) log1 (trace w ++ [LocalPrepare txID]))
  | None => ((false, Some "nil node"), w)
  end.

Definition localCommit (txID : string) (l : loc) (w : World) : option error * World :=
  match heap w !! l with
  | Some n =>
      let '(r, n1, log1) := Node.Commit txID n (dblog w) in
      (r, mkWorld (<[l := n1]> (heap w)) log1 (trace w ++ [LocalCommit txID]))
  | None => (Some "nil node", w)
  end.

Definition localAbort (txID : string) (l : loc) (w : World) : option error * World :=
  match heap w !! l with
  | Some n =>
      let '(r, n1, log1) := Node.Abort txID n (dblog w) in
      (r, mkWorld (<[l := n1]> (heap w)) log1 (trace w ++ [LocalAbort txID]))
  | None => (Some "nil node", w)
  end.

(** The loop of [prepareTransaction] over the prepare results. *)
Fixpoint collect (results : list PrepareResult) (outcome : prepareOutcome)
  : prepareOutcome :=
  match results with
  | [] => outcome
  | result :: rest =>
      if prSuccess result
      then collect rest
             (mkPrepareOutcome (includeLocal outcome) (localPrepared outcome)
                (preparedRemotes outcome ++ [prAddr result]) (failedNodes outcome))
      else collect rest
             (mkPrepareOutcome (includeLocal outcome) (localPrepared outcome)
                (preparedRemotes outcome) (failedNodes outcome ++ [prAddr result]))
  end.

Definition prepareTransaction (J : Node.Json) (co : Coordinator) (txID : string)
    (payload : Node.Payload) (remoteParticipants : list loc) (w : World)
  : prepareOutcome * World :=
  let '(outcome, w1) :=
    match localNode co with
    | Some l =>
        let '((ready, err), w1) := localPrepare J txID payload l w in
        if ready && isNone err
        then (mkPrepareOutcome true true [] [], w1)
        else (mkPrepareOutcome true false [] [addrAt (heap w1) l +:+ " (local)"], w1)
    | None => (mkPrepareOutcome false false [] [], w)
    end in
  let '(prepareResults, tr1) :=
    preparePhase (client co) txID payload (heap w1) remoteParticipants (trace w1) in
  (collect prepareResults outcome, mkWorld (heap w1) (dblog w1) tr1).

Definition commitTransaction (co : Coordinator) (txID : string)
    (outcome : prepareOutcome) (w : World) : (bool * nat) * World :=
  let '(localCommitSuccess, w1) :=
    match localNode co with
    | Some l =>
        if includeLocal outcome && localPrepared outcome then
          let '(err, w1) := localCommit txID l w in (isNone err, w1)
        else (true, w)
    | None => (true, w)
    end in
  let '(commitResults, tr1) :=
    commitPhase (client co) txID (preparedRemotes outcome) (trace w1) in
  let commitSuccess :=
    foldl (fun acc result => if negb (crSuccess result) then false else acc)
          localCommitSuccess commitResults in
  let totalCommitted :=
    (length (preparedRemotes outcome) +
     (if includeLocal outcome && localPrepared outcome then 1 else 0))%nat in
  ((commitSuccess, totalCommitted), mkWorld (heap w1) (dblog w1) tr1).

Definition abortTransaction (co : Coordinator) (txID : string)
    (outcome : prepareOutcome) (participantAddrs : list string) (w : World) : World :=
  let w1 :=
    match localNode co with
    | Some l =>
        if includeLocal outcome && localPrepared outcome
        then (localAbort txID l w).2
        else w
    | None => w
    end in
  let '(_, tr1) := abortPhase (client co) txID participantAddrs (trace w1) in
  mkWorld (heap w1) (dblog w1) tr1.

(** [fmt.Sprintf] with [%v] on a slice of strings. *)
Definition sprintStrings (l : list string) : string :=
  "[" +:+ Strs.Join l " " +:+ "]".

(** [ExecuteOn]: Execute from the point where the transaction id has been
    drawn and the live followers have been snapshot, in whatever order the
    map was ranged over.  The Go function also returns an error, which is
    always nil. *)
Definition ExecuteOn (J : Node.Json) (co : Coordinator) (txID : string)
    (payload : Node.Payload) (remoteParticipants : list loc) (w : World)
  : TransactionResponse.t * World :=
  let totalParticipants :=
    (length remoteParticipants + (if localNode co is Some _ then 1 else 0))%nat in
  if bool_decide (totalParticipants = 0%nat) then
    (TransactionResponse.mk txID false EmptyString "No participants available", w)
  else
    let participantAddrs := addrAt (heap w) <$> remoteParticipants in
    let '(outcome, w1) := prepareTransaction J co txID payload remoteParticipants w in
    if bool_decide (0 < length (failedNodes outcome))%nat then
      let w2 := abortTransaction co txID outcome participantAddrs w1 in
      (TransactionResponse.mk txID false EmptyString
         ("Prepare failed for nodes: " +:+ sprintStrings (failedNodes outcome)), w2)
    else
      let '((commitSuccess, totalCommitted), w2) := commitTransaction co txID outcome w1 in
      if commitSuccess then
        (TransactionResponse.mk txID true
           ("Transaction committed on " +:+ Strs.Itoa totalCommitted +:+ " nodes")
           EmptyString, w2)
      else
        (TransactionResponse.mk txID false EmptyString "Some commits failed", w2).

(** [Execute]: [txID] is the uuid drawn for this invocation. *)
Definition Execute (J : Node.Json) (co : Coordinator) (txID : string)
    (payload : Node.Payload) (w : World) : TransactionResponse.t * World :=
  ExecuteOn J co txID payload (GetSlaveNodes (heap w) (cluster co)) w.

End Coordinator.

(** * Specification

    Predicates in the words of the specification, to be compared with the
    functions above. *)

Module Spec.
Import Protocol Cluster.

(** [a] is the address of a node of the table with liveness true. *)
Definition alive_addr (h : gmap loc Node.Node) (c : Cluster) (a : string) : Prop :=
  exists n, nodes c !! a = Some n /\ aliveAt h n = true.

(** The addresses of the live nodes, in the order the map is ranged
    over. *)
Definition aliveAddrs (h : gmap loc Node.Node) (c : Cluster) : list string :=
  (filter (fun p : string * loc => aliveAt h p.2 = true) (map_to_list (nodes c))).*1.

(** [a] is the lexicographically smallest address among the live nodes. *)
Definition lowest_alive (h : gmap loc Node.Node) (c : Cluster) (a : string) : Prop :=
  alive_addr h c a /\ forall b, alive_addr h c b -> String.le a b.

(** Exactly one node of the table carries the MASTER role; the master
    pointer references it and it is in the table. *)
Definition one_master (h : gmap loc Node.Node) (c : Cluster) : Prop :=
  exists n a,
    master c = Some n /\ nodes c !! a = Some n /\ roleAt h n = Some RoleMaster /\
    forall b m, nodes c !! b = Some m -> roleAt h m = Some RoleMaster -> m = n.

(** At most one node of the table carries the MASTER role. *)
Definition at_most_one_master (h : gmap loc Node.Node) (c : Cluster) : Prop :=
  forall a b n m,
    nodes c !! a = Some n -> nodes c !! b = Some m ->
    roleAt h n = Some RoleMaster -> roleAt h m = Some RoleMaster -> n = m.

(** The master pointer, when set, references a node of the table whose
    role is MASTER. *)
Definition master_in_table (h : gmap loc Node.Node) (c : Cluster) : Prop :=
  forall n, master c = Some n ->
    (exists a, nodes c !! a = Some n) /\ roleAt h n = Some RoleMaster.

(** If a node of the table is alive, exactly one node is the leader. *)
Definition alive_has_master (h : gmap loc Node.Node) (c : Cluster) : Prop :=
  (exists a, alive_addr h c a) -> one_master h c.

(** The invariant of the membership table as the specification has it. *)
Definition leader_invariant (s : State) : Prop :=
  at_most_one_master (Cluster.heap s) (Cluster.cluster s) /\
  master_in_table (Cluster.heap s) (Cluster.cluster s) /\
  alive_has_master (Cluster.heap s) (Cluster.cluster s).

(** A call that executes a statement on the data or the audit table, in
    a transaction or outside one. *)
Definition executes (call : DbCall) : bool :=
  match call with
  | TxExec _ _ _ | DbExec _ _ => true
  | _ => false
  end.

(** The payload decodes to an UPDATE (case and surrounding white space
    aside, as [strings.ToUpper] and [strings.TrimSpace] see them) whose
    [where] is absent or empty. *)
Definition update_without_where (J : Node.Json) (payload : Node.Payload) : Prop :=
  exists a, Node.decodePayload J payload = inr a /\
    Node.ToUpper J (Node.TrimSpace J (Node.Operation a)) = "UPDATE" /\
    size (Node.Where a) = 0%nat.

(** Every node of the table is allocated and registered under its own
    address. *)
Definition keyed_by_address (h : gmap loc Node.Node) (c : Cluster) : Prop :=
  forall a n, nodes c !! a = Some n ->
    exists nd, h !! n = Some nd /\ Node.Addr nd = a.

(** The second heap holds the nodes of the first, at the same
    addresses. *)
Definition same_addrs (h h' : gmap loc Node.Node) : Prop :=
  forall n nd, h !! n = Some nd ->
    exists nd', h' !! n = Some nd' /\ Node.Addr nd' = Node.Addr nd.

(** *** The participant store *)

(** What Prepare, Commit and Abort leave alone. *)
Definition same_identity (n n' : Node.Node) : Prop :=
  Node.Addr n' = Node.Addr n /\ Node.Role n' = Node.Role n /\
  Node.IsAlive n' = Node.IsAlive n /\ Node.db n' = Node.db n.

(** On a node with a database the open handles and the pending payloads
    have the same ids; a node without one holds no handle. *)
Definition store_consistent (n : Node.Node) : Prop :=
  match Node.db n with
  | Some _ =>
      forall id, is_Some (Node.pendingTx n !! id) <-> is_Some (Node.pendingData n !! id)
  | None => Node.pendingTx n = ∅
  end.

(** A statement executed in the transaction [h]. *)
Definition inTx (h : TxHandle) (call : DbCall) : Prop :=
  exists stmt args, call = TxExec h stmt args.

(** The wrapper's table against its node: every entry is READY, carries
    its own id, and its payload is the one pending in the node. *)
Definition wrapper_consistent (p : Participant.Participant) : Prop :=
  forall id ts, Participant.transactions p !! id = Some ts ->
    Participant.State ts = StateReady /\ Participant.ID ts = id /\
    Node.pendingData (Participant.node p) !! id = Some (Participant.Payload ts).

(** From [h] to [h'] no node is allocated or dropped, every node keeps
    its address, role, liveness and database, and only the node [l], if
    any, may differ at all. *)
Definition only_local (l : option loc) (h h' : gmap loc Node.Node) : Prop :=
  forall m,
    match h !! m with
    | Some n =>
        exists n', h' !! m = Some n' /\ same_identity n n' /\ (l <> Some m -> n' = n)
    | None => h' !! m = None
    end.

(** The characters of a validated identifier: lower-case letters,
    digits, underscore and hyphen. *)
Definition plainChar (r : ascii) : bool :=
  bool_decide (r = "_"%char) || bool_decide (r = "-"%char) ||
  Strs.is_digit r || Strs.is_lower r.

(** The address a call goes to over HTTP, and the transaction it is
    about. *)
Definition rpcAddr (call : Coordinator.Call) : option string :=
  match call with
  | Coordinator.RpcPrepare a _ | Coordinator.RpcCommit a _ | Coordinator.RpcAbort a _ =>
      Some a
  | _ => None
  end.

Definition callID (call : Coordinator.Call) : string :=
  match call with
  | Coordinator.LocalPrepare t | Coordinator.LocalCommit t | Coordinator.LocalAbort t
  | Coordinator.RpcPrepare _ t | Coordinator.RpcCommit _ t | Coordinator.RpcAbort _ t => t
  end.

(** [a] is the address of a live follower of the table. *)
Definition live_follower (h : gmap loc Node.Node) (c : Cluster) (a : string) : Prop :=
  exists b m, nodes c !! b = Some m /\ aliveAt h m = true /\
    roleAt h m = Some RoleSlave /\ addrAt h m = a.

(** *** Client and server on one connection *)

(** The number of calls of [do] among the events. *)
Definition attempts (ev : list Transport.Event) : nat :=
  length (filter (fun e => Transport.isAttempt e = true) ev).

Definition sleeps (ev : list Transport.Event) : nat :=
  length (filter (fun e => Transport.isSleep e = true) ev).

(** The answers of the first [k] requests, each with the state it
    leaves, when the requests are made one after the other. *)
Fixpoint answers {S : Type} (do : S -> (error + Transport.Response) * S) (st : S)
    (k : nat) : list ((error + Transport.Response) * S) :=
  match k with
  | O => []
  | Datatypes.S k' => let r := do st in r :: answers do r.2 k'
  end.

(** A transient failure: a transport error, or a status of 500 or above. *)
Definition transient (a : error + Transport.Response) : Prop :=
  match a with
  | inl _ => True
  | inr resp => (500 <= Transport.StatusCode resp)%nat
  end.

(** The error a transient failure is reported with: the transport error
    itself, or the text [transient status: ] followed by the status in
    decimal. *)
Definition errorOf (a : error + Transport.Response) : error :=
  match a with
  | inl err => err
  | inr resp =>
      "transient status: " +:+ NilEmpty.string_of_uint (Nat.to_uint (Transport.StatusCode resp))
  end.

(** The result of a retried call that made [m] requests out of [n]
    allowed: every request before the last failed transiently; the state
    is the one the last request left; and either the last answer is a
    response that is not a transient failure, which is returned with no
    error, or it is a transient failure, all [n] requests were made, and
    the result is a nil response with the error of that last answer. *)
Definition retry_result {S : Type} (do : S -> (error + Transport.Response) * S) (st : S)
    (n m : nat) (r : (option Transport.Response * option error) * S) : Prop :=
  exists a st',
    last (answers do st m) = Some (a, st') /\
    r.2 = st' /\
    Forall (fun x => transient x.1) (take (m - 1) (answers do st m)) /\
    ((~ transient a /\ exists resp, a = inr resp /\ r.1 = (Some resp, None)) \/
     (transient a /\ m = n /\ r.1 = (None, Some (errorOf a)))).

(** What a run of the loop with at least one iteration to go does. *)
Definition retry_outcome {S : Type} (do : S -> (error + Transport.Response) * S) (st : S)
    (k : nat) (delay : Z) (ev : list Transport.Event)
    (r : (option Transport.Response * option error) * S * list Transport.Event) : Prop :=
  exists ext,
    r.2 = ev ++ ext /\
    (1 <= attempts ext <= Datatypes.S k)%nat /\
    sleeps ext = (if (0 <? delay)%Z then attempts ext - 1 else 0)%nat /\
    (exists ext', ext = ext' ++ [Transport.Attempt] \/ ext = ext' ++ [Transport.Attempt; Transport.Drain]) /\
    match r.1.1 with
    | (Some resp, None) => (Transport.StatusCode resp < Transport.StatusInternalServerError)%nat
    | (None, Some _) => attempts ext = Datatypes.S k
    | _ => False
    end /\
    retry_result do st (Datatypes.S k) (attempts ext) r.1.

(** A connection that delivers every POST to the handlers of the server
    of one node, whatever the address, and brings the answer back. *)
Definition direct (J : Node.Json) (W : Transport.Wire)
  : Transport.Post (Node.Node * list DbCall) :=
  fun _ path body st =>
    let '(resp, n1, log1) :=
      if Strs.eqb path "prepare"
      then Transport.handlePrepare J W Transport.MethodPost body st.1 st.2
      else if Strs.eqb path "commit"
      then Transport.handleCommit W Transport.MethodPost body st.1 st.2
      else Transport.handleAbort W Transport.MethodPost body st.1 st.2 in
    (inr resp, (n1, log1)).

(** The Prepare request [req] arrives as it was sent. *)
Definition delivers (W : Transport.Wire) (req : Transport.PrepareRequest) : Prop :=
  forall body, Transport.MarshalPrepareRequest W req = inr body ->
    Transport.DecodePrepareRequest W body = inr req.

(** Commit and Abort requests arrive as they were sent, and the answers
    of success are read back as they were written. *)
Definition faithful_wire (W : Transport.Wire) : Prop :=
  (forall txID body, Transport.MarshalCommitRequest W txID = inr body ->
     Transport.DecodeCommitRequest W body = inr txID) /\
  (forall txID body, Transport.MarshalAbortRequest W txID = inr body ->
     Transport.DecodeAbortRequest W body = inr txID) /\
  Transport.DecodePrepareResponse W
    (Transport.EncodePrepareResponse W (PrepareResponse.mk StatusReady EmptyString)) =
    inr (PrepareResponse.mk StatusReady EmptyString) /\
  Transport.DecodeCommitResponse W
    (Transport.EncodeCommitResponse W (CommitResponse.mk true EmptyString)) =
    inr (CommitResponse.mk true EmptyString) /\
  Transport.DecodeAbortResponse W
    (Transport.EncodeAbortResponse W (AbortResponse.mk true EmptyString)) =
    inr (AbortResponse.mk true EmptyString).

(** [a] is the smallest registered address whose probe answers without
    error. *)
Definition lowest_healthy (hm : Heartbeat.HeartbeatManager) (c : Cluster) (a : string) : Prop :=
  (is_Some (nodes c !! a) /\ Heartbeat.HealthCheck hm a = None) /\
  forall b, is_Some (nodes c !! b) -> Heartbeat.HealthCheck hm b = None -> String.le a b.

(** *** Statement construction, in the words of the specification *)

(** An identifier is valid when it is non-empty and made of letters,
    digits, underscores and hyphens. *)
Definition validIdent (id : string) : Prop :=
  id <> EmptyString /\ Node.allChars Node.identChar id = true.

(** The keys of a map, in the order it happens to be ranged over. *)
Definition keysOf (m : gmap string Scalar) : list string := (map_to_list m).*1.

(** The keys in ascending order. *)
Definition ascendingKeys (m : gmap string Scalar) : list string :=
  Strs.SortStrings (keysOf m).

(** An identifier in the words of the specification: a non-empty text
    whose characters are the underscore, the hyphen, the digits [0]-[9]
    and the letters [a]-[z] and [A]-[Z], given by their ASCII codes. *)
Definition identifierChar (ch : ascii) : Prop :=
  let k := nat_of_ascii ch in
  k = 95%nat \/ k = 45%nat \/ (48 <= k <= 57)%nat \/
  (97 <= k <= 122)%nat \/ (65 <= k <= 90)%nat.

Definition identifier (id : string) : Prop :=
  id <> EmptyString /\ Forall identifierChar (list_ascii_of_string id).

(** A validated identifier, lower-cased and double-quoted. *)
Definition column (c : string) : string := Strs.dq +:+ Strs.ToLower c +:+ Strs.dq.

(** The positional placeholder [$k]: a dollar sign and [k] in decimal. *)
Definition positional (k : nat) : string :=
  String "$"%char (NilEmpty.string_of_uint (Nat.to_uint k)).

(** The value bound for a column: what the map holds at that key. *)
Definition boundValue (m : gmap string Scalar) (c : string) : Scalar :=
  default SNull (m !! c).

(** [column = $k] clauses with the placeholders numbered from [first]. *)
Definition clauses (first : nat) (cols : list string) : list string :=
  zip_with (fun k c => column c +:+ "=" +:+ positional k)
           (seq first (length cols)) cols.

(** Insert: the columns are the sorted keys of [values], the placeholders
    are $1..$n and the arguments follow the same order. *)
Definition insertStatement (a : Node.SQLAction) : string * list Scalar :=
  let cols := ascendingKeys (Node.Values a) in
  ("INSERT INTO " +:+ Strs.dq +:+ Strs.ToLower (Node.Table a) +:+ Strs.dq +:+ " (" +:+
   Strs.Join (column <$> cols) "," +:+ ") VALUES (" +:+
   Strs.Join (positional <$> seq 1 (length cols)) "," +:+ ")",
   boundValue (Node.Values a) <$> cols).

(** Update: SET clauses from the sorted keys of [values], then WHERE
    clauses from the sorted keys of [where] joined by AND; the values are
    bound positionally in that order. *)
Definition updateStatement (a : Node.SQLAction) : string * list Scalar :=
  let setCols := ascendingKeys (Node.Values a) in
  let whereCols := ascendingKeys (Node.Where a) in
  ("UPDATE " +:+ Strs.dq +:+ Strs.ToLower (Node.Table a) +:+ Strs.dq +:+ " SET " +:+
   Strs.Join (clauses 1 setCols) "," +:+ " WHERE " +:+
   Strs.Join (clauses (1 + length setCols) whereCols) " AND ",
   (boundValue (Node.Values a) <$> setCols) ++
   (boundValue (Node.Where a) <$> whereCols)).

(** *** The coordinator *)

(** A Commit call reported success: no error came back and the response
    says so. *)
Definition commit_reported_success (answer : option CommitResponse.t * option error)
  : Prop :=
  answer.2 = None /\ exists r, answer.1 = Some r /\ CommitResponse.Success r = true.

(** The answers the client gives to the Commit calls of one commit phase,
    in the order of the prepared addresses. *)
Fixpoint commitAnswers (cl : Coordinator.HTTPClient) (txID : string)
    (preparedAddrs : list string) (tr : list Coordinator.Call)
  : list (option CommitResponse.t * option error) :=
  match preparedAddrs with
  | [] => []
  | nodeAddr :: rest =>
      Coordinator.clientCommit cl tr nodeAddr txID ::
      commitAnswers cl txID rest (tr ++ [Coordinator.RpcCommit nodeAddr txID])
  end.

(** The local commit of the commit phase, when a local node takes part:
    whether it reported success, and the world it leaves. *)
Definition localCommitOutcome (co : Coordinator.Coordinator) (txID : string)
    (w : Coordinator.World) : bool * Coordinator.World :=
  match Coordinator.localNode co with
  | Some l =>
      let r := Coordinator.localCommit txID l w in (Coordinator.isNone r.1, r.2)
  | None => (true, w)
  end.

(** The number of participants of an Execute. *)
Definition totalParticipants (co : Coordinator.Coordinator) (ps : list Cluster.loc) : nat :=
  (length ps + (if Coordinator.localNode co is Some _ then 1 else 0))%nat.

(** An Abort, issued in process or over HTTP. *)
Definition isAbort (call : Coordinator.Call) : bool :=
  match call with
  | Coordinator.LocalAbort _ | Coordinator.RpcAbort _ _ => true
  | _ => false
  end.

(** A Commit, issued in process or over HTTP. *)
Definition isCommit (call : Coordinator.Call) : bool :=
  match call with
  | Coordinator.LocalCommit _ | Coordinator.RpcCommit _ _ => true
  | _ => false
  end.

End Spec.

(** * Scenarios

    Concrete states on which the properties below are evaluated. *)

Module Scenario.
Import Protocol Cluster.

(** Scenario 1 of the specification: [a:1], [b:2], [c:3], all live, no
    prior leader; the nodes are added out of order. *)
Definition three_nodes : State :=
  run [OpNewNode "b:2" RoleSlave; OpNewNode "a:1" RoleSlave; OpNewNode "c:3" RoleSlave;
       OpAddNode 0%nat; OpAddNode 1%nat; OpAddNode 2%nat].

(** The same cluster with every node dead. *)
Definition three_dead : State :=
  foldl step three_nodes
    [OpSetAlive 0%nat false; OpSetAlive 1%nat false; OpSetAlive 2%nat false].

(** A single live node registered under the empty address. *)
Definition unnamed_node : State :=
  run [OpNewNode EmptyString RoleSlave; OpAddNode 0%nat].

(** Two followers; the first is elected, every node dies, an election
    finds nobody, and the second node is then made master by hand. *)
Definition two_masters_ops : list Op :=
  [OpNewNode "a:1" RoleSlave; OpNewNode "b:2" RoleSlave;
   OpAddNode 0%nat; OpAddNode 1%nat; OpElectMaster;
   OpSetAlive 0%nat false; OpSetAlive 1%nat false; OpElectMaster;
   OpSetMaster (Some 1%nat)].

Definition two_masters : State := run two_masters_ops.

(** A database on which every call succeeds: the audit table exists, a
    transaction gets the number of calls so far as its handle, and every
    statement affects one row. *)
Definition goodDB : DB :=
  {| tableExists := fun _ _ => inr true;
     execDDL := fun _ => None;
     beginTx := fun log => inr (length log);
     txExec := fun _ _ _ _ => inr (inr 1%Z);
     txCommit := fun _ _ => None;
     txRollback := fun _ _ => None;
     dbExec := fun _ _ _ => None |}.

(** A database that has gone away: every call fails. *)
Definition downDB : DB :=
  {| tableExists := fun _ _ => inl "connection refused";
     execDDL := fun _ => Some "connection refused";
     beginTx := fun _ => inl "connection refused";
     txExec := fun _ _ _ _ => inl "connection refused";
     txCommit := fun _ _ => Some "connection refused";
     txRollback := fun _ _ => Some "connection refused";
     dbExec := fun _ _ _ => Some "connection refused" |}.

(** A database whose transactions work while statements outside a
    transaction are refused. *)
Definition flakyDB : DB :=
  {| tableExists := tableExists goodDB;
     execDDL := execDDL goodDB;
     beginTx := beginTx goodDB;
     txExec := txExec goodDB;
     txCommit := txCommit goodDB;
     txRollback := txRollback goodDB;
     dbExec := fun _ _ _ => Some "connection refused" |}.

(** The library of the scenarios.  The codec is one for payloads that
    are already decoded: nothing it is given parses, and every value
    encodes to the empty object.  The texts of the scenarios are ASCII, on
    which TrimSpace and ToUpper are the two functions below. *)
Definition plainJson : Node.Json :=
  {| Node.Unmarshal := fun _ => inl "unexpected end of JSON input";
     Node.Marshal := fun _ => inr "{}";
     Node.TrimSpace := Strs.asciiTrimSpace;
     Node.ToUpper := Strs.asciiToUpper |}.

(** Scenario 3 of the specification: an insert into [users]. *)
Definition insertAlice : Node.SQLAction :=
  {| Node.Table := "users"; Node.Operation := "INSERT";
     Node.Values := {[ "id" := SNum 1; "name" := SStr "Alice" ]};
     Node.Where := ∅ |}.

(** An update with its [where] missing. *)
Definition updateNoWhere : Node.SQLAction :=
  {| Node.Table := "users"; Node.Operation := "update";
     Node.Values := {[ "name" := SStr "Bob" ]};
     Node.Where := ∅ |}.

(** An update of one row. *)
Definition updateBob : Node.SQLAction :=
  {| Node.Table := "Users"; Node.Operation := " update ";
     Node.Values := {[ "name" := SStr "Bob"; "Age" := SNum 42 ]};
     Node.Where := {[ "id" := SNum 1; "active" := SBool true ]} |}.

Definition simNode : Node.Node := Node.NewNode "n:1" RoleSlave.
Definition dbNode : Node.Node := Node.NewNodeWithDB "n:1" RoleSlave goodDB.
Definition downNode : Node.Node := Node.NewNodeWithDB "n:1" RoleSlave downDB.

(** A node on which ["tx-1"] is pending, with and without a database. *)
Definition simPending : Node.Node :=
  (Node.Prepare plainJson "tx-1" (Node.PayloadAction insertAlice) simNode []).1.2.
Definition flakyNode : Node.Node := Node.NewNodeWithDB "n:1" RoleSlave flakyDB.
Definition dbPending : Node.Node * list DbCall :=
  let r := Node.Prepare plainJson "tx-1" (Node.PayloadAction insertAlice) dbNode [] in
  (r.1.2, r.2).

(** The text of [sql.ErrTxDone]. *)
Definition ErrTxDone : error :=
  "sql: transaction has already been committed or rolled back".

(** A database that has finished every transaction on its own: whatever
    is done in one is refused. *)
Definition doneDB : DB :=
  {| tableExists := tableExists goodDB;
     execDDL := execDDL goodDB;
     beginTx := beginTx goodDB;
     txExec := fun _ _ _ _ => inl ErrTxDone;
     txCommit := fun _ _ => Some ErrTxDone;
     txRollback := fun _ _ => Some ErrTxDone;
     dbExec := dbExec goodDB |}.

(** A node that holds ["tx-1"] in a transaction of that database. *)
Definition donePending : Node.Node :=
  Node.setTx StateReady {[ "tx-1" := mkOpenTx doneDB 1%nat ]}
    {[ "tx-1" := Node.PayloadAction insertAlice ]}
    (Node.NewNodeWithDB "n:1" RoleSlave doneDB).

(** A wire for the requests of scenario 3: a request is sent as its
    transaction id, an answer as one letter. *)
Definition letterWire : Transport.Wire :=
  {| Transport.MarshalPrepareRequest := fun req =>
       inr (Transport.TransactionID req);
     Transport.DecodePrepareRequest := fun body =>
       inr (Transport.mkPrepareRequest body (Node.PayloadAction insertAlice));
     Transport.EncodePrepareResponse := fun r =>
       if Strs.eqb (PrepareResponse.Status r) StatusReady then "R" else "A";
     Transport.DecodePrepareResponse := fun body =>
       if Strs.eqb body "R" then inr (PrepareResponse.mk StatusReady EmptyString)
       else inl "invalid character";
     Transport.MarshalCommitRequest := fun txID => inr txID;
     Transport.DecodeCommitRequest := fun body => inr body;
     Transport.EncodeCommitResponse := fun r =>
       if CommitResponse.Success r then "T" else "F";
     Transport.DecodeCommitResponse := fun body =>
       if Strs.eqb body "T" then inr (CommitResponse.mk true EmptyString)
       else inl "invalid character";
     Transport.MarshalAbortRequest := fun txID => inr txID;
     Transport.DecodeAbortRequest := fun body => inr body;
     Transport.EncodeAbortResponse := fun r =>
       if AbortResponse.Success r then "T" else "F";
     Transport.DecodeAbortResponse := fun body =>
       if Strs.eqb body "T" then inr (AbortResponse.mk true EmptyString)
       else inl "invalid character" |}.

(** *** Coordinator scenarios *)

(** Every peer answers READY and confirms commit and abort. *)
Definition readyClient : Coordinator.HTTPClient :=
  {| Coordinator.clientPrepare := fun _ _ _ _ =>
       (Some (PrepareResponse.mk StatusReady EmptyString), None);
     Coordinator.clientCommit := fun _ _ _ =>
       (Some (CommitResponse.mk true EmptyString), None);
     Coordinator.clientAbort := fun _ _ _ =>
       (Some (AbortResponse.mk true EmptyString), None) |}.

(** Scenario 4: the prepare sent to [c:3] times out. *)
Definition timeoutClient : Coordinator.HTTPClient :=
  {| Coordinator.clientPrepare := fun _ addr _ _ =>
       if Strs.eqb addr "c:3" then (None, Some "context deadline exceeded")
       else (Some (PrepareResponse.mk StatusReady EmptyString), None);
     Coordinator.clientCommit := Coordinator.clientCommit readyClient;
     Coordinator.clientAbort := Coordinator.clientAbort readyClient |}.

(** The commit sent to [b:2] is answered with a failure. *)
Definition commitFailClient : Coordinator.HTTPClient :=
  {| Coordinator.clientPrepare := Coordinator.clientPrepare readyClient;
     Coordinator.clientCommit := fun _ addr _ =>
       if Strs.eqb addr "b:2" then (Some (CommitResponse.mk false "Commit failed"), None)
       else (Some (CommitResponse.mk true EmptyString), None);
     Coordinator.clientAbort := Coordinator.clientAbort readyClient |}.

(** Scenario 1 after its election: [a:1] (location 1) leads. *)
Definition elected : State := step three_nodes OpElectMaster.

(** A round of probes in which [a:1] does not answer. *)
Definition a_down : Heartbeat.HeartbeatManager :=
  Heartbeat.mkHeartbeatManager
    (fun addr => if Strs.eqb addr "a:1" then Some "connection refused" else None).

Definition world (s : State) : Coordinator.World :=
  Coordinator.mkWorld (Cluster.heap s) [] [].

(** The leader [a:1] coordinates and takes part with its own store. *)
Definition leader (cl : Coordinator.HTTPClient) : Coordinator.Coordinator :=
  Coordinator.mkCoordinator (Cluster.cluster elected) (Some 1%nat) cl.

(** The cluster of the test of the no-participants case: a live master
    alone, which does not take part. *)
Definition master_alone : State :=
  run [OpNewNode "localhost:8080" RoleMaster; OpAddNode 0%nat; OpSetMaster (Some 0%nat)].

Definition lonely : Coordinator.Coordinator :=
  Coordinator.mkCoordinator (Cluster.cluster master_alone) None readyClient.

(** A leader with a database and one follower [b:2]. *)
Definition leader_with_db : Coordinator.World :=
  let s := run [OpNewNode "b:2" RoleSlave; OpAddNode 0%nat] in
  Coordinator.mkWorld
    (<[1%nat := Node.NewNodeWithDB "a:1" RoleMaster goodDB]> (Cluster.heap s)) [] [].

Definition db_leader : Coordinator.Coordinator :=
  Coordinator.mkCoordinator
    (Cluster.cluster (run [OpNewNode "b:2" RoleSlave; OpAddNode 0%nat]))
    (Some 1%nat) readyClient.

End Scenario.

(** * Properties *)

(** ** Sorting strings *)

Section sorting.

Lemma SortStrings_perm (l : list string) : Strs.SortStrings l ≡ₚ l.
Proof. apply merge_sort_Permutation. Qed.

Lemma SortStrings_sorted (l : list string) : StronglySorted String.le (Strs.SortStrings l).
Proof. apply (StronglySorted_merge_sort String.le). Qed.

(** Two enumerations of the same elements sort to the same slice. *)
Lemma SortStrings_unique (l1 l2 : list string) :
  l1 ≡ₚ l2 -> Strs.SortStrings l1 = Strs.SortStrings l2.
Proof.
  intros Hp. apply (StronglySorted_unique String.le); auto using SortStrings_sorted.
  by rewrite !SortStrings_perm.
Qed.

Lemma SortStrings_hd_min (l : list string) (a : string) :
  a ∈ l ->
  hd EmptyString (Strs.SortStrings l) ∈ l /\
  String.le (hd EmptyString (Strs.SortStrings l)) a.
Proof.
  intros Ha.
  pose proof (SortStrings_perm l) as Hp.
  pose proof (SortStrings_sorted l) as Hs.
  rewrite <- Hp in Ha.
  destruct (Strs.SortStrings l) as [|m s]; [by apply elem_of_nil in Ha|].
  simpl. split.
  - rewrite <- Hp. by left.
  - apply StronglySorted_inv in Hs as [_ Hall].
    apply elem_of_cons in Ha as [->|Ha]; [done|].
    by eapply Forall_forall in Hall.
Qed.

End sorting.

(** ** Election *)

Section election.
Import Protocol Cluster Spec.

Implicit Types (h : gmap loc Node.Node) (c : Cluster) (a b : string) (n m : loc).

Lemma elem_of_aliveAddrs h c a : a ∈ aliveAddrs h c <-> alive_addr h c a.
Proof.
  unfold aliveAddrs, alive_addr. rewrite list_elem_of_fmap. split.
  - intros [[a' n] [-> [Hal Hin]%list_elem_of_filter]].
    apply elem_of_map_to_list in Hin. by exists n.
  - intros [n [Hn Hal]]. exists (a, n). split; [done|].
    apply list_elem_of_filter. split; [done|]. by apply elem_of_map_to_list.
Qed.

Lemma lowestAliveAddrLocked_unfold h c :
  lowestAliveAddrLocked h c =
  if bool_decide (length (aliveAddrs h c) = 0%nat) then EmptyString
  else hd EmptyString (Strs.SortStrings (aliveAddrs h c)).
Proof. reflexivity. Qed.

Lemma lowestAliveAddrLocked_lowest h c a :
  lowest_alive h c a -> lowestAliveAddrLocked h c = a.
Proof.
  intros [Ha Hmin]. rewrite lowestAliveAddrLocked_unfold.
  apply elem_of_aliveAddrs in Ha.
  destruct (SortStrings_hd_min _ _ Ha) as [Hin Hle].
  case_bool_decide as Hlen.
  - apply length_zero_iff_nil in Hlen. rewrite Hlen in Ha. by apply elem_of_nil in Ha.
  - apply (anti_symm String.le); [done|].
    apply Hmin. by apply elem_of_aliveAddrs.
Qed.

Lemma lowestAliveAddrLocked_none h c :
  (forall a, ~ alive_addr h c a) -> lowestAliveAddrLocked h c = EmptyString.
Proof.
  intros Hno. rewrite lowestAliveAddrLocked_unfold.
  case_bool_decide as Hlen; [done|].
  destruct (aliveAddrs h c) as [|a l] eqn:E; [done|].
  exfalso. apply (Hno a), elem_of_aliveAddrs. rewrite E. by left.
Qed.

Lemma lowestAliveAddrLocked_alive h c :
  lowestAliveAddrLocked h c <> EmptyString ->
  lowest_alive h c (lowestAliveAddrLocked h c).
Proof.
  rewrite lowestAliveAddrLocked_unfold.
  case_bool_decide as Hlen; [done|]. intros _.
  destruct (aliveAddrs h c) as [|a l] eqn:E; [done|].
  assert (a ∈ aliveAddrs h c) as Ha by (rewrite E; by left).
  rewrite <- E. split.
  - apply elem_of_aliveAddrs. by apply (SortStrings_hd_min _ a).
  - intros b Hb%elem_of_aliveAddrs. by apply SortStrings_hd_min.
Qed.

(** Roles do not enter the choice of the lowest alive address. *)
Lemma aliveAt_setRoleAt h n m role : aliveAt (setRoleAt n role h) m = aliveAt h m.
Proof.
  unfold aliveAt, setRoleAt. rewrite lookup_alter.
  case_decide; [subst|done]. by destruct (h !! m).
Qed.

Lemma lowestAliveAddrLocked_ext h h' c :
  (forall m, aliveAt h' m = aliveAt h m) ->
  lowestAliveAddrLocked h' c = lowestAliveAddrLocked h c.
Proof.
  intros Hal. rewrite !lowestAliveAddrLocked_unfold.
  assert (aliveAddrs h' c = aliveAddrs h c) as ->; [|done].
  unfold aliveAddrs. f_equal. apply list_filter_iff. intros p. by rewrite Hal.
Qed.

Lemma SetRole_SetRole r (nd : Node.Node) :
  Node.SetRole r (Node.SetRole r nd) = Node.SetRole r nd.
Proof. by destruct nd. Qed.

Lemma foldl_setRole_lookup (ls : list loc) h m :
  foldl (fun acc n => setRoleAt n RoleSlave acc) h ls !! m =
  if decide (m ∈ ls) then Node.SetRole RoleSlave <$> h !! m else h !! m.
Proof.
  revert h. induction ls as [|n ls IH]; intros h; cbn [foldl].
  - destruct (decide (m ∈ [])) as [Hin|_]; [by apply elem_of_nil in Hin|done].
  - rewrite IH. unfold setRoleAt. rewrite lookup_alter.
    destruct (decide (m ∈ n :: ls)) as [Hin|Hnin].
    + destruct (decide (m ∈ ls)) as [_|Hnin'].
      * destruct (decide (n = m)) as [->|]; [|done].
        destruct (h !! m); simpl; [|done]. by rewrite SetRole_SetRole.
      * apply elem_of_cons in Hin as [->|?]; [|done].
        by rewrite decide_True.
    + apply not_elem_of_cons in Hnin as [Hne Hnin].
      by rewrite decide_False, decide_False by done.
Qed.

Lemma elem_of_GetNodes c m : m ∈ GetNodes c <-> exists a, nodes c !! a = Some m.
Proof.
  unfold GetNodes. rewrite list_elem_of_fmap. split.
  - intros [[a m'] [-> Hin%elem_of_map_to_list]]. by exists a.
  - intros [a Ha]. exists (a, m). split; [done|]. by apply elem_of_map_to_list.
Qed.

Lemma roleAt_resetRoles h c m :
  (exists a, nodes c !! a = Some m) ->
  roleAt (resetRoles h c) m = (fun _ => RoleSlave) <$> h !! m.
Proof.
  intros Hin%elem_of_GetNodes. unfold roleAt, resetRoles.
  rewrite foldl_setRole_lookup, decide_True by done.
  by destruct (h !! m).
Qed.

Lemma aliveAt_is_Some h n : aliveAt h n = true -> is_Some (h !! n).
Proof. unfold aliveAt. destruct (h !! n); [eauto|done]. Qed.

(** The outcome of the selection step, whenever a live node with a
    non-empty address exists. *)
Lemma electMasterLocked_elected h c a :
  lowest_alive h c a -> a <> EmptyString ->
  exists n, nodes c !! a = Some n /\
    electMasterLocked h c =
      (true, setRoleAt n RoleMaster (resetRoles h c), mkCluster (nodes c) (Some n)).
Proof.
  intros Hlow Hne. pose proof Hlow as [[n [Hn Hal]] _].
  exists n. split; [done|]. unfold electMasterLocked.
  rewrite (lowestAliveAddrLocked_lowest _ _ _ Hlow).
  unfold Strs.eqb. rewrite bool_decide_eq_false_2 by done. by rewrite Hn.
Qed.

Lemma electMasterLocked_nobody h c :
  lowestAliveAddrLocked h c = EmptyString ->
  electMasterLocked h c = (false, h, mkCluster (nodes c) None).
Proof. intros E. unfold electMasterLocked. by rewrite E. Qed.

Lemma roleAt_elected h c n :
  (exists a, nodes c !! a = Some n) -> is_Some (h !! n) ->
  roleAt (setRoleAt n RoleMaster (resetRoles h c)) n = Some RoleMaster.
Proof.
  intros Hin [nd Hnd]. unfold roleAt, setRoleAt. rewrite lookup_alter_eq.
  pose proof (roleAt_resetRoles h c n Hin) as Hr. unfold roleAt in Hr.
  rewrite Hnd in Hr. destruct (resetRoles h c !! n); simplify_eq/=; done.
Qed.

Lemma roleAt_others h c n m :
  (exists a, nodes c !! a = Some m) -> m <> n ->
  roleAt (setRoleAt n RoleMaster (resetRoles h c)) m <> Some RoleMaster.
Proof.
  intros Hin Hne. unfold roleAt at 1, setRoleAt. rewrite lookup_alter_ne by done.
  pose proof (roleAt_resetRoles h c m Hin) as Hr. unfold roleAt in Hr.
  rewrite Hr. by destruct (h !! m).
Qed.

Lemma electMasterLocked_one_master h c a :
  lowest_alive h c a -> a <> EmptyString ->
  one_master (electMasterLocked h c).1.2 (electMasterLocked h c).2.
Proof.
  intros Hlow Hne.
  destruct (electMasterLocked_elected h c a Hlow Hne) as [n [Hn ->]]. simpl.
  destruct Hlow as [[n' [Hn' Hal]] _]. assert (n' = n) as -> by congruence.
  exists n, a. repeat split; [done|..].
  - apply roleAt_elected; [by exists a|by apply aliveAt_is_Some].
  - intros b m Hm Hrole. destruct (decide (m = n)) as [|Hmn]; [done|].
    exfalso. eapply roleAt_others; [by exists b|done..].
Qed.

End election.

Section election_outcome.
Import Protocol Cluster Spec.

Implicit Types (h : gmap loc Node.Node) (c : Cluster) (a b : string) (n m : loc).

Lemma lowest_alive_ext h h' c c' a :
  (forall m, aliveAt h' m = aliveAt h m) -> nodes c' = nodes c ->
  lowest_alive h c a -> lowest_alive h' c' a.
Proof.
  intros Hal Hn [[n [Hk Ha]] Hmin]. split.
  - exists n. by rewrite Hn, Hal.
  - intros b [m [Hb Hm]]. apply Hmin. exists m. by rewrite <- Hn, <- Hal.
Qed.

Lemma lowest_alive_exists h c a :
  alive_addr h c a -> exists a', lowest_alive h c a'.
Proof.
  intros Ha%elem_of_aliveAddrs.
  exists (hd EmptyString (Strs.SortStrings (aliveAddrs h c))). split.
  - apply elem_of_aliveAddrs. by apply (SortStrings_hd_min _ a).
  - intros b Hb%elem_of_aliveAddrs. by apply SortStrings_hd_min.
Qed.

(** A decidable form of [lowest_alive], for concrete states. *)
Lemma lowest_alive_check h c a :
  bool_decide (a ∈ aliveAddrs h c) && forallb (String.leb a) (aliveAddrs h c) = true ->
  lowest_alive h c a.
Proof.
  intros [Hin Hall]%andb_true_iff. apply bool_decide_eq_true in Hin. split.
  - by apply elem_of_aliveAddrs.
  - intros b Hb%elem_of_aliveAddrs. rewrite forallb_forall in Hall.
    apply Is_true_true, Hall. by apply list_elem_of_In.
Qed.

Lemma empty_le (b : string) : String.le EmptyString b.
Proof. unfold String.le, String.leb. by destruct b. Qed.

Lemma aliveAt_setAliveAt h n m alive :
  aliveAt (setAliveAt n alive h) m =
  if decide (n = m) then (if h !! m is Some _ then alive else false) else aliveAt h m.
Proof.
  unfold aliveAt, setAliveAt. rewrite lookup_alter.
  case_decide; [subst|done]. by destruct (h !! m).
Qed.

(** CheckAndElect: the pointer ends on the node at the lowest alive
    address, or stays on the current master when that is its address. *)
Lemma CheckAndElect_master h c a :
  lowest_alive h c a -> a <> EmptyString ->
  exists n, master (CheckAndElect h c).2 = Some n /\
    (nodes c !! a = Some n \/
     (master c = Some n /\ addrAt h n = a /\ aliveAt h n = true)).
Proof.
  intros Hlow Hne. unfold CheckAndElect.
  rewrite (lowestAliveAddrLocked_lowest _ _ _ Hlow).
  unfold Strs.eqb at 1. rewrite (bool_decide_eq_false_2 (a = EmptyString)) by done.
  destruct (master c) as [m|] eqn:Hm.
  - destruct (aliveAt h m) eqn:Hal; simpl.
    + unfold Strs.eqb. rewrite Hm. rewrite bool_decide_eq_false_2 by done. simpl.
      case_bool_decide as Haddr; simpl.
      * exists m. rewrite Hm. by auto.
      * destruct (electMasterLocked_elected h c a Hlow Hne) as [n [Hn ->]].
        exists n. by auto.
    + assert (lowest_alive (setRoleAt m RoleSlave h) (mkCluster (nodes c) None) a) as Hlow'.
      { eapply lowest_alive_ext; [|done..]. intros ?. apply aliveAt_setRoleAt. }
      destruct (electMasterLocked_elected _ _ a Hlow' Hne) as [n [Hn ->]].
      exists n. by auto.
  - simpl. rewrite Hm. simpl.
    destruct (electMasterLocked_elected h c a Hlow Hne) as [n [Hn ->]].
    exists n. by auto.
Qed.

Lemma CheckAndElect_nobody h c :
  (forall a, ~ alive_addr h c a) -> master (CheckAndElect h c).2 = None.
Proof.
  intros Hno. unfold CheckAndElect.
  rewrite (lowestAliveAddrLocked_none _ _ Hno). simpl.
  destruct (master c) as [m|] eqn:Hm; [|by rewrite Hm].
  destruct (aliveAt h m); simpl; [by rewrite Hm|done].
Qed.

(** Away from the empty address the election does what its documentation
    says.  For every membership state whose lexicographically smallest live
    address [a] is not the empty string, [electMasterLocked] and ElectMaster
    leave the master pointer on the node registered under [a], with role
    MASTER, and CheckAndElect leaves it on that node or keeps the current
    master when that node's own address is [a]; if no node is alive the
    pointer is cleared; and when all nodes are dead, reviving one node (not
    registered under the empty address) makes the next election elect
    exactly that node. *)
Theorem election_nonempty_address h c :
  (forall a, lowest_alive h c a -> a <> EmptyString ->
     exists n, nodes c !! a = Some n /\
       master (electMasterLocked h c).2 = Some n /\
       master (ElectMaster h c).2 = Some n /\
       roleAt (ElectMaster h c).1 n = Some RoleMaster /\
       exists n', master (CheckAndElect h c).2 = Some n' /\
         (n' = n \/ (master c = Some n' /\ addrAt h n' = a))) /\
  ((forall a, ~ alive_addr h c a) ->
     master (electMasterLocked h c).2 = None /\
     master (ElectMaster h c).2 = None /\
     master (CheckAndElect h c).2 = None) /\
  (forall n,
     (forall b m, nodes c !! b = Some m -> aliveAt h m = false) ->
     (exists a, nodes c !! a = Some n) -> is_Some (h !! n) ->
     (forall b, nodes c !! b = Some n -> b <> EmptyString) ->
     master (ElectMaster h c).2 = None /\
     master (ElectMaster (setAliveAt n true h) c).2 = Some n).
Proof.
  assert (forall h c, ElectMaster h c = ((electMasterLocked h c).1.2, (electMasterLocked h c).2))
    as HE by (intros h' c'; unfold ElectMaster; by destruct (electMasterLocked h' c') as [[??]?]).
  assert (forall h c, (forall a, ~ alive_addr h c a) -> master (electMasterLocked h c).2 = None)
    as Hnone.
  { intros h' c' Hno.
    by rewrite (electMasterLocked_nobody _ _ (lowestAliveAddrLocked_none _ _ Hno)). }
  split; [|split].
  - intros a Hlow Hne.
    destruct (electMasterLocked_elected h c a Hlow Hne) as [n [Hn Hel]].
    exists n. rewrite HE, Hel. simpl. repeat split; [done|..].
    + apply roleAt_elected; [by exists a|].
      destruct Hlow as [[n' [Hn' Hal]] _]. assert (n' = n) as -> by congruence.
      by apply aliveAt_is_Some.
    + destruct (CheckAndElect_master h c a Hlow Hne) as [n' [Hm Hor]].
      exists n'. split; [done|]. destruct Hor as [Hk|(? & ? & ?)]; [left; congruence|by right].
  - intros Hno. rewrite HE. simpl. split; [|split]; auto using CheckAndElect_nobody.
  - intros n Hdead [a Ha] [nd Hnd] Hnonempty. split.
    + rewrite HE. simpl. apply Hnone. intros b [m [Hb Hal]].
      rewrite (Hdead b m Hb) in Hal. done.
    + set (h' := setAliveAt n true h).
      assert (forall b, alive_addr h' c b <-> nodes c !! b = Some n) as Halive.
      { intros b. split.
        - intros [m [Hb Hal]]. unfold h' in Hal. rewrite aliveAt_setAliveAt in Hal.
          case_decide; [by subst|]. by rewrite (Hdead b m Hb) in Hal.
        - intros Hb. exists n. split; [done|]. unfold h'.
          rewrite aliveAt_setAliveAt, decide_True, Hnd; done. }
      destruct (lowest_alive_exists h' c a) as [a' Hlow]; [by apply Halive|].
      pose proof (proj1 (Halive a') (proj1 Hlow)) as Ha'.
      destruct (electMasterLocked_elected h' c a' Hlow (Hnonempty a' Ha')) as [n' [Hn' Hel]].
      rewrite HE, Hel. simpl. congruence.
Qed.

(** The theorem at scenario 1: the election elects [a:1]. *)
Lemma election_nonempty_address_witness :
  let s := Scenario.three_nodes in
  exists n, nodes (cluster s) !! "a:1" = Some n /\
            master (ElectMaster (heap s) (cluster s)).2 = Some n.
Proof.
  intros s.
  assert (lowest_alive (heap s) (cluster s) "a:1") as Hlow
    by (apply lowest_alive_check; vm_compute; reflexivity).
  destruct (proj1 (election_nonempty_address (heap s) (cluster s)) "a:1" Hlow)
    as (n & Hn & _ & Hm & _); [done|].
  exists n. by split.
Defined.

(** C3.  The election does not elect the lowest live address when that
    address is the empty string.  The state is the one AddNode builds from
    one live node whose address is empty (the join handler registers
    whatever address it is sent).  There the empty address is the smallest
    live one and ShouldBeMaster answers true for it; yet
    [lowestAliveAddrLocked] returns the empty string, which the election
    reads as "nobody alive": [electMasterLocked] reports that nobody was
    elected, ElectMaster and CheckAndElect leave the master pointer
    cleared, and the node stays a SLAVE. *)
Theorem election_empty_address :
  let s := Scenario.unnamed_node in
  reachable s /\
  nodes (cluster s) !! EmptyString = Some 0%nat /\
  aliveAt (heap s) 0%nat = true /\
  lowest_alive (heap s) (cluster s) EmptyString /\
  ShouldBeMaster EmptyString (heap s) (cluster s) = true /\
  lowestAliveAddrLocked (heap s) (cluster s) = EmptyString /\
  (electMasterLocked (heap s) (cluster s)).1.1 = false /\
  master (electMasterLocked (heap s) (cluster s)).2 = None /\
  master (ElectMaster (heap s) (cluster s)).2 = None /\
  master (CheckAndElect (heap s) (cluster s)).2 = None /\
  roleAt (ElectMaster (heap s) (cluster s)).1 0%nat = Some RoleSlave /\
  roleAt (CheckAndElect (heap s) (cluster s)).1.2 0%nat = Some RoleSlave.
Proof.
  intros s. split.
  { change (reachable (step (step init (OpNewNode EmptyString RoleSlave))
                               (OpAddNode 0%nat))).
    do 2 apply reachable_step. apply reachable_init. }
  split; [by vm_compute|]. split; [by vm_compute|]. split.
  { split.
    - exists 0%nat. split; vm_compute; reflexivity.
    - intros b _. apply empty_le. }
  split_and!; by vm_compute.
Qed.

End election_outcome.

(** ** The leader invariant *)

Section leader_invariant.
Import Protocol Cluster Spec.

Implicit Types (h : gmap loc Node.Node) (c : Cluster) (a b : string) (n m : loc).

Lemma reachable_foldl (s : State) (ops : list Op) :
  reachable s -> reachable (foldl step s ops).
Proof.
  revert s. induction ops as [|o ops IH]; intros s Hs; [done|].
  simpl. apply IH. by constructor.
Qed.

Lemma reachable_run (ops : list Op) : reachable (run ops).
Proof. apply reachable_foldl. constructor. Qed.

Lemma electMasterLocked_true h c :
  (electMasterLocked h c).1.1 = true -> lowestAliveAddrLocked h c <> EmptyString.
Proof.
  unfold electMasterLocked, Strs.eqb. case_bool_decide; [done|]. by intros _.
Qed.

Lemma electMasterLocked_true_one_master h c :
  (electMasterLocked h c).1.1 = true ->
  one_master (electMasterLocked h c).1.2 (electMasterLocked h c).2.
Proof.
  intros Hne%electMasterLocked_true.
  by eapply electMasterLocked_one_master; [apply lowestAliveAddrLocked_alive|].
Qed.

(** C4, as stated, fails.  The state [two_masters] is reached with the
    listed operations from followers only, and two nodes of the table carry
    the MASTER role: an election that finds nobody alive clears the pointer
    but leaves the old master's role, and SetMaster then demotes nobody.
    And in [three_nodes], before any election has run, nodes are alive and
    none is the leader. *)
Lemma leader_invariant_counterexample :
  (reachable Scenario.two_masters /\ ~ leader_invariant Scenario.two_masters) /\
  (reachable Scenario.three_nodes /\ ~ leader_invariant Scenario.three_nodes).
Proof.
  split; (split; [apply reachable_run|]).
  - intros [Hone _].
    specialize (Hone "a:1" "b:2" 0%nat 1%nat).
    discriminate Hone; vm_compute; reflexivity.
  - intros (_ & _ & Halive).
    destruct Halive as (n & a & Hm & _).
    + exists "a:1", 1%nat. split; vm_compute; reflexivity.
    + vm_compute in Hm. discriminate Hm.
Qed.

(** C4 (amended).  Right after an election that elects -- ElectMaster in a
    state whose smallest live address is not the empty string, or a
    CheckAndElect that returns true -- exactly one node of the table
    carries the MASTER role, and the master pointer references that node,
    which is in the table. *)
Theorem election_establishes_one_master h c :
  (forall a, lowest_alive h c a -> a <> EmptyString ->
     one_master (ElectMaster h c).1 (ElectMaster h c).2) /\
  ((CheckAndElect h c).1.1 = true ->
     one_master (CheckAndElect h c).1.2 (CheckAndElect h c).2).
Proof.
  split.
  - intros a Hlow Hne.
    replace (ElectMaster h c)
      with ((electMasterLocked h c).1.2, (electMasterLocked h c).2)
      by (unfold ElectMaster; by destruct (electMasterLocked h c) as [[??]?]).
    by eapply electMasterLocked_one_master.
  - unfold CheckAndElect.
    destruct (master c) as [m|] eqn:Hm; [destruct (aliveAt h m) eqn:Hal|]; simpl.
    + destruct (Strs.eqb (lowestAliveAddrLocked h c) EmptyString); [by rewrite Hm|].
      rewrite Hm. simpl.
      destruct (negb (Strs.eqb (addrAt h m) (lowestAliveAddrLocked h c))); [|done].
      apply electMasterLocked_true_one_master.
    + destruct (Strs.eqb (lowestAliveAddrLocked h c) EmptyString); [done|]. simpl.
      apply electMasterLocked_true_one_master.
    + destruct (Strs.eqb (lowestAliveAddrLocked h c) EmptyString); [by rewrite Hm|].
      rewrite Hm. simpl. apply electMasterLocked_true_one_master.
Qed.

(** The theorem at scenario 1. *)
Lemma election_establishes_one_master_witness :
  let s := Scenario.three_nodes in
  one_master (ElectMaster (heap s) (cluster s)).1 (ElectMaster (heap s) (cluster s)).2 /\
  one_master (CheckAndElect (heap s) (cluster s)).1.2 (CheckAndElect (heap s) (cluster s)).2.
Proof.
  intros s. split.
  - apply (proj1 (election_establishes_one_master (heap s) (cluster s)) "a:1"); [|done].
    apply lowest_alive_check; vm_compute; reflexivity.
  - apply (proj2 (election_establishes_one_master (heap s) (cluster s))).
    vm_compute; reflexivity.
Defined.

End leader_invariant.

(** ** The participant store *)

Section participant_store.
Import Protocol.

Implicit Types (n : Node.Node) (log : list DbCall) (txID : string)
  (p : Participant.Participant).

Lemma setTx_id n : Node.setTx (Node.TxState n) (Node.pendingTx n) (Node.pendingData n) n = n.
Proof. by destruct n. Qed.

Lemma mkParticipant_eta p :
  Participant.mkParticipant (Participant.node p) (Participant.transactions p) = p.
Proof. by destruct p. Qed.

(** When only the node knows the id (it was prepared without the
    wrapper), the participant layer still answers ABORT, with the node's
    message. *)
Lemma duplicate_prepare_node_only (J : Node.Json) txID (payload : Node.Payload) p log :
  Participant.transactions p !! txID = None ->
  is_Some (Node.pendingData (Participant.node p) !! txID) ->
  Participant.Prepare J txID payload p log =
    (PrepareResponse.mk StatusAbort "transaction already in progress", p, log).
Proof.
  intros Hp [v Hv]. unfold Participant.Prepare, Node.Prepare. rewrite Hp, Hv. simpl.
  by rewrite mkParticipant_eta.
Qed.

(** C5, as stated, fails for the participant layer when the id is pending
    on the node but was not prepared through the wrapper: a participant
    made over a node on which ["tx-1"] is pending answers ABORT with the
    node's own text, which starts with a lower-case letter, and not with
    "Transaction already in progress". *)
Lemma duplicate_prepare_counterexample :
  let p := Participant.NewParticipant Scenario.simPending in
  let r := Participant.Prepare Scenario.plainJson "tx-1"
             (Node.PayloadAction Scenario.insertAlice) p [] in
  is_Some (Node.pendingData (Participant.node p) !! "tx-1") /\
  r.1.1 = PrepareResponse.mk StatusAbort "transaction already in progress" /\
  PrepareResponse.Error r.1.1 <> "Transaction already in progress".
Proof. split; [by vm_compute; eauto|]. split; by vm_compute. Qed.

(** C5 (amended).  A Prepare with an id that is already pending is
    rejected, and nothing changes: Node.Prepare returns (false,
    "transaction already in progress") and leaves the node -- its pending
    entry and open database transaction included -- and the database
    untouched; the participant layer answers status ABORT and changes
    neither its table, its node nor the database, with the error
    "Transaction already in progress" when the id is in its own table, and
    with the node's "transaction already in progress" when the id is
    pending on the node only. *)
Theorem duplicate_prepare_rejected (J : Node.Json) txID (payload : Node.Payload) :
  (forall n log, is_Some (Node.pendingData n !! txID) ->
     Node.Prepare J txID payload n log =
       ((false, Some "transaction already in progress"), n, log)) /\
  (forall p log, is_Some (Participant.transactions p !! txID) ->
     Participant.Prepare J txID payload p log =
       (PrepareResponse.mk StatusAbort "Transaction already in progress", p, log)) /\
  (forall p log, is_Some (Node.pendingData (Participant.node p) !! txID) ->
     Participant.Prepare J txID payload p log =
       (PrepareResponse.mk StatusAbort
          (if Participant.transactions p !! txID is Some _
           then "Transaction already in progress"
           else "transaction already in progress"), p, log)).
Proof.
  split; [|split].
  - intros n log [v Hv]. unfold Node.Prepare. by rewrite Hv.
  - intros p log [v Hv]. unfold Participant.Prepare. by rewrite Hv.
  - intros p log Hn. destruct (Participant.transactions p !! txID) as [v|] eqn:Hv.
    + unfold Participant.Prepare. by rewrite Hv.
    + by apply duplicate_prepare_node_only.
Qed.

(** The theorem on a node with a database on which ["tx-1"] is pending,
    on a participant made over a node on which it is pending, and on a
    participant that has prepared it itself: the second Prepare changes
    nothing, and the two participants answer with the two texts. *)
Lemma duplicate_prepare_rejected_witness :
  let payload := Node.PayloadAction Scenario.insertAlice in
  let p := Participant.NewParticipant Scenario.simPending in
  let q := (Participant.Prepare Scenario.plainJson "tx-1" payload
              (Participant.NewParticipant Scenario.simNode) []).1.2 in
  Node.Prepare Scenario.plainJson "tx-1" payload
    Scenario.dbPending.1 Scenario.dbPending.2 =
  ((false, Some "transaction already in progress"),
   Scenario.dbPending.1, Scenario.dbPending.2) /\
  Participant.Prepare Scenario.plainJson "tx-1" payload p [] =
  (PrepareResponse.mk StatusAbort "transaction already in progress", p, []) /\
  Participant.Prepare Scenario.plainJson "tx-1" payload q [] =
  (PrepareResponse.mk StatusAbort "Transaction already in progress", q, []).
Proof.
  intros payload p q.
  destruct (duplicate_prepare_rejected Scenario.plainJson "tx-1" payload)
    as (Hnode & _ & Hpart).
  split; [|split].
  - apply Hnode. vm_compute. eauto.
  - apply (Hpart p []). vm_compute. eauto.
  - apply (Hpart q []). vm_compute. eauto.
Defined.

(** *** Abort of an unknown id *)

(** What Abort and Commit do when no open transaction is held for the
    id. *)
Lemma Abort_no_handle txID n log :
  Node.pendingTx n !! txID = None ->
  Node.Abort txID n log =
    match Node.db n with
    | Some d =>
        match dbExec d log Node.sqlSetAborted [SStr txID] with
        | Some err => (Some err, n, log ++ [DbExec Node.sqlSetAborted [SStr txID]])
        | None => (None, Node.finish StateAbort txID (Node.pendingTx n) n,
                   log ++ [DbExec Node.sqlSetAborted [SStr txID]])
        end
    | None => (None, Node.finish StateAbort txID (Node.pendingTx n) n, log)
    end.
Proof. intros H. unfold Node.Abort. by rewrite H. Qed.

Lemma Commit_no_handle txID n log :
  Node.pendingTx n !! txID = None ->
  Node.Commit txID n log =
    match Node.db n with
    | Some d =>
        match dbExec d log Node.sqlSetCommitted [SStr txID] with
        | Some err => (Some err, n, log ++ [DbExec Node.sqlSetCommitted [SStr txID]])
        | None => (None, Node.finish StateCommit txID (Node.pendingTx n) n,
                   log ++ [DbExec Node.sqlSetCommitted [SStr txID]])
        end
    | None => (None, Node.finish StateCommit txID (Node.pendingTx n) n, log)
    end.
Proof. intros H. unfold Node.Commit. by rewrite H. Qed.

Lemma finish_absent st txID n :
  Node.pendingData n !! txID = None ->
  Node.finish st txID (Node.pendingTx n) n =
  Node.setTx st (Node.pendingTx n) (Node.pendingData n) n.
Proof. intros H. unfold Node.finish. by rewrite delete_id. Qed.

(** C10, as stated, fails on a node with a database that refuses the
    status update: Abort of an id that was never prepared returns the
    database's error. *)
Lemma abort_unknown_counterexample :
  Node.pendingTx Scenario.downNode !! "tx-404" = None /\
  Node.pendingData Scenario.downNode !! "tx-404" = None /\
  (Node.Abort "tx-404" Scenario.downNode []).1.1 = Some "connection refused".
Proof. repeat split. Qed.

(** C10 (amended).  Aborting an id that was never prepared, or whose
    pending entry has been cleared, succeeds -- on a node with a database,
    provided the status update it issues on the audit table succeeds:
    Node.Abort returns nil, sets the state to ABORT and leaves both pending
    maps as they were; Participant.Abort returns Success=true and changes
    nothing. *)
Theorem abort_unknown_succeeds txID :
  (forall n log,
     Node.pendingTx n !! txID = None -> Node.pendingData n !! txID = None ->
     (forall d, Node.db n = Some d ->
                dbExec d log Node.sqlSetAborted [SStr txID] = None) ->
     exists log',
       Node.Abort txID n log =
         (None, Node.setTx StateAbort (Node.pendingTx n) (Node.pendingData n) n, log') /\
       log' = match Node.db n with
              | Some _ => log ++ [DbExec Node.sqlSetAborted [SStr txID]]
              | None => log
              end) /\
  (forall p log,
     Participant.transactions p !! txID = None ->
     Participant.Abort txID p log = (AbortResponse.mk true EmptyString, p, log)).
Proof.
  split.
  - intros n log Htx Hdata Hdb. rewrite Abort_no_handle, finish_absent by done.
    destruct (Node.db n) as [d|]; [|by eauto].
    rewrite (Hdb d eq_refl). by eauto.
  - intros p log Hp. unfold Participant.Abort. by rewrite Hp.
Qed.

(** The theorem on a fresh node with a database that answers. *)
Lemma abort_unknown_succeeds_witness :
  (Node.Abort "tx-404" Scenario.dbNode []).1.1 = None /\
  Node.pendingData (Node.Abort "tx-404" Scenario.dbNode []).1.2 =
    Node.pendingData Scenario.dbNode.
Proof.
  destruct (proj1 (abort_unknown_succeeds "tx-404") Scenario.dbNode [])
    as (log' & -> & _); [reflexivity..| |split; reflexivity].
  intros d Hd. injection Hd as <-. reflexivity.
Defined.

(** *** Repeating Commit and Abort *)

Lemma Commit_done txID n log n1 log1 :
  Node.Commit txID n log = (None, n1, log1) ->
  n1 = Node.finish StateCommit txID (delete txID (Node.pendingTx n)) n.
Proof.
  unfold Node.Commit. destruct (Node.pendingTx n !! txID) as [tx|] eqn:Htx.
  - destruct (Node.execIn tx log Node.sqlSetCommitted [SStr txID]) as [r1 l1].
    destruct (Node.unswallowed (Node.execError r1)); [congruence|].
    destruct (Node.unswallowed _); congruence.
  - rewrite delete_id by done.
    destruct (Node.db n) as [d|]; [|congruence].
    destruct (dbExec d log _ _); congruence.
Qed.

Lemma Abort_done txID n log n1 log1 :
  Node.Abort txID n log = (None, n1, log1) ->
  n1 = Node.finish StateAbort txID (delete txID (Node.pendingTx n)) n.
Proof.
  unfold Node.Abort. destruct (Node.pendingTx n !! txID) as [tx|] eqn:Htx.
  - destruct (Node.unswallowed _); congruence.
  - rewrite delete_id by done.
    destruct (Node.db n) as [d|]; [|congruence].
    destruct (dbExec d log _ _); congruence.
Qed.

Lemma finish_finish st txID ptx n :
  let n1 := Node.finish st txID (delete txID ptx) n in
  Node.pendingTx n1 !! txID = None /\
  Node.finish st txID (Node.pendingTx n1) n1 = n1.
Proof.
  simpl. split; [apply lookup_delete_eq|].
  unfold Node.finish, Node.setTx. simpl. f_equal.
  apply delete_id, lookup_delete_eq.
Qed.

(** C6, as stated, fails.  Through the participant wrapper a second
    Commit of a committed id answers Success=false, "Transaction not
    found"; and on a node whose database refuses the replayed status
    update, the second Node.Commit returns that error. *)
Lemma repeated_commit_counterexample :
  let p0 := Participant.NewParticipant Scenario.simNode in
  let r1 := Participant.Prepare Scenario.plainJson "tx-1"
              (Node.PayloadAction Scenario.insertAlice) p0 [] in
  let r2 := Participant.Commit "tx-1" r1.1.2 r1.2 in
  let r3 := Participant.Commit "tx-1" r2.1.2 r2.2 in
  let n1 := Node.Prepare Scenario.plainJson "tx-1"
              (Node.PayloadAction Scenario.insertAlice) Scenario.flakyNode [] in
  let n2 := Node.Commit "tx-1" n1.1.2 n1.2 in
  let n3 := Node.Commit "tx-1" n2.1.2 n2.2 in
  (CommitResponse.Success r2.1.1 = true /\
  CommitResponse.Success r3.1.1 = false /\
  CommitResponse.Error r3.1.1 = "Transaction not found") /\
  (n1.1.1 = (true, None) /\ n2.1.1 = None /\ n3.1.1 = Some "connection refused").
Proof. vm_compute. repeat split. Qed.

(** C6 (amended).  On the node store, once Commit (respectively Abort)
    with an id has returned nil, repeating it returns nil again and leaves
    the node as it is, provided -- on a node with a database -- the status
    update that the repeat issues on the audit table succeeds; that update
    is the only database call of the repeat.  Through the participant
    wrapper a repeated Abort answers Success=true without reaching the
    node, and a repeated Commit answers Success=false, "Transaction not
    found", also without reaching the node. *)
Theorem commit_abort_repeat txID :
  (forall n log n1 log1,
     Node.Commit txID n log = (None, n1, log1) ->
     (forall d, Node.db n1 = Some d ->
                dbExec d log1 Node.sqlSetCommitted [SStr txID] = None) ->
     Node.Commit txID n1 log1 =
       (None, n1, match Node.db n1 with
                  | Some _ => log1 ++ [DbExec Node.sqlSetCommitted [SStr txID]]
                  | None => log1
                  end)) /\
  (forall n log n1 log1,
     Node.Abort txID n log = (None, n1, log1) ->
     (forall d, Node.db n1 = Some d ->
                dbExec d log1 Node.sqlSetAborted [SStr txID] = None) ->
     Node.Abort txID n1 log1 =
       (None, n1, match Node.db n1 with
                  | Some _ => log1 ++ [DbExec Node.sqlSetAborted [SStr txID]]
                  | None => log1
                  end)) /\
  (forall p log r p1 log1,
     Participant.Abort txID p log = (r, p1, log1) ->
     AbortResponse.Success r = true ->
     Participant.Abort txID p1 log1 = (AbortResponse.mk true EmptyString, p1, log1)) /\
  (forall p log r p1 log1,
     Participant.Commit txID p log = (r, p1, log1) ->
     CommitResponse.Success r = true ->
     Participant.Commit txID p1 log1 =
       (CommitResponse.mk false "Transaction not found", p1, log1)).
Proof.
  split; [|split; [|split]].
  - intros n log n1 log1 ->%Commit_done Hdb.
    destruct (finish_finish StateCommit txID (Node.pendingTx n) n) as [Hno Hfix].
    rewrite Commit_no_handle by done.
    destruct (Node.db _) as [d|] eqn:Hd; [|by rewrite Hfix].
    rewrite (Hdb d) by done. by rewrite Hfix.
  - intros n log n1 log1 ->%Abort_done Hdb.
    destruct (finish_finish StateAbort txID (Node.pendingTx n) n) as [Hno Hfix].
    rewrite Abort_no_handle by done.
    destruct (Node.db _) as [d|] eqn:Hd; [|by rewrite Hfix].
    rewrite (Hdb d) by done. by rewrite Hfix.
  - intros p log r p1 log1 Hab Hok.
    assert (Participant.transactions p1 !! txID = None) as Hgone.
    { unfold Participant.Abort in Hab.
      destruct (Participant.transactions p !! txID) eqn:Hp; [|congruence].
      destruct (Node.Abort txID (Participant.node p) log) as [[[err|] n1] l1];
        simplify_eq/=. apply lookup_delete_eq. }
    unfold Participant.Abort. by rewrite Hgone.
  - intros p log r p1 log1 Hco Hok.
    assert (Participant.transactions p1 !! txID = None) as Hgone.
    { unfold Participant.Commit in Hco.
      destruct (Participant.transactions p !! txID) eqn:Hp; [|by simplify_eq/=].
      case_bool_decide; [by simplify_eq/=|].
      destruct (Node.Commit txID (Participant.node p) log) as [[[err|] n1] l1];
        simplify_eq/=. apply lookup_delete_eq. }
    unfold Participant.Commit. by rewrite Hgone.
Qed.

(** The theorem on the node with a database on which ["tx-1"] is
    pending: the second Commit returns nil and issues the status update
    only. *)
Lemma commit_abort_repeat_witness :
  let r1 := Node.Commit "tx-1" Scenario.dbPending.1 Scenario.dbPending.2 in
  Node.Commit "tx-1" r1.1.2 r1.2 =
    (None, r1.1.2, r1.2 ++ [DbExec Node.sqlSetCommitted [SStr "tx-1"]]).
Proof.
  intros r1.
  pose proof (proj1 (commit_abort_repeat "tx-1")
                Scenario.dbPending.1 Scenario.dbPending.2 r1.1.2 r1.2) as H.
  rewrite H; [reflexivity|reflexivity|].
  intros d Hd. vm_compute in Hd. injection Hd as <-. reflexivity.
Defined.

End participant_store.

(** ** Validation before database work *)

Section validation.
Import Protocol Spec.

Implicit Types (n : Node.Node) (log : list DbCall) (txID : string).

Lemma parse_update_without_where (J : Node.Json) (payload : Node.Payload) :
  update_without_where J payload ->
  exists err, Node.parseSQLAction J payload = inl err /\
    (err = "table is required" \/ err = "values are required" \/
     err = "where is required for UPDATE").
Proof.
  intros (a & Hdec & Hop & Hwhere). unfold Node.parseSQLAction.
  rewrite Hdec, Hop. simpl. unfold Node.validateSQLAction. simpl.
  destruct (Strs.eqb (Node.TrimSpace J (Node.Table a)) EmptyString); [by eauto|].
  case_bool_decide; [by eauto 6|].
  rewrite bool_decide_eq_true_2 by done. by eauto 6.
Qed.

Lemma ensureSchemaLocked_calls (d : DB) log :
  exists calls, (Node.ensureSchemaLocked d log).2 = log ++ calls /\
    Forall (fun call => executes call = false) calls.
Proof.
  unfold Node.ensureSchemaLocked, Node.tableExistsCall.
  destruct (tableExists d log Node.distTx) as [err|[|]].
  - exists [QueryTableExists Node.distTx]. split; [done|]. by repeat constructor.
  - exists [QueryTableExists Node.distTx]. split; [done|]. by repeat constructor.
  - destruct (execDDL d _) as [err|].
    + exists [QueryTableExists Node.distTx; ExecDDL; QueryTableExists Node.distTx].
      split; [|by repeat constructor].
      destruct (tableExists d _ Node.distTx) as [?|[|]]; simpl;
        by rewrite <- !app_assoc.
    + exists [QueryTableExists Node.distTx; ExecDDL].
      split; [|by repeat constructor]. simpl. by rewrite <- !app_assoc.
Qed.

Lemma ensureSchema_calls n log :
  exists calls,
    (Node.ensureSchema n log).2 = log ++ calls /\
    Forall (fun call => executes call = false) calls /\
    Node.pendingTx (Node.ensureSchema n log).1.2 = Node.pendingTx n /\
    Node.pendingData (Node.ensureSchema n log).1.2 = Node.pendingData n /\
    Node.TxState (Node.ensureSchema n log).1.2 = Node.TxState n /\
    (Node.schemaOnce n = true -> is_Some (Node.db n) ->
     Node.ensureSchema n log = (Node.schemaErr n, n, log)).
Proof.
  unfold Node.ensureSchema. destruct (Node.db n) as [d|].
  - destruct (Node.schemaOnce n).
    + exists []. rewrite app_nil_r. by repeat split.
    + destruct (ensureSchemaLocked_calls d log) as (calls & Hc & Hall).
      exists calls. destruct (Node.ensureSchemaLocked d log) as [e l1].
      simpl in *. by repeat split.
  - exists []. rewrite app_nil_r. repeat split; try done.
Qed.

(** C7, as stated, fails on both kinds of node.  A node without a
    database never parses the payload and accepts the update; a node with
    a database begins a transaction before it parses, and rolls it back. *)
Lemma update_without_where_counterexample :
  let payload := Node.PayloadAction Scenario.updateNoWhere in
  update_without_where Scenario.plainJson payload /\
  (Node.Prepare Scenario.plainJson "tx-2" payload Scenario.simNode []).1.1 = (true, None) /\
  (Node.Prepare Scenario.plainJson "tx-2" payload Scenario.dbNode []).2 =
    [QueryTableExists "distributed_tx"; BeginTx; TxRollback 1].
Proof.
  split; [|split; vm_compute; reflexivity].
  exists Scenario.updateNoWhere. repeat split.
Qed.

(** C7 (amended).  On a node with a database, Prepare rejects every UPDATE
    payload whose [where] is absent or empty with an error, and records
    nothing: the pending maps and the state stay as they are, no statement
    is executed and no audit row is written.  An UPDATE payload is one
    whose operation the library's TrimSpace and ToUpper turn into UPDATE,
    whatever these two functions do.  The database does see calls:
    the one-time schema check and a transaction that is begun and rolled
    back; when the schema has been ensured and the id is not pending, the
    calls are exactly BeginTx and the Rollback.  (A node without a database
    does not parse the payload at all.) *)
Theorem update_without_where_rejected (J : Node.Json) txID (payload : Node.Payload)
    n log (d : DB) :
  Node.db n = Some d ->
  update_without_where J payload ->
  exists err n1 calls,
    Node.Prepare J txID payload n log = ((false, Some err), n1, log ++ calls) /\
    Node.pendingTx n1 = Node.pendingTx n /\
    Node.pendingData n1 = Node.pendingData n /\
    Node.TxState n1 = Node.TxState n /\
    Forall (fun call => executes call = false) calls /\
    (Node.pendingData n !! txID = None ->
     Node.schemaOnce n = true -> Node.schemaErr n = None ->
     forall tx, beginTx d log = inr tx ->
       n1 = n /\ calls = [BeginTx; TxRollback tx]).
Proof.
  intros Hdb Hupd. unfold Node.Prepare.
  destruct (Node.pendingData n !! txID) eqn:Hpending.
  { exists "transaction already in progress", n, []. rewrite app_nil_r.
    by split_and!. }
  rewrite Hdb.
  destruct (ensureSchema_calls n log) as (sc & Hlog & Hsc & Hptx & Hpd & Hst & Honce').
  assert (Node.schemaOnce n = true -> Node.schemaErr n = None ->
          Node.ensureSchema n log = (None, n, log)) as Honce.
  { intros Ho He. rewrite <- He. apply Honce'; [done|by rewrite Hdb]. }
  destruct (Node.ensureSchema n log) as [[serr n1] log1] eqn:Hens. simpl in *. subst log1.
  destruct serr as [err|].
  { exists err, n1, sc. split_and!; try done.
    intros _ Ho He. specialize (Honce Ho He). congruence. }
  assert (Node.schemaOnce n = true -> Node.schemaErr n = None -> n1 = n /\ sc = [])
    as Hsame.
  { intros Ho He. specialize (Honce Ho He). split; [congruence|].
    apply (app_inv_head log). rewrite app_nil_r. congruence. }
  destruct (beginTx d (log ++ sc)) as [err|tx] eqn:Hbegin.
  { exists err, n1, (sc ++ [BeginTx]). rewrite app_assoc. split_and!; try done.
    - apply Forall_app. split; [done|]. by repeat constructor.
    - intros _ Ho He tx Htx. destruct (Hsame Ho He) as [-> ->].
      rewrite app_nil_r in Hbegin. congruence. }
  destruct (parse_update_without_where J payload Hupd) as (err & -> & _).
  exists err, n1, (sc ++ [BeginTx; TxRollback tx]).
  unfold Node.rollback. simpl. rewrite <- !app_assoc. split_and!; try done.
  - apply Forall_app. split; [done|]. by repeat constructor.
  - intros _ Ho He tx' Htx. destruct (Hsame Ho He) as [-> ->].
    rewrite app_nil_r in Hbegin. split; [done|]. simpl. congruence.
Qed.

(** The theorem on a node whose schema has been ensured by an earlier
    Prepare. *)
Lemma update_without_where_rejected_witness :
  let n := Scenario.dbPending.1 in
  let log := Scenario.dbPending.2 in
  exists err,
    Node.Prepare Scenario.plainJson "tx-2" (Node.PayloadAction Scenario.updateNoWhere) n log =
      ((false, Some err), n, log ++ [BeginTx; TxRollback 4]).
Proof.
  intros n log.
  destruct (update_without_where_rejected Scenario.plainJson "tx-2"
              (Node.PayloadAction Scenario.updateNoWhere) n log Scenario.goodDB)
    as (err & n1 & calls & Hprep & _ & _ & _ & _ & Hexact).
  - reflexivity.
  - exists Scenario.updateNoWhere. repeat split.
  - destruct (Hexact eq_refl eq_refl eq_refl 4%nat eq_refl) as [-> ->].
    by exists err.
Defined.

End validation.

(** ** Statement construction *)

Section statements.
Import Spec.

Implicit Types (m : gmap string Scalar) (cols : list string) (i : nat).

Lemma allChars_Forall (p : ascii -> bool) (id : string) :
  Node.allChars p id = true <-> Forall (fun ch => p ch = true) (list_ascii_of_string id).
Proof.
  induction id as [|ch id IH]; simpl.
  - split; [by constructor|done].
  - rewrite andb_true_iff, Forall_cons, IH. done.
Qed.

Lemma identChar_identifierChar (ch : ascii) :
  Node.identChar ch = true <-> identifierChar ch.
Proof.
  unfold Node.identChar, identifierChar, Strs.is_digit, Strs.is_lower, Strs.is_upper.
  cbv zeta. rewrite !orb_true_iff, !andb_true_iff, !bool_decide_eq_true, !Nat.leb_le.
  assert (forall k : nat, ch = ascii_of_nat k -> (k < 256)%nat -> nat_of_ascii ch = k) as Hto
    by (intros k -> Hk; by apply nat_ascii_embedding).
  assert (forall k : nat, nat_of_ascii ch = k -> ch = ascii_of_nat k) as Hfrom
    by (intros k <-; by rewrite ascii_nat_embedding).
  split.
  - intros [[[[H|H]|H]|H]|H]; [left|right; left|by auto..].
    + apply (Hto 95%nat); [done|lia].
    + apply (Hto 45%nat); [done|lia].
  - intros [H|[H|H]].
    + do 4 left. by apply (Hfrom 95%nat).
    + do 3 left. right. by apply (Hfrom 45%nat).
    + tauto.
Qed.

(** The check of [safeIdent] accepts the identifiers of the
    specification, and no others. *)
Lemma identifier_valid (id : string) : identifier id <-> validIdent id.
Proof.
  unfold identifier, validIdent. rewrite allChars_Forall.
  split; intros [Hne Hall]; (split; [done|]);
    (eapply Forall_impl; [exact Hall|]); intros ch; apply identChar_identifierChar.
Qed.

Lemma safeIdent_valid (id : string) :
  validIdent id -> Node.safeIdent id = inr (Strs.ToLower id).
Proof.
  intros [Hne Hall]. unfold Node.safeIdent, Strs.eqb.
  by rewrite bool_decide_eq_false_2, Hall.
Qed.

Lemma safeIdent_inv (id ident : string) :
  Node.safeIdent id = inr ident -> validIdent id /\ ident = Strs.ToLower id.
Proof.
  unfold Node.safeIdent, Strs.eqb. case_bool_decide; [done|].
  destruct (Node.allChars Node.identChar id) eqn:Hall; [|done].
  intros [= <-]. by repeat split.
Qed.

(** Writing slot [i] of a slice extends its filled prefix by one. *)
Lemma take_S_insert {A} (l : list A) i (x : A) :
  (i < length l)%nat -> take (S i) (<[i := x]> l) = take i l ++ [x].
Proof.
  intros Hi. rewrite (take_S_r _ _ x) by (by apply list_lookup_insert_eq).
  by rewrite take_insert_ge.
Qed.

Lemma insertLoop_spec m cols : forall i (colIdents : list string)
    (args : list Scalar) (placeholders : list string),
  Forall validIdent cols ->
  length colIdents = (i + length cols)%nat ->
  length args = (i + length cols)%nat ->
  length placeholders = (i + length cols)%nat ->
  Node.insertLoop m cols i colIdents args placeholders =
    inr (take i colIdents ++ (column <$> cols),
         take i args ++ (boundValue m <$> cols),
         take i placeholders ++ (positional <$> seq (i + 1) (length cols))).
Proof.
  induction cols as [|c rest IH]; intros i colIdents args phs Hvalid Hc Ha Hp;
    simpl in Hc, Ha, Hp; cbn [Node.insertLoop].
  - rewrite !app_nil_r, !take_ge by lia. done.
  - apply Forall_cons in Hvalid as [Hv Hrest].
    rewrite (safeIdent_valid c Hv).
    rewrite IH by (rewrite ?length_insert; first [done|lia]).
    rewrite !take_S_insert by lia.
    rewrite <- !app_assoc. simpl.
    by replace (S i + 1)%nat with (S (i + 1)) by lia.
Qed.

Lemma updateLoop_spec m cols : forall i (parts : list string) (args : list Scalar) idx,
  Forall validIdent cols ->
  length parts = (i + length cols)%nat ->
  Node.updateLoop m cols i parts args idx =
    inr (take i parts ++ clauses idx cols,
         args ++ (boundValue m <$> cols),
         (idx + length cols)%nat).
Proof.
  induction cols as [|c rest IH]; intros i parts args idx Hvalid Hp;
    simpl in Hp; cbn [Node.updateLoop].
  - simpl. rewrite !app_nil_r, take_ge by lia. by rewrite Nat.add_0_r.
  - apply Forall_cons in Hvalid as [Hv Hrest].
    rewrite (safeIdent_valid c Hv).
    rewrite IH by (rewrite ?length_insert; first [done|lia]).
    rewrite take_S_insert by lia.
    rewrite <- !app_assoc. simpl.
    by replace (S (idx + length rest))%nat with (idx + S (length rest))%nat by lia.
Qed.

Lemma sortedKeys_ascending m : Node.sortedKeys m = ascendingKeys m.
Proof. reflexivity. Qed.

Lemma elem_of_keysOf m (c : string) : c ∈ keysOf m <-> is_Some (m !! c).
Proof.
  unfold keysOf. rewrite list_elem_of_fmap. split.
  - intros [[c' v] [-> Hin%elem_of_map_to_list]]. by eauto.
  - intros [v Hv]. exists (c, v). split; [done|]. by apply elem_of_map_to_list.
Qed.

Lemma elem_of_ascendingKeys m (c : string) : c ∈ ascendingKeys m <-> is_Some (m !! c).
Proof. unfold ascendingKeys. by rewrite SortStrings_perm, elem_of_keysOf. Qed.

Lemma ascendingKeys_valid m :
  (forall c, is_Some (m !! c) -> validIdent c) -> Forall validIdent (ascendingKeys m).
Proof. intros H. apply Forall_forall. intros c Hc%elem_of_ascendingKeys. auto. Qed.

Lemma length_ascendingKeys m : length (ascendingKeys m) = size m.
Proof.
  unfold ascendingKeys. rewrite SortStrings_perm. unfold keysOf.
  by rewrite length_fmap, length_map_to_list.
Qed.

Lemma insertLoop_inv m cols : forall i (colIdents : list string)
    (args : list Scalar) (placeholders : list string) r,
  Node.insertLoop m cols i colIdents args placeholders = inr r ->
  Forall validIdent cols.
Proof.
  induction cols as [|c rest IH]; intros i colIdents args phs r; simpl; [done|].
  destruct (Node.safeIdent c) as [err|ident] eqn:Hc; [done|].
  intros Hr. constructor; [by apply safeIdent_inv in Hc as [? _]|by eapply IH].
Qed.

Lemma updateLoop_inv m cols : forall i (parts : list string) (args : list Scalar) idx r,
  Node.updateLoop m cols i parts args idx = inr r -> Forall validIdent cols.
Proof.
  induction cols as [|c rest IH]; intros i parts args idx r; simpl; [done|].
  destruct (Node.safeIdent c) as [err|ident] eqn:Hc; [done|].
  intros Hr. constructor; [by apply safeIdent_inv in Hc as [? _]|by eapply IH].
Qed.

Lemma valid_keys m :
  Forall validIdent (ascendingKeys m) -> forall c, is_Some (m !! c) -> validIdent c.
Proof.
  intros Hall c Hc%elem_of_ascendingKeys. by eapply Forall_forall in Hall.
Qed.

(** C9.  For every valid payload the statement is the one the
    specification describes, whatever order the maps are ranged over.
    An INSERT lists the validated, lower-cased, double-quoted columns in
    ascending order of the keys of [values], with the placeholders $1..$n
    (a dollar sign and the 1-based position in decimal) and the arguments
    in the same order; an UPDATE has its SET clauses from the sorted keys
    of [values], then its WHERE clauses from the sorted keys of [where]
    joined by AND, and binds all values positionally in that order.  A
    statement is built only from valid identifiers: non-empty texts of
    ASCII letters, digits, underscores and hyphens.  The sorted keys are
    sorted, are exactly the keys of the map, and do not depend on the
    iteration order; each argument is the value the map holds at its
    column. *)
Theorem statement_construction (a : Node.SQLAction) :
  (Node.Operation a = "INSERT" ->
   (identifier (Node.Table a) ->
    (forall c, is_Some (Node.Values a !! c) -> identifier c) ->
    Node.buildStatement a = inr (insertStatement a)) /\
   (forall r, Node.buildStatement a = inr r ->
    identifier (Node.Table a) /\
    (forall c, is_Some (Node.Values a !! c) -> identifier c))) /\
  (Node.Operation a = "UPDATE" ->
   (identifier (Node.Table a) ->
    (forall c, is_Some (Node.Values a !! c) -> identifier c) ->
    (forall c, is_Some (Node.Where a !! c) -> identifier c) ->
    Node.Where a <> ∅ ->
    Node.buildStatement a = inr (updateStatement a)) /\
   (forall r, Node.buildStatement a = inr r ->
    identifier (Node.Table a) /\
    (forall c, is_Some (Node.Values a !! c) -> identifier c) /\
    (forall c, is_Some (Node.Where a !! c) -> identifier c) /\
    Node.Where a <> ∅)) /\
  (forall m,
     StronglySorted String.le (Node.sortedKeys m) /\
     NoDup (Node.sortedKeys m) /\
     (forall c, c ∈ Node.sortedKeys m <-> is_Some (m !! c)) /\
     (forall iteration, iteration ≡ₚ keysOf m ->
        Node.sortedKeysOf iteration = Node.sortedKeys m) /\
     Forall2 (fun c v => m !! c = Some v) (Node.sortedKeys m)
             (Node.valueAt m <$> Node.sortedKeys m)).
Proof.
  assert (forall m : gmap string Scalar,
            (forall c, is_Some (m !! c) -> identifier c) ->
            forall c, is_Some (m !! c) -> validIdent c) as Hto
    by (intros m H c Hc; by apply identifier_valid, H).
  assert (forall m : gmap string Scalar,
            (forall c, is_Some (m !! c) -> validIdent c) ->
            forall c, is_Some (m !! c) -> identifier c) as Hfrom
    by (intros m H c Hc; by apply identifier_valid, H).
  split; [|split].
  - intros Hop. split.
    + intros Htable%identifier_valid Hvalues. pose proof (Hto _ Hvalues) as Hvalues'.
      unfold Node.buildStatement.
      rewrite (safeIdent_valid _ Htable), Hop. simpl.
      rewrite sortedKeys_ascending.
      rewrite insertLoop_spec
        by (rewrite ?length_replicate; first [by apply ascendingKeys_valid|done]).
      done.
    + intros r. unfold Node.buildStatement.
      destruct (Node.safeIdent (Node.Table a)) as [err|table] eqn:Htable; [done|].
      apply safeIdent_inv in Htable as [Htable _].
      rewrite Hop. simpl. rewrite sortedKeys_ascending.
      destruct (Node.insertLoop _ _ _ _ _ _) as [err|r'] eqn:Hloop; [done|].
      intros _. split; [by apply identifier_valid|].
      apply Hfrom. by eapply valid_keys, insertLoop_inv.
  - intros Hop. split.
    + intros Htable%identifier_valid Hvalues Hwvalid Hwhere.
      pose proof (Hto _ Hvalues) as Hvalues'. pose proof (Hto _ Hwvalid) as Hwvalid'.
      unfold Node.buildStatement.
      rewrite (safeIdent_valid _ Htable), Hop. simpl.
      rewrite !sortedKeys_ascending.
      rewrite bool_decide_eq_false_2.
      2: { rewrite length_ascendingKeys. by intros ?%map_size_empty_iff. }
      rewrite updateLoop_spec
        by (rewrite ?length_replicate; first [by apply ascendingKeys_valid|done]).
      rewrite updateLoop_spec
        by (rewrite ?length_replicate; first [by apply ascendingKeys_valid|done]).
      done.
    + intros r. unfold Node.buildStatement.
      destruct (Node.safeIdent (Node.Table a)) as [err|table] eqn:Htable; [done|].
      apply safeIdent_inv in Htable as [Htable _].
      rewrite Hop. simpl. rewrite !sortedKeys_ascending.
      case_bool_decide as Hlen; [done|].
      destruct (Node.updateLoop (Node.Values a) _ _ _ _ _) as [err|[[sp ar] ix]] eqn:Hset;
        [done|].
      destruct (Node.updateLoop (Node.Where a) _ _ _ _ _) as [err|r'] eqn:Hwh; [done|].
      intros _. split_and!;
        [by apply identifier_valid|apply Hfrom; by eapply valid_keys, updateLoop_inv..|].
      intros Hempty. apply Hlen. by rewrite length_ascendingKeys, Hempty.
  - intros m. rewrite sortedKeys_ascending. split_and!.
    + apply SortStrings_sorted.
    + unfold ascendingKeys. rewrite SortStrings_perm. unfold keysOf.
      apply NoDup_fst_map_to_list.
    + apply elem_of_ascendingKeys.
    + intros iteration Hperm. by apply SortStrings_unique.
    + apply Forall2_fmap_r, Forall_Forall2_diag, Forall_forall.
      intros c [v Hv]%elem_of_ascendingKeys. unfold Node.valueAt. simpl. by rewrite Hv.
Qed.

(** The keys of a concrete map are identifiers when the check of
    [safeIdent] passes on each of them. *)
Lemma identifier_keys (m : gmap string Scalar) :
  forallb (fun c => bool_decide (c <> EmptyString) &&
                    Node.allChars Node.identChar c) (keysOf m) = true ->
  forall c, is_Some (m !! c) -> identifier c.
Proof.
  intros Hall c Hc%elem_of_keysOf%list_elem_of_In.
  rewrite forallb_forall in Hall.
  apply Hall, andb_true_iff in Hc as [Hne Hch].
  apply identifier_valid. split; [|done]. by apply bool_decide_eq_true in Hne.
Qed.

(** The theorem on the insert of scenario 3 and on an update of one row:
    the statements are the texts below, with the keys in sorted order (the
    upper-case key first), the identifiers lower-cased and quoted, and the
    placeholders numbered from $1, first through the SET clauses and on
    through the WHERE clauses. *)
Lemma statement_construction_witness :
  let q := Strs.dq in
  let a := Node.mkSQLAction "Users" "UPDATE" (Node.Values Scenario.updateBob)
             (Node.Where Scenario.updateBob) in
  Node.buildStatement Scenario.insertAlice =
    inr ("INSERT INTO " +:+ q +:+ "users" +:+ q +:+
         " (" +:+ q +:+ "id" +:+ q +:+ "," +:+ q +:+ "name" +:+ q +:+
         ") VALUES ($1,$2)",
         [SNum 1; SStr "Alice"]) /\
  Node.buildStatement a =
    inr ("UPDATE " +:+ q +:+ "users" +:+ q +:+
         " SET " +:+ q +:+ "age" +:+ q +:+ "=$1," +:+ q +:+ "name" +:+ q +:+ "=$2" +:+
         " WHERE " +:+ q +:+ "active" +:+ q +:+ "=$3 AND " +:+ q +:+ "id" +:+ q +:+ "=$4",
         [SNum 42; SStr "Bob"; SBool true; SNum 1]).
Proof.
  intros q a. split.
  - rewrite (proj1 (proj1 (statement_construction Scenario.insertAlice) eq_refl)).
    + by vm_compute.
    + by apply identifier_valid.
    + by apply identifier_keys.
  - rewrite (proj1 (proj1 (proj2 (statement_construction a)) eq_refl)).
    + by vm_compute.
    + by apply identifier_valid.
    + by apply identifier_keys.
    + by apply identifier_keys.
    + intros Hempty. by apply (f_equal (fun m : gmap string Scalar => m !! "id")) in Hempty.
Defined.

End statements.

(** ** The coordinator *)

Section coordinator.
Import Protocol Cluster Coordinator Spec.

Implicit Types (J : Node.Json) (co : Coordinator) (cl : HTTPClient) (txID : string)
  (payload : Node.Payload) (w : World) (ps : list loc) (tr : list Call)
  (h : gmap loc Node.Node).

(** *** The calls of a phase *)

Lemma preparePhase_trace cl txID payload h ps tr :
  (preparePhase cl txID payload h ps tr).2 =
  tr ++ ((fun p => RpcPrepare (addrAt h p) txID) <$> ps).
Proof.
  revert tr. induction ps as [|p ps IH]; intros tr; simpl; [by rewrite app_nil_r|].
  destruct (clientPrepare cl tr (addrAt h p) txID payload) as [resp err].
  specialize (IH (tr ++ [RpcPrepare (addrAt h p) txID])).
  destruct (preparePhase cl txID payload h ps _) as [results tr1].
  simpl in *. by rewrite IH, <- app_assoc.
Qed.

Lemma preparePhase_addrs cl txID payload h ps tr :
  prAddr <$> (preparePhase cl txID payload h ps tr).1 = addrAt h <$> ps.
Proof.
  revert tr. induction ps as [|p ps IH]; intros tr; simpl; [done|].
  destruct (clientPrepare cl tr (addrAt h p) txID payload) as [resp err].
  specialize (IH (tr ++ [RpcPrepare (addrAt h p) txID])).
  destruct (preparePhase cl txID payload h ps _) as [results tr1].
  simpl in *. by f_equal.
Qed.

Lemma commitPhase_trace cl txID (addrs : list string) tr :
  (commitPhase cl txID addrs tr).2 = tr ++ ((fun a => RpcCommit a txID) <$> addrs).
Proof.
  revert tr. induction addrs as [|a addrs IH]; intros tr; simpl; [by rewrite app_nil_r|].
  destruct (clientCommit cl tr a txID) as [resp err].
  specialize (IH (tr ++ [RpcCommit a txID])).
  destruct (commitPhase cl txID addrs _) as [results tr1].
  simpl in *. by rewrite IH, <- app_assoc.
Qed.

Lemma abortPhase_trace cl txID (addrs : list string) tr :
  (abortPhase cl txID addrs tr).2 = tr ++ ((fun a => RpcAbort a txID) <$> addrs).
Proof.
  revert tr. induction addrs as [|a addrs IH]; intros tr; simpl; [by rewrite app_nil_r|].
  destruct (clientAbort cl tr a txID) as [resp err].
  specialize (IH (tr ++ [RpcAbort a txID])).
  destruct (abortPhase cl txID addrs _) as [results tr1].
  simpl in *. by rewrite IH, <- app_assoc.
Qed.

(** A commit result is a success exactly when the call reported
    success. *)
Lemma commitPhase_success cl txID (addrs : list string) tr :
  forallb crSuccess (commitPhase cl txID addrs tr).1 = true <->
  Forall commit_reported_success (commitAnswers cl txID addrs tr).
Proof.
  revert tr. induction addrs as [|a addrs IH]; intros tr; simpl.
  - split; [constructor|done].
  - specialize (IH (tr ++ [RpcCommit a txID])).
    destruct (clientCommit cl tr a txID) as [resp err] eqn:Hans.
    destruct (commitPhase cl txID addrs _) as [results tr1]. simpl in *.
    rewrite andb_true_iff, Forall_cons, IH.
    apply and_iff_compat_r. unfold commit_reported_success. simpl.
    destruct err as [e|]; simpl.
    + split; [done|]. by intros [? _].
    + destruct resp as [r|]; simpl.
      * destruct (CommitResponse.Success r) eqn:Hs; simpl.
        -- split; [by eauto|done].
        -- split.
           ++ by destruct (negb (Strs.eqb (CommitResponse.Error r) EmptyString)).
           ++ intros [_ (r' & [= <-] & Hr')]. congruence.
      * split; [done|]. by intros [_ (r' & ? & _)].
Qed.

Lemma foldl_commitSuccess (b : bool) (results : list CommitResult) :
  foldl (fun acc result => if negb (crSuccess result) then false else acc) b results =
  b && forallb crSuccess results.
Proof.
  revert b. induction results as [|r results IH]; intros b; simpl.
  - by rewrite andb_true_r.
  - rewrite IH. by destruct (crSuccess r), b.
Qed.

(** The loop over the prepare results sorts the addresses into the
    prepared and the failed ones. *)
Lemma collect_spec (results : list PrepareResult) (o : prepareOutcome) :
  collect results o =
  mkPrepareOutcome (includeLocal o) (localPrepared o)
    (preparedRemotes o ++ (prAddr <$> filter (fun r => prSuccess r = true) results))
    (failedNodes o ++ (prAddr <$> filter (fun r => ~ prSuccess r = true) results)).
Proof.
  revert o. induction results as [|r results IH]; intros o; simpl.
  - rewrite !app_nil_r. by destruct o.
  - destruct (prSuccess r) eqn:Hr; rewrite IH; simpl.
    + rewrite filter_cons_True, filter_cons_False by (rewrite Hr; auto).
      by rewrite fmap_cons, <- app_assoc.
    + rewrite filter_cons_False, filter_cons_True by (rewrite Hr; auto).
      by rewrite fmap_cons, <- app_assoc.
Qed.

(** *** The local node during Prepare *)

Lemma ensureSchema_Addr (n : Node.Node) (log : list DbCall) :
  Node.Addr (Node.ensureSchema n log).1.2 = Node.Addr n.
Proof.
  unfold Node.ensureSchema. destruct (Node.db n) as [d|]; [|done].
  destruct (Node.schemaOnce n); [done|].
  by destruct (Node.ensureSchemaLocked d log).
Qed.

Lemma Prepare_Addr J txID payload (n : Node.Node) (log : list DbCall) :
  Node.Addr (Node.Prepare J txID payload n log).1.2 = Node.Addr n.
Proof.
  unfold Node.Prepare.
  destruct (Node.pendingData n !! txID); [done|].
  destruct (Node.db n) as [d|]; [|done].
  pose proof (ensureSchema_Addr n log) as Hs.
  destruct (Node.ensureSchema n log) as [[serr n1] log1]; simpl in *.
  repeat case_match; done.
Qed.

Lemma localPrepare_spec J txID payload (l : loc) w :
  (forall p, addrAt (heap (localPrepare J txID payload l w).2) p = addrAt (heap w) p) /\
  (exists pre, trace (localPrepare J txID payload l w).2 = trace w ++ pre /\
     (pre = [] \/ pre = [LocalPrepare txID]) /\
     ((localPrepare J txID payload l w).1.1 = true -> pre = [LocalPrepare txID])) /\
  ((localPrepare J txID payload l w).1.1 = true ->
   is_Some (heap (localPrepare J txID payload l w).2 !! l)).
Proof.
  unfold localPrepare. destruct (heap w !! l) as [n|] eqn:Hl.
  - pose proof (Prepare_Addr J txID payload n (dblog w)) as Haddr.
    destruct (Node.Prepare J txID payload n (dblog w)) as [[r n1] log1]. simpl in *.
    split_and!.
    + intros p. unfold addrAt. rewrite lookup_insert.
      case_decide; [subst; by rewrite Hl|done].
    + exists [LocalPrepare txID]. split_and!; [done|by right|done].
    + intros _. by rewrite lookup_insert_eq.
  - simpl. split_and!; [done| |done]. exists []. rewrite app_nil_r.
    split_and!; [done|by left|done].
Qed.

Lemma filter_all {A} (P : A -> Prop) `{!forall x, Decision (P x)} (l : list A) :
  filter (fun x => ~ P x) l = [] -> filter P l = l.
Proof.
  induction l as [|x l IH]; [done|].
  destruct (decide (P x)) as [Hx|Hx].
  - rewrite (filter_cons_True P) by done.
    rewrite (filter_cons_False (fun x => ~ P x)) by auto.
    intros Hn. f_equal. auto.
  - by rewrite (filter_cons_True (fun x => ~ P x)).
Qed.

(** What the prepare phase leaves behind: every remote participant was
    sent a Prepare and is either prepared or failed; the local node heads
    the failed list when its own Prepare failed. *)
Lemma prepareTransaction_spec J co txID payload ps w :
  let pt := prepareTransaction J co txID payload ps w in
  exists failedRemotes pre,
    (forall p, addrAt (heap pt.2) p = addrAt (heap w) p) /\
    includeLocal pt.1 = (if localNode co is Some _ then true else false) /\
    (localPrepared pt.1 = true ->
       exists l, localNode co = Some l /\ is_Some (heap pt.2 !! l)) /\
    failedNodes pt.1 =
      match localNode co with
      | Some l => if localPrepared pt.1 then []
                  else [addrAt (heap w) l +:+ " (local)"]
      | None => []
      end ++ failedRemotes /\
    preparedRemotes pt.1 ++ failedRemotes ≡ₚ addrAt (heap w) <$> ps /\
    (failedRemotes = [] -> preparedRemotes pt.1 = addrAt (heap w) <$> ps) /\
    trace pt.2 = trace w ++ pre ++ ((fun p => RpcPrepare (addrAt (heap w) p) txID) <$> ps) /\
    (pre = [] \/ pre = [LocalPrepare txID]) /\
    (localPrepared pt.1 = true -> pre = [LocalPrepare txID]) /\
    (localNode co = None -> pre = []).
Proof.
  unfold prepareTransaction.
  set (loc_part := match localNode co with
                   | Some l => _
                   | None => _ end).
  assert (exists pre,
    (forall p, addrAt (heap loc_part.2) p = addrAt (heap w) p) /\
    includeLocal loc_part.1 = (if localNode co is Some _ then true else false) /\
    (localPrepared loc_part.1 = true ->
       exists l, localNode co = Some l /\ is_Some (heap loc_part.2 !! l)) /\
    failedNodes loc_part.1 =
      match localNode co with
      | Some l => if localPrepared loc_part.1 then []
                  else [addrAt (heap w) l +:+ " (local)"]
      | None => []
      end /\
    preparedRemotes loc_part.1 = [] /\
    trace loc_part.2 = trace w ++ pre /\
    (pre = [] \/ pre = [LocalPrepare txID]) /\
    (localPrepared loc_part.1 = true -> pre = [LocalPrepare txID]) /\
    (localNode co = None -> pre = [])) as (pre & Haddr & Hincl & Hloc & Hfail & Hprep & Htr & Hpre & Hpre1 & Hpre0).
  { subst loc_part. destruct (localNode co) as [l|].
    - destruct (localPrepare_spec J txID payload l w) as (Haddr & (pre & Htr & Hpre & Hpre1) & Hsome).
      destruct (localPrepare J txID payload l w) as [[ready err] w1]. simpl in *.
      exists pre. destruct (ready && isNone err) eqn:Hok; simpl.
      + apply andb_true_iff in Hok as [-> _].
        split_and!; try done; eauto.
      + rewrite (Haddr l). split_and!; done.
    - exists []. simpl. rewrite app_nil_r. split_and!; try done. by left. }
  destruct loc_part as [o0 w1]. simpl in *.
  pose proof (preparePhase_trace (client co) txID payload (heap w1) ps (trace w1)) as Htrace.
  pose proof (preparePhase_addrs (client co) txID payload (heap w1) ps (trace w1)) as Haddrs.
  destruct (preparePhase (client co) txID payload (heap w1) ps (trace w1)) as [results tr1].
  simpl in *. rewrite collect_spec. simpl.
  assert (addrAt (heap w1) <$> ps = addrAt (heap w) <$> ps) as Hsame
    by (apply list_fmap_ext; intros; apply Haddr).
  exists (prAddr <$> filter (fun r => ~ prSuccess r = true) results), pre.
  rewrite Hprep, Hfail. simpl. split_and!; try done.
  - rewrite <- fmap_app, filter_app_complement, Haddrs. by rewrite Hsame.
  - intros Hnone%fmap_nil_inv. rewrite filter_all by done. by rewrite Haddrs.
  - rewrite Htrace, Htr, <- app_assoc. do 2 f_equal.
    apply list_fmap_ext. intros ? p _. by rewrite Haddr.
Qed.

(** *** No participants *)

(** C8, as stated, fails on the text of the error: with no live follower
    and no local node the response is Success=false with the error "No
    participants available", which is not "no participants". *)
Lemma no_participants_counterexample :
  let r := Execute Scenario.plainJson Scenario.lonely "tx-1"
             (Node.PayloadAction Scenario.insertAlice) (Scenario.world Scenario.master_alone) in
  localNode Scenario.lonely = None /\
  GetSlaveNodes (Cluster.heap Scenario.master_alone) (cluster Scenario.lonely) = [] /\
  TransactionResponse.Success r.1 = false /\
  TransactionResponse.Error r.1 = "No participants available" /\
  TransactionResponse.Error r.1 <> "no participants".
Proof. vm_compute. by split_and!. Qed.

(** C8 (amended).  When the number of participants is zero -- no live
    follower and no local node -- Execute returns Success=false with the
    error "No participants available", carrying the transaction id drawn
    for the invocation, and leaves the world as it is: no Prepare, Commit
    or Abort is issued to anyone and the database is not called. *)
Theorem no_participants J co txID payload w :
  localNode co = None ->
  GetSlaveNodes (heap w) (cluster co) = [] ->
  Execute J co txID payload w =
    (TransactionResponse.mk txID false EmptyString "No participants available", w).
Proof.
  intros Hlocal Hnone. unfold Execute, ExecuteOn. by rewrite Hnone, Hlocal.
Qed.

(** The theorem on the cluster of a live master alone. *)
Lemma no_participants_witness :
  Execute Scenario.plainJson Scenario.lonely "tx-1"
    (Node.PayloadAction Scenario.insertAlice) (Scenario.world Scenario.master_alone) =
  (TransactionResponse.mk "tx-1" false EmptyString "No participants available",
   Scenario.world Scenario.master_alone).
Proof. apply no_participants; vm_compute; reflexivity. Defined.

(** *** The commit phase *)

Lemma localCommit_trace txID (l : loc) w :
  is_Some (heap w !! l) ->
  trace (localCommit txID l w).2 = trace w ++ [LocalCommit txID].
Proof.
  intros [n Hn]. unfold localCommit. rewrite Hn.
  by destruct (Node.Commit txID n (dblog w)) as [[r n1] log1].
Qed.

Lemma localAbort_trace txID (l : loc) w :
  is_Some (heap w !! l) ->
  trace (localAbort txID l w).2 = trace w ++ [LocalAbort txID].
Proof.
  intros [n Hn]. unfold localAbort. rewrite Hn.
  by destruct (Node.Abort txID n (dblog w)) as [[r n1] log1].
Qed.

(** C1.  In every Execute in which every participant prepared
    successfully (the prepare phase ran and reported no failed node), the
    local node, if it takes part, and all remote participants are
    prepared, and the response has Success=true if and only if the local
    commit -- made when a local node takes part -- and every remote Commit
    call reported success; otherwise it is Success=false with the error
    "Some commits failed".  Either way the coordinator issues its Prepares,
    then its Commits, and no Abort.  (What a failing Commit does inside the
    local store, its own Rollback included, belongs to that call; the
    coordinator undoes nothing.) *)
Theorem commit_outcome J co txID payload ps w :
  let pt := prepareTransaction J co txID payload ps w in
  let lc := localCommitOutcome co txID pt.2 in
  let r := ExecuteOn J co txID payload ps w in
  totalParticipants co ps <> 0%nat ->
  failedNodes pt.1 = [] ->
  preparedRemotes pt.1 = addrAt (heap w) <$> ps /\
  (is_Some (localNode co) -> localPrepared pt.1 = true) /\
  (TransactionResponse.Success r.1 = true <->
   lc.1 = true /\
   Forall commit_reported_success
     (commitAnswers (client co) txID (preparedRemotes pt.1) (trace lc.2))) /\
  (TransactionResponse.Success r.1 = false ->
   TransactionResponse.Error r.1 = "Some commits failed") /\
  TransactionResponse.TransactionID r.1 = txID /\
  trace r.2 =
    trace w ++
    (if localNode co is Some _ then [LocalPrepare txID] else []) ++
    ((fun p => RpcPrepare (addrAt (heap w) p) txID) <$> ps) ++
    (if localNode co is Some _ then [LocalCommit txID] else []) ++
    ((fun p => RpcCommit (addrAt (heap w) p) txID) <$> ps) /\
  Forall (fun call => isAbort call = false) (drop (length (trace w)) (trace r.2)).
Proof.
  intros pt lc r Htotal Hfailed.
  destruct (prepareTransaction_spec J co txID payload ps w)
    as (failedRemotes & pre & Haddr & Hincl & Hloc & Hfail & Hperm & Hall & Htr &
        Hpre & Hpre1 & Hpre0).
  fold pt in Haddr, Hincl, Hloc, Hfail, Hperm, Hall, Htr, Hpre1.
  rewrite Hfailed in Hfail. symmetry in Hfail.
  apply app_eq_nil in Hfail as [Hlocalok ->].
  specialize (Hall eq_refl).
  assert (trace r.2 =
    trace w ++
    (if localNode co is Some _ then [LocalPrepare txID] else []) ++
    ((fun p => RpcPrepare (addrAt (heap w) p) txID) <$> ps) ++
    (if localNode co is Some _ then [LocalCommit txID] else []) ++
    ((fun p => RpcCommit (addrAt (heap w) p) txID) <$> ps) /\
    (TransactionResponse.Success r.1 = true <->
     lc.1 = true /\
     Forall commit_reported_success
       (commitAnswers (client co) txID (preparedRemotes pt.1) (trace lc.2))) /\
    (TransactionResponse.Success r.1 = false ->
     TransactionResponse.Error r.1 = "Some commits failed") /\
    TransactionResponse.TransactionID r.1 = txID) as (Htrace & Hiff & Herr & Hid).
  { subst r lc. unfold ExecuteOn, localCommitOutcome.
    fold (totalParticipants co ps). rewrite bool_decide_eq_false_2 by done.
    fold pt. destruct pt as [outcome w1] eqn:Hpt. simpl in *.
    rewrite Hfailed. simpl. unfold commitTransaction. rewrite Hincl.
    destruct (localNode co) as [l|] eqn:Hl.
    - destruct (localPrepared outcome) eqn:Hlp; [|done]. simpl.
      destruct (Hloc eq_refl) as (l' & [= <-] & Hsome).
      pose proof (localCommit_trace txID l w1 Hsome) as Hlc.
      destruct (localCommit txID l w1) as [err w1']. simpl in *.
      pose proof (commitPhase_trace (client co) txID (preparedRemotes outcome) (trace w1'))
        as Hct.
      pose proof (commitPhase_success (client co) txID (preparedRemotes outcome) (trace w1'))
        as Hcs.
      destruct (commitPhase (client co) txID (preparedRemotes outcome) (trace w1'))
        as [results tr1]. simpl in *.
      rewrite foldl_commitSuccess.
      assert (tr1 = trace w ++ [LocalPrepare txID] ++
                ((fun p => RpcPrepare (addrAt (heap w) p) txID) <$> ps) ++
                [LocalCommit txID] ++ ((fun p => RpcCommit (addrAt (heap w) p) txID) <$> ps))
        as Htr1.
      { rewrite Hct, Hlc, Htr, (Hpre1 eq_refl), Hall, <- list_fmap_compose.
        by rewrite <- !app_assoc. }
      destruct (isNone err && forallb crSuccess results) eqn:Hok; simpl.
      + split_and!; try done. split; [intros _|done].
        apply andb_true_iff in Hok as [? ?]. split; [done|by apply Hcs].
      + split_and!; try done. split; [done|].
        intros [Hn Hf%Hcs]. by rewrite Hn, Hf in Hok.
    - simpl.
      pose proof (commitPhase_trace (client co) txID (preparedRemotes outcome) (trace w1))
        as Hct.
      pose proof (commitPhase_success (client co) txID (preparedRemotes outcome) (trace w1))
        as Hcs.
      destruct (commitPhase (client co) txID (preparedRemotes outcome) (trace w1))
        as [results tr1]. simpl in *.
      rewrite foldl_commitSuccess. simpl.
      assert (tr1 = trace w ++
                ((fun p => RpcPrepare (addrAt (heap w) p) txID) <$> ps) ++
                ((fun p => RpcCommit (addrAt (heap w) p) txID) <$> ps)) as Htr1.
      { rewrite Hct, Htr, (Hpre0 eq_refl), Hall, <- list_fmap_compose.
        by rewrite <- !app_assoc. }
      destruct (forallb crSuccess results) eqn:Hok; simpl.
      + split_and!; try done. split; [intros _|done]. split; [done|by apply Hcs].
      + split_and!; try done. split; [done|].
        intros [_ Hf%Hcs]. by rewrite Hf in Hok. }
  split_and!; try done.
  - intros [l Hl]. rewrite Hl in Hlocalok. by destruct (localPrepared pt.1).
  - rewrite Htrace, drop_app_length.
    repeat (apply Forall_app; split); try (by destruct (localNode co); repeat constructor);
      by apply Forall_fmap, Forall_true.
Qed.

(** The theorem on scenario 1 when the commit sent to [b:2] fails. *)
Lemma commit_outcome_witness :
  let r := Execute Scenario.plainJson (Scenario.leader Scenario.commitFailClient) "tx-1"
             (Node.PayloadAction Scenario.insertAlice) (Scenario.world Scenario.elected) in
  TransactionResponse.Error r.1 = "Some commits failed" /\
  Forall (fun call => isAbort call = false) (trace r.2).
Proof.
  intros r.
  destruct (commit_outcome Scenario.plainJson (Scenario.leader Scenario.commitFailClient)
              "tx-1" (Node.PayloadAction Scenario.insertAlice)
              (GetSlaveNodes (Cluster.heap Scenario.elected)
                 (cluster (Scenario.leader Scenario.commitFailClient)))
              (Scenario.world Scenario.elected))
    as (_ & _ & _ & Herr & _ & _ & Hno).
  - vm_compute. lia.
  - vm_compute. reflexivity.
  - split; [apply Herr; vm_compute; reflexivity|exact Hno].
Defined.

(** *** The abort phase *)

(** C2, as stated, fails for the local participant.  The leader takes
    part with its own store, its in-process Prepare fails (the payload is
    nil), and the abort goes to the follower only: the local node received
    a Prepare and no Abort. *)
Lemma abort_all_counterexample :
  let r := Execute Scenario.plainJson Scenario.db_leader "tx-1" Node.PayloadNil
             Scenario.leader_with_db in
  TransactionResponse.Success r.1 = false /\
  TransactionResponse.Error r.1 = "Prepare failed for nodes: [a:1 (local)]" /\
  trace r.2 = [LocalPrepare "tx-1"; RpcPrepare "b:2" "tx-1"; RpcAbort "b:2" "tx-1"] /\
  LocalPrepare "tx-1" ∈ trace r.2 /\
  LocalAbort "tx-1" ∉ trace r.2.
Proof.
  vm_compute. split_and!; try reflexivity.
  - by left.
  - intros Hin. repeat (apply elem_of_cons in Hin as [Hin|Hin]; [discriminate Hin|]).
    by apply elem_of_nil in Hin.
Qed.

(** C2 (amended).  In every Execute in which at least one Prepare fails,
    an Abort is sent to every remote participant -- each of them was sent
    a Prepare request -- whether or not its Prepare returned ready; the
    local node, when it takes part, is aborted exactly when its own Prepare
    had succeeded; no Commit is issued.  The response is Success=false,
    carries the transaction id, and its error names the failed addresses:
    the local one (marked "(local)") first, then every remote participant
    that is not in the prepared set. *)
Theorem prepare_failure_aborts J co txID payload ps w :
  let pt := prepareTransaction J co txID payload ps w in
  let r := ExecuteOn J co txID payload ps w in
  failedNodes pt.1 <> [] ->
  TransactionResponse.Success r.1 = false /\
  TransactionResponse.TransactionID r.1 = txID /\
  TransactionResponse.Error r.1 =
    "Prepare failed for nodes: " +:+ sprintStrings (failedNodes pt.1) /\
  (exists failedRemotes,
     failedNodes pt.1 =
       match localNode co with
       | Some l => if localPrepared pt.1 then [] else [addrAt (heap w) l +:+ " (local)"]
       | None => []
       end ++ failedRemotes /\
     preparedRemotes pt.1 ++ failedRemotes ≡ₚ addrAt (heap w) <$> ps) /\
  trace r.2 =
    trace pt.2 ++
    (if localPrepared pt.1 then [LocalAbort txID] else []) ++
    ((fun p => RpcAbort (addrAt (heap w) p) txID) <$> ps) /\
  (forall p, p ∈ ps ->
     RpcPrepare (addrAt (heap w) p) txID ∈ trace r.2 /\
     RpcAbort (addrAt (heap w) p) txID ∈ trace r.2) /\
  Forall (fun call => isCommit call = false) (drop (length (trace w)) (trace r.2)).
Proof.
  intros pt r Hfailed.
  destruct (prepareTransaction_spec J co txID payload ps w)
    as (failedRemotes & pre & Haddr & Hincl & Hloc & Hfail & Hperm & Hall & Htr &
        Hpre & Hpre1 & Hpre0).
  fold pt in Haddr, Hincl, Hloc, Hfail, Hperm, Hall, Htr, Hpre1.
  assert (totalParticipants co ps <> 0%nat) as Htotal.
  { unfold totalParticipants. intros Hz.
    destruct (localNode co); [lia|]. destruct ps; [|simpl in Hz; lia].
    simpl in Hperm. apply Permutation_nil_r, app_eq_nil in Hperm as [_ ->].
    by rewrite Hfail in Hfailed. }
  assert (TransactionResponse.Success r.1 = false /\
          TransactionResponse.TransactionID r.1 = txID /\
          TransactionResponse.Error r.1 =
            "Prepare failed for nodes: " +:+ sprintStrings (failedNodes pt.1) /\
          trace r.2 =
            trace pt.2 ++
            (if localPrepared pt.1 then [LocalAbort txID] else []) ++
            ((fun p => RpcAbort (addrAt (heap w) p) txID) <$> ps))
    as (Hsucc & Hid & Herr & Htrace).
  { subst r. unfold ExecuteOn.
    fold (totalParticipants co ps). rewrite bool_decide_eq_false_2 by done.
    fold pt. destruct pt as [outcome w1] eqn:Hpt. simpl in *.
    rewrite bool_decide_eq_true_2 by (destruct (failedNodes outcome); [done|simpl; lia]).
    simpl. split_and!; try done.
    unfold abortTransaction. rewrite Hincl.
    destruct (localNode co) as [l|] eqn:Hl.
    - destruct (localPrepared outcome) eqn:Hlp; simpl.
      + destruct (Hloc eq_refl) as (l' & [= <-] & Hsome).
        pose proof (localAbort_trace txID l w1 Hsome) as Hla.
        destruct (localAbort txID l w1) as [err w1']. simpl in *.
        pose proof (abortPhase_trace (client co) txID (addrAt (heap w) <$> ps) (trace w1'))
          as Hat.
        destruct (abortPhase (client co) txID _ (trace w1')) as [results tr1]. simpl in *.
        by rewrite Hat, Hla, <- list_fmap_compose, <- app_assoc.
      + pose proof (abortPhase_trace (client co) txID (addrAt (heap w) <$> ps) (trace w1))
          as Hat.
        destruct (abortPhase (client co) txID _ (trace w1)) as [results tr1]. simpl in *.
        by rewrite Hat, <- list_fmap_compose.
    - assert (localPrepared outcome = false) as ->.
      { destruct (localPrepared outcome); [|done]. by destruct (Hloc eq_refl) as (? & ? & _). }
      simpl.
      pose proof (abortPhase_trace (client co) txID (addrAt (heap w) <$> ps) (trace w1))
        as Hat.
      destruct (abortPhase (client co) txID _ (trace w1)) as [results tr1]. simpl in *.
      by rewrite Hat, <- list_fmap_compose. }
  split_and!; try done.
  - by exists failedRemotes.
  - intros p Hp. rewrite Htrace, Htr. split.
    + rewrite !elem_of_app. left. right. right.
      apply list_elem_of_fmap. by exists p.
    + rewrite !elem_of_app. right. right.
      apply list_elem_of_fmap. by exists p.
  - rewrite Htrace, Htr, <- !app_assoc, drop_app_length.
    repeat (apply Forall_app; split).
    + destruct Hpre as [-> | ->]; by repeat constructor.
    + by apply Forall_fmap, Forall_true.
    + destruct (localPrepared pt.1); by repeat constructor.
    + by apply Forall_fmap, Forall_true.
Qed.

(** The theorem on scenario 4: the prepare sent to [c:3] times out; the
    error names [c:3] and every participant is aborted. *)
Lemma prepare_failure_aborts_witness :
  let r := Execute Scenario.plainJson (Scenario.leader Scenario.timeoutClient) "tx-1"
             (Node.PayloadAction Scenario.insertAlice) (Scenario.world Scenario.elected) in
  TransactionResponse.Success r.1 = false /\
  TransactionResponse.Error r.1 = "Prepare failed for nodes: [c:3]" /\
  RpcAbort "b:2" "tx-1" ∈ trace r.2 /\ RpcAbort "c:3" "tx-1" ∈ trace r.2.
Proof.
  intros r.
  destruct (prepare_failure_aborts Scenario.plainJson (Scenario.leader Scenario.timeoutClient)
              "tx-1" (Node.PayloadAction Scenario.insertAlice)
              (GetSlaveNodes (Cluster.heap Scenario.elected)
                 (cluster (Scenario.leader Scenario.timeoutClient)))
              (Scenario.world Scenario.elected))
    as (Hsucc & _ & Herr & _ & _ & Hall & _).
  - vm_compute. discriminate.
  - split_and!; [exact Hsucc|eapply eq_trans; [exact Herr|vm_compute; reflexivity]| |].
    + apply (Hall 0%nat). vm_compute. by right; left.
    + apply (Hall 2%nat). vm_compute. by left.
Defined.

End coordinator.

(** * Further properties of the membership table *)

Section membership.
Import Protocol Cluster Spec.

Implicit Types (h : gmap loc Node.Node) (c : Cluster) (a b : string) (n m : loc).

Lemma same_addrs_refl h : same_addrs h h.
Proof. intros n nd Hn. by eauto. Qed.

Lemma same_addrs_trans h1 h2 h3 :
  same_addrs h1 h2 -> same_addrs h2 h3 -> same_addrs h1 h3.
Proof.
  intros H12 H23 n nd Hn.
  destruct (H12 n nd Hn) as (nd' & Hn' & Ha).
  destruct (H23 n nd' Hn') as (nd'' & Hn'' & Ha').
  exists nd''. split; [done|congruence].
Qed.

Lemma same_addrs_alter (f : Node.Node -> Node.Node) n h :
  (forall nd, Node.Addr (f nd) = Node.Addr nd) -> same_addrs h (alter f n h).
Proof.
  intros Hf m nd Hm. rewrite lookup_alter. case_decide; subst.
  - rewrite Hm. simpl. by eauto.
  - by eauto.
Qed.

Lemma same_addrs_setRoleAt n role h : same_addrs h (setRoleAt n role h).
Proof. by apply same_addrs_alter. Qed.

Lemma same_addrs_setAliveAt n alive h : same_addrs h (setAliveAt n alive h).
Proof. by apply same_addrs_alter. Qed.

Lemma same_addrs_resetRoles h c : same_addrs h (resetRoles h c).
Proof.
  unfold resetRoles. generalize (GetNodes c). intros ls. revert h.
  induction ls as [|n ls IH]; intros h; simpl; [apply same_addrs_refl|].
  eapply same_addrs_trans; [apply (same_addrs_setRoleAt n RoleSlave)|apply IH].
Qed.

Lemma same_addrs_alloc (nd : Node.Node) h : same_addrs h (alloc nd h).2.
Proof.
  intros n nd' Hn. simpl. exists nd'. split; [|done].
  rewrite lookup_insert_ne; [done|].
  intros <-. apply (is_fresh (dom h)). by apply elem_of_dom.
Qed.

Lemma electMasterLocked_frame h c :
  same_addrs h (electMasterLocked h c).1.2 /\
  nodes (electMasterLocked h c).2 = nodes c.
Proof.
  unfold electMasterLocked.
  destruct (Strs.eqb _ _); simpl; [split; [apply same_addrs_refl|done]|].
  destruct (nodes c !! _); simpl; (split; [|done]).
  - eapply same_addrs_trans; [apply same_addrs_resetRoles|apply same_addrs_setRoleAt].
  - apply same_addrs_resetRoles.
Qed.

Lemma CheckAndElect_frame h c :
  same_addrs h (CheckAndElect h c).1.2 /\
  nodes (CheckAndElect h c).2 = nodes c.
Proof.
  unfold CheckAndElect.
  destruct (master c) as [m|] eqn:Hm; [destruct (aliveAt h m)|]; simpl.
  - destruct (Strs.eqb _ EmptyString); simpl.
    + rewrite Hm. simpl. split; [apply same_addrs_setRoleAt|done].
    + destruct (_ || _); [apply electMasterLocked_frame|].
      simpl. split; [apply same_addrs_refl|done].
  - destruct (Strs.eqb _ EmptyString); simpl.
    + split; [apply same_addrs_setRoleAt|done].
    + destruct (electMasterLocked_frame (setRoleAt m RoleSlave h)
                  (mkCluster (nodes c) None)) as [Hs Hn].
      split; [|done].
      eapply same_addrs_trans; [apply (same_addrs_setRoleAt m RoleSlave)|done].
  - destruct (Strs.eqb _ EmptyString); simpl.
    + rewrite Hm. simpl. split; [apply same_addrs_refl|done].
    + rewrite Hm. simpl. apply electMasterLocked_frame.
Qed.

Lemma keyed_by_address_frame h h' c c' :
  same_addrs h h' -> nodes c' = nodes c ->
  keyed_by_address h c -> keyed_by_address h' c'.
Proof.
  intros Hs Hn Hk a n Ha. rewrite Hn in Ha.
  destruct (Hk a n Ha) as (nd & Hnd & Haddr).
  destruct (Hs n nd Hnd) as (nd' & Hnd' & Haddr').
  exists nd'. split; [done|congruence].
Qed.

(** X1.  Whatever operations are run on the membership table, every node
    in it stays allocated and registered under its own address: no
    operation changes an address, and AddNode files a node under the
    address it carries. *)
Theorem table_keyed_by_address (s : State) :
  reachable s -> keyed_by_address (heap s) (cluster s).
Proof.
  induction 1 as [|s o Hs IH]; [intros a n Ha; simpl in Ha; by rewrite lookup_empty in Ha|].
  destruct o as [addr role|n|addr|n|n alive| | |]; simpl.
  - eapply keyed_by_address_frame; [apply same_addrs_alloc|done..].
  - unfold AddNode. destruct (heap s !! n) as [nd|] eqn:Hn; [|done].
    intros a m. simpl. rewrite lookup_insert. case_decide as Ha.
    + intros [= <-]. subst a. by eauto.
    + by apply IH.
  - unfold RemoveNode. destruct (nodes (cluster s) !! addr) eqn:Ha; [|done].
    intros a m. simpl. rewrite lookup_delete. case_decide; [done|]. by apply IH.
  - unfold SetMaster. simpl.
    eapply keyed_by_address_frame; [|done..].
    eapply same_addrs_trans.
    + instantiate (1 := match master (cluster s) with
                        | Some old => setRoleAt old RoleSlave (heap s)
                        | None => heap s end).
      destruct (master (cluster s)); [apply same_addrs_setRoleAt|apply same_addrs_refl].
    + destruct n; [apply same_addrs_setRoleAt|apply same_addrs_refl].
  - eapply keyed_by_address_frame; [apply same_addrs_setAliveAt|done..].
  - unfold ElectMaster.
    destruct (electMasterLocked_frame (heap s) (cluster s)) as [Hs' Hn].
    destruct (electMasterLocked (heap s) (cluster s)) as [[b h'] c']. simpl in *.
    by eapply keyed_by_address_frame.
  - unfold EvictMaster. destruct (master (cluster s)); simpl; [|done].
    eapply keyed_by_address_frame; [apply same_addrs_setRoleAt|done..].
  - destruct (CheckAndElect_frame (heap s) (cluster s)) as [Hs' Hn].
    destruct (CheckAndElect (heap s) (cluster s)) as [[b h'] c']. simpl in *.
    by eapply keyed_by_address_frame.
Qed.

(** The theorem on scenario 1 after an election. *)
Lemma table_keyed_by_address_witness :
  keyed_by_address (heap Scenario.elected) (cluster Scenario.elected).
Proof.
  apply table_keyed_by_address. apply reachable_step. apply reachable_run.
Defined.

Lemma keyed_by_address_list h c :
  Forall (fun an : string * loc =>
            exists nd, h !! an.2 = Some nd /\ Node.Addr nd = an.1)
         (map_to_list (nodes c)) ->
  keyed_by_address h c.
Proof.
  intros HF a n Hn. rewrite Forall_forall in HF.
  apply (HF (a, n)). by apply elem_of_map_to_list.
Qed.

Lemma aliveAt_resetRoles h c m : aliveAt (resetRoles h c) m = aliveAt h m.
Proof.
  unfold resetRoles. generalize (GetNodes c). intros ls. revert h.
  induction ls as [|n ls IH]; intros h; simpl; [done|].
  by rewrite IH, aliveAt_setRoleAt.
Qed.

Lemma addrAt_same_addrs h h' n :
  same_addrs h h' -> is_Some (h !! n) -> addrAt h' n = addrAt h n.
Proof.
  intros Hs [nd Hnd]. destruct (Hs n nd Hnd) as (nd' & Hnd' & Ha).
  unfold addrAt. by rewrite Hnd, Hnd'.
Qed.

(** The three ways CheckAndElect ends: nobody is alive; the current
    master is alive at the lowest alive address; or the selection step
    runs and elects the node at that address. *)
Lemma CheckAndElect_cases h c :
  (lowestAliveAddrLocked h c = EmptyString /\
   (CheckAndElect h c).1.1 = false /\
   master (CheckAndElect h c).2 = None /\
   nodes (CheckAndElect h c).2 = nodes c /\
   (forall m, aliveAt (CheckAndElect h c).1.2 m = aliveAt h m)) \/
  (lowestAliveAddrLocked h c <> EmptyString /\
   (exists m, master c = Some m /\ aliveAt h m = true /\
              addrAt h m = lowestAliveAddrLocked h c) /\
   CheckAndElect h c = (false, h, c)) \/
  (lowestAliveAddrLocked h c <> EmptyString /\
   ~ (exists m, master c = Some m /\ aliveAt h m = true /\
                addrAt h m = lowestAliveAddrLocked h c) /\
   exists n h1,
     nodes c !! lowestAliveAddrLocked h c = Some n /\
     aliveAt h n = true /\
     (forall m, aliveAt h1 m = aliveAt h m) /\ same_addrs h h1 /\
     CheckAndElect h c =
       (true, setRoleAt n RoleMaster (resetRoles h1 c), mkCluster (nodes c) (Some n))).
Proof.
  destruct (decide (lowestAliveAddrLocked h c = EmptyString)) as [HL|HL].
  { left. split; [done|]. unfold CheckAndElect. rewrite HL. simpl.
    destruct (master c) as [m|] eqn:Hm; [destruct (aliveAt h m) eqn:Hal|]; simpl.
    - rewrite Hm. simpl. split_and!; try done. intros ?. apply aliveAt_setRoleAt.
    - split_and!; try done. intros ?. apply aliveAt_setRoleAt.
    - rewrite Hm. simpl. by split_and!. }
  right.
  pose proof (lowestAliveAddrLocked_alive h c HL) as Hlow.
  pose proof Hlow as [[n [Hn Haln]] _].
  assert (forall h1, (forall m, aliveAt h1 m = aliveAt h m) ->
            electMasterLocked h1 (mkCluster (nodes c) None) =
              (true, setRoleAt n RoleMaster (resetRoles h1 (mkCluster (nodes c) None)),
               mkCluster (nodes c) (Some n))) as Helect0.
  { intros h1 Hal.
    assert (lowest_alive h1 (mkCluster (nodes c) None) (lowestAliveAddrLocked h c)) as Hlow'
      by (eapply lowest_alive_ext; [exact Hal|done|done]).
    destruct (electMasterLocked_elected _ _ _ Hlow' HL) as (n' & Hn' & ->).
    simpl in Hn'. by assert (n' = n) as -> by congruence. }
  assert (electMasterLocked h c =
            (true, setRoleAt n RoleMaster (resetRoles h c), mkCluster (nodes c) (Some n)))
    as Helect.
  { destruct (electMasterLocked_elected _ _ _ Hlow HL) as (n' & Hn' & ->).
    by assert (n' = n) as -> by congruence. }
  unfold CheckAndElect.
  destruct (master c) as [m|] eqn:Hm; [destruct (aliveAt h m) eqn:Hal|]; simpl;
    unfold Strs.eqb;
    rewrite ?(bool_decide_eq_false_2 (lowestAliveAddrLocked h c = EmptyString)) by done;
    simpl.
  - rewrite Hm. simpl. case_bool_decide as Haddr; simpl.
    + left. split; [done|]. split; [|done]. by exists m.
    + right. split; [done|]. split.
      * intros (m' & [= <-] & _ & ?). done.
      * exists n, h. rewrite Helect. split_and!; try done. apply same_addrs_refl.
  - right. split; [done|]. split.
    + intros (m' & [= <-] & ? & _). congruence.
    + exists n, (setRoleAt m RoleSlave h).
      rewrite Helect0 by (intros ?; apply aliveAt_setRoleAt).
      split_and!; try done.
      * intros ?. apply aliveAt_setRoleAt.
      * apply same_addrs_setRoleAt.
  - rewrite Hm. simpl. right. split; [done|]. split.
    + by intros (m' & ? & _).
    + exists n, h. rewrite Helect. split_and!; try done. apply same_addrs_refl.
Qed.

(** X2.  CheckAndElect settles at once: on a table whose nodes are
    registered under their own addresses, a second CheckAndElect right
    after the first returns false and changes nothing. *)
Theorem CheckAndElect_settles h c :
  keyed_by_address h c ->
  CheckAndElect (CheckAndElect h c).1.2 (CheckAndElect h c).2 =
    (false, (CheckAndElect h c).1.2, (CheckAndElect h c).2).
Proof.
  intros Hk.
  destruct (CheckAndElect_cases h c)
    as [(HL & _ & Hmaster & Hnodes & Hal)|[(HL & _ & Heq)|(HL & _ & n & h1 & Hn & Haln & Hal & Hs & ->)]].
  - destruct (CheckAndElect h c) as [[b h'] c']. simpl in *.
    unfold CheckAndElect.
    rewrite (lowestAliveAddrLocked_ext h h' c') by done.
    assert (lowestAliveAddrLocked h c' = lowestAliveAddrLocked h c) as ->.
    { rewrite !lowestAliveAddrLocked_unfold. unfold aliveAddrs. by rewrite Hnodes. }
    rewrite HL, Hmaster. simpl. by rewrite Hmaster.
  - rewrite Heq. simpl. exact Heq.
  - simpl.
    set (h' := setRoleAt n RoleMaster (resetRoles h1 c)).
    set (c' := mkCluster (nodes c) (Some n)).
    assert (forall m, aliveAt h' m = aliveAt h m) as Hal'.
    { intros m. unfold h'. by rewrite aliveAt_setRoleAt, aliveAt_resetRoles. }
    assert (lowestAliveAddrLocked h' c' = lowestAliveAddrLocked h c) as HL'.
    { rewrite (lowestAliveAddrLocked_ext h h' c') by done.
      by rewrite !lowestAliveAddrLocked_unfold. }
    assert (addrAt h' n = lowestAliveAddrLocked h c) as Haddr.
    { destruct (Hk _ _ Hn) as (nd & Hnd & Ha).
      rewrite (addrAt_same_addrs h h'); [unfold addrAt; by rewrite Hnd|..|by eauto].
      eapply same_addrs_trans; [exact Hs|].
      eapply same_addrs_trans; [apply same_addrs_resetRoles|apply same_addrs_setRoleAt]. }
    unfold CheckAndElect. rewrite HL'.
    unfold Strs.eqb at 1.
    rewrite (bool_decide_eq_false_2 (lowestAliveAddrLocked h c = EmptyString)) by done.
    simpl. rewrite Hal', Haln. simpl.
    unfold Strs.eqb. rewrite Haddr. by rewrite bool_decide_eq_true_2.
Qed.

(** The theorem on scenario 1. *)
Lemma CheckAndElect_settles_witness :
  let s := Scenario.three_nodes in
  let r := CheckAndElect (heap s) (cluster s) in
  r.1.1 = true /\ (CheckAndElect r.1.2 r.2).1.1 = false.
Proof.
  intros s r. split; [vm_compute; reflexivity|].
  unfold r. rewrite CheckAndElect_settles; [reflexivity|].
  apply keyed_by_address_list. vm_compute.
  repeat constructor; eexists; split; reflexivity.
Defined.

(** X3.  ShouldBeMaster answers true exactly for the smallest address
    among the live nodes of the table, and for no address when no node is
    alive; unlike the election it has no reserved address. *)
Theorem ShouldBeMaster_lowest_alive addr h c :
  ShouldBeMaster addr h c = true <-> lowest_alive h c addr.
Proof.
  unfold ShouldBeMaster. fold (aliveAddrs h c). unfold Strs.eqb. split.
  - case_bool_decide as Hlen; [done|]. intros Heq%bool_decide_eq_true. subst addr.
    destruct (aliveAddrs h c) as [|a l] eqn:E; [done|].
    assert (a ∈ aliveAddrs h c) as Ha by (rewrite E; by left).
    rewrite <- E. split.
    + apply elem_of_aliveAddrs. by apply (SortStrings_hd_min _ a).
    + intros b Hb%elem_of_aliveAddrs. by apply SortStrings_hd_min.
  - intros [Ha Hmin]. apply elem_of_aliveAddrs in Ha.
    destruct (SortStrings_hd_min _ _ Ha) as [Hin Hle].
    case_bool_decide as Hlen.
    + apply length_zero_iff_nil in Hlen. rewrite Hlen in Ha. by apply elem_of_nil in Ha.
    + apply bool_decide_eq_true. apply (anti_symm String.le); [done|].
      apply Hmin. by apply elem_of_aliveAddrs.
Qed.

(** X4.  The result of CheckAndElect, on a table whose nodes are
    registered under their own addresses: it is true exactly when the
    call leaves a master that was not the master before.  Clearing the
    pointer of a dead master with nobody to elect returns false. *)
Theorem CheckAndElect_result h c :
  keyed_by_address h c ->
  ((CheckAndElect h c).1.1 = true <->
   exists n, master (CheckAndElect h c).2 = Some n /\ master c <> Some n).
Proof.
  intros Hk.
  destruct (CheckAndElect_cases h c)
    as [(HL & Hf & Hmaster & _)|[(HL & _ & Heq)|(HL & Hno & n & h1 & Hn & Haln & _ & _ & Heq)]].
  - rewrite Hf, Hmaster. split; [done|]. by intros (n & ? & _).
  - rewrite Heq. simpl. split; [done|]. by intros (n & ? & ?).
  - rewrite Heq. simpl. split; [|done]. intros _. exists n. split; [done|].
    intros Hm. apply Hno. exists n. split_and!; try done.
    destruct (Hk _ _ Hn) as (nd & Hnd & Ha). unfold addrAt. by rewrite Hnd.
Qed.

(** The theorem on scenario 1: the first check elects, the master
    changes from none to the node at [a:1]. *)
Lemma CheckAndElect_result_witness :
  let s := Scenario.three_nodes in
  exists n, master (CheckAndElect (heap s) (cluster s)).2 = Some n /\
            master (cluster s) <> Some n.
Proof.
  intros s. apply CheckAndElect_result; [|vm_compute; reflexivity].
  apply keyed_by_address_list. vm_compute.
  repeat constructor; eexists; split; reflexivity.
Defined.

(** X5.  AddNode registers the node under its own address and nothing
    else: other addresses and the master pointer are as before, and the
    size grows by one exactly when the address was free.  A node added
    under an address already in use silently replaces the earlier one. *)
Theorem AddNode_GetNode n nd h c :
  h !! n = Some nd ->
  GetNode (Node.Addr nd) (AddNode n h c) = Some n /\
  (forall a, a <> Node.Addr nd -> GetNode a (AddNode n h c) = GetNode a c) /\
  GetMaster (AddNode n h c) = GetMaster c /\
  Size (AddNode n h c) =
    (if GetNode (Node.Addr nd) c is Some _ then Size c else S (Size c)).
Proof.
  intros Hn. unfold AddNode, GetNode, GetMaster, Size. rewrite Hn. simpl.
  split_and!.
  - by rewrite lookup_insert_eq.
  - intros a Ha. by rewrite lookup_insert_ne.
  - done.
  - destruct (nodes c !! Node.Addr nd) as [m|] eqn:Hm.
    + rewrite <- (insert_delete_id (nodes c) (Node.Addr nd) m) at 2 by done.
      rewrite <- (insert_delete_eq (nodes c)).
      rewrite !map_size_insert_None by apply lookup_delete_eq. done.
    + by rewrite map_size_insert_None.
Qed.

(** The theorem on the first node of scenario 1, added to an empty
    table. *)
Lemma AddNode_GetNode_witness :
  let s := Scenario.three_nodes in
  GetNode "b:2" (AddNode 0%nat (heap s) NewCluster) = Some 0%nat /\
  Size (AddNode 0%nat (heap s) NewCluster) = 1%nat.
Proof.
  intros s.
  destruct (AddNode_GetNode 0%nat (Node.NewNode "b:2" RoleSlave) (heap s) NewCluster)
    as (H1 & _ & _ & H4); [vm_compute; reflexivity|].
  split; [exact H1|exact H4].
Defined.

(** X6.  RemoveNode: the address is free afterwards, other addresses are
    as before, the master pointer is cleared exactly when it referenced
    the node registered under the address, and removing an address that
    is not registered changes nothing.  Removing a node right after
    adding it under a free address gives the table back, unless that
    node was the master. *)
Theorem RemoveNode_GetNode addr c :
  GetNode addr (RemoveNode addr c) = None /\
  (forall a, a <> addr -> GetNode a (RemoveNode addr c) = GetNode a c) /\
  GetMaster (RemoveNode addr c) =
    (if bool_decide (is_Some (GetNode addr c) /\ GetMaster c = GetNode addr c)
     then None else GetMaster c) /\
  (GetNode addr c = None -> RemoveNode addr c = c) /\
  (forall n nd h,
     h !! n = Some nd -> Node.Addr nd = addr ->
     GetNode addr c = None -> GetMaster c <> Some n ->
     RemoveNode addr (AddNode n h c) = c).
Proof.
  unfold GetNode, GetMaster. split_and!.
  - unfold RemoveNode. destruct (nodes c !! addr) eqn:Hn; simpl; [|done].
    apply lookup_delete_eq.
  - intros a Ha. unfold RemoveNode. destruct (nodes c !! addr) eqn:Hn; simpl; [|done].
    by rewrite lookup_delete_ne.
  - unfold RemoveNode. destruct (nodes c !! addr) as [n|] eqn:Hn; simpl.
    + case_bool_decide as Hm.
      * rewrite bool_decide_eq_true_2; [done|]. split; [by eauto|done].
      * rewrite bool_decide_eq_false_2; [done|]. by intros [_ ?].
    + done.
  - intros Hn. unfold RemoveNode. by rewrite Hn.
  - intros n nd h Hnd <- Hfree Hm. unfold AddNode, RemoveNode. rewrite Hnd. simpl.
    rewrite lookup_insert_eq. rewrite bool_decide_eq_false_2 by done.
    rewrite delete_insert_eq, delete_id by done. by destruct c.
Qed.

(** X7.  GetNodeAddresses lists every registered address once, in
    ascending order: as many entries as Size reports. *)
Theorem GetNodeAddresses_sorted c :
  StronglySorted String.le (GetNodeAddresses c) /\
  NoDup (GetNodeAddresses c) /\
  (forall a, a ∈ GetNodeAddresses c <-> is_Some (GetNode a c)) /\
  length (GetNodeAddresses c) = Size c.
Proof.
  unfold GetNodeAddresses, GetNode, Size. split_and!.
  - apply SortStrings_sorted.
  - rewrite SortStrings_perm. apply NoDup_fst_map_to_list.
  - intros a. rewrite SortStrings_perm, list_elem_of_fmap. split.
    + intros [[a' n] [-> Hin%elem_of_map_to_list]]. by eauto.
    + intros [n Hn]. exists (a, n). split; [done|]. by apply elem_of_map_to_list.
  - rewrite SortStrings_perm, length_fmap. apply length_map_to_list.
Qed.

(** X8.  After a removal followed by CheckAndElect, as the master's remove
    handler runs them, the removed node is not the master, whatever it
    was before. *)
Theorem removed_node_not_master addr n h c :
  keyed_by_address h c ->
  GetNode addr c = Some n ->
  master (CheckAndElect h (RemoveNode addr c)).2 <> Some n.
Proof.
  unfold GetNode. intros Hk Hn.
  assert (forall a, nodes (RemoveNode addr c) !! a <> Some n) as Hgone.
  { intros a Ha. unfold RemoveNode in Ha. rewrite Hn in Ha. simpl in Ha.
    destruct (decide (a = addr)) as [->|Hne].
    - by rewrite lookup_delete_eq in Ha.
    - rewrite lookup_delete_ne in Ha by done.
      destruct (Hk _ _ Ha) as (nd & Hnd & Haddr).
      destruct (Hk _ _ Hn) as (nd' & Hnd' & Haddr'). congruence. }
  assert (master (RemoveNode addr c) <> Some n) as Hm.
  { unfold RemoveNode. rewrite Hn. simpl. case_bool_decide; congruence. }
  destruct (CheckAndElect_cases h (RemoveNode addr c))
    as [(_ & _ & -> & _)|[(_ & _ & ->)|(_ & _ & n' & h1 & Hn' & _ & _ & _ & ->)]];
    simpl; [done|done|].
  intros [= ->]. by eapply Hgone.
Qed.

(** The theorem on scenario 1 after an election: removing the master
    [a:1] hands the role to [b:2]. *)
Lemma removed_node_not_master_witness :
  let s := Scenario.elected in
  master (cluster s) = Some 1%nat /\
  master (CheckAndElect (heap s) (RemoveNode "a:1" (cluster s))).2 <> Some 1%nat.
Proof.
  intros s. split; [vm_compute; reflexivity|].
  apply removed_node_not_master; [|vm_compute; reflexivity].
  apply keyed_by_address_list. vm_compute.
  repeat constructor; eexists; split; reflexivity.
Defined.

End membership.

(** * Followers and the heartbeat round *)

Section heartbeat.
Import Protocol Cluster Heartbeat Spec.

Implicit Types (h : gmap loc Node.Node) (c : Cluster) (a b : string) (n m : loc).
Implicit Types (hm : HeartbeatManager).

Lemma filter_ext_elem {A} (P Q : A -> Prop) `{!forall x, Decision (P x)}
    `{!forall x, Decision (Q x)} (l : list A) :
  (forall x, x ∈ l -> P x <-> Q x) -> filter P l = filter Q l.
Proof.
  induction l as [|x l IH]; intros Hext; [done|].
  assert (filter P l = filter Q l) as IH'.
  { apply IH. intros y Hy. apply Hext. by right. }
  destruct (decide (P x)) as [HP|HP].
  - rewrite filter_cons_True by done.
    rewrite (filter_cons_True Q) by (apply Hext; [by left|done]). by rewrite IH'.
  - rewrite filter_cons_False by done.
    rewrite (filter_cons_False Q); [done|]. intros HQ. apply HP, Hext; [by left|done].
Qed.

(** X9.  After an election that elects the node at the lowest alive
    address, the followers GetSlaveNodes reports are the live nodes of the
    table other than the new master, whatever the roles were before.  The
    two slices hold the same nodes, each as often as the table holds it;
    their orders are those of two rangings of the table, which need not
    agree: the same holds for any two orders in which the table is
    ranged. *)
Theorem followers_after_election h c a n :
  lowest_alive h c a -> a <> EmptyString -> nodes c !! a = Some n ->
  let h' := (ElectMaster h c).1 in
  GetSlaveNodes h' (ElectMaster h c).2 ≡ₚ filter (fun m => m <> n) (GetAliveNodes h c) /\
  forall ranged ranged' : list loc,
    ranged ≡ₚ GetNodes c -> ranged' ≡ₚ GetNodes c ->
    filter (fun m => aliveAt h' m = true /\ roleAt h' m = Some RoleSlave) ranged ≡ₚ
    filter (fun m => m <> n) (filter (fun m => aliveAt h m = true) ranged').
Proof.
  intros Hlow Ha Hn h'.
  assert (forall ranged ranged' : list loc,
            ranged ≡ₚ GetNodes c -> ranged' ≡ₚ GetNodes c ->
            filter (fun m => aliveAt h' m = true /\ roleAt h' m = Some RoleSlave) ranged ≡ₚ
            filter (fun m => m <> n) (filter (fun m => aliveAt h m = true) ranged'))
    as Hany.
  { intros ranged ranged' -> ->. unfold h', ElectMaster.
    destruct (electMasterLocked_elected _ _ _ Hlow Ha) as (n' & Hn' & ->).
    assert (n' = n) as -> by congruence. simpl.
    rewrite list_filter_filter.
    match goal with |- ?x ≡ₚ ?y => cut (x = y); [by intros ->|] end.
    apply filter_ext_elem.
    intros m Hm.
    assert (exists b, nodes c !! b = Some m) as Hreg.
    { apply list_elem_of_fmap in Hm as [[b m'] [-> Hin%elem_of_map_to_list]]. by eauto. }
    rewrite aliveAt_setRoleAt, aliveAt_resetRoles. split.
    - intros [Hal Hrole]. split; [|done]. intros ->.
      rewrite roleAt_elected in Hrole; [done|done|by apply aliveAt_is_Some].
    - intros [Hne Hal]. split; [done|].
      unfold roleAt, setRoleAt. rewrite lookup_alter_ne by done.
      fold (roleAt (resetRoles h c) m). rewrite roleAt_resetRoles by done.
      by destruct (aliveAt_is_Some _ _ Hal) as [nd ->]. }
  split; [|exact Hany].
  assert (nodes (ElectMaster h c).2 = nodes c) as Hnodes.
  { unfold ElectMaster.
    by destruct (electMasterLocked_elected _ _ _ Hlow Ha) as (n' & Hn' & ->). }
  unfold GetSlaveNodes, GetAliveNodes, GetNodes. rewrite Hnodes.
  by apply Hany.
Qed.

(** The theorem on scenario 1: [a:1] is elected, [b:2] and [c:3] are the
    followers, also when the table is ranged in reverse. *)
Lemma followers_after_election_witness :
  let s := Scenario.three_nodes in
  let h' := (ElectMaster (heap s) (cluster s)).1 in
  GetSlaveNodes h' (ElectMaster (heap s) (cluster s)).2 ≡ₚ
    filter (fun m => m <> 1%nat) (GetAliveNodes (heap s) (cluster s)) /\
  filter (fun m => aliveAt h' m = true /\ roleAt h' m = Some RoleSlave)
         (reverse (GetNodes (cluster s))) ≡ₚ
    filter (fun m => m <> 1%nat)
           (filter (fun m => aliveAt (heap s) m = true) (GetNodes (cluster s))).
Proof.
  intros s h'.
  destruct (followers_after_election (heap s) (cluster s) "a:1" 1%nat) as [Hfix Hany];
    [apply lowest_alive_check; vm_compute; reflexivity|done|vm_compute; reflexivity|].
  split; [exact Hfix|]. apply Hany; [apply reverse_Permutation|done].
Defined.

Lemma aliveAt_CheckAndElect h c m :
  aliveAt (CheckAndElect h c).1.2 m = aliveAt h m.
Proof.
  destruct (CheckAndElect_cases h c)
    as [(_ & _ & _ & _ & Hal)|[(_ & _ & ->)|(_ & _ & n & h1 & _ & _ & Hal & _ & ->)]];
    simpl; [done|done|].
  by rewrite aliveAt_setRoleAt, aliveAt_resetRoles.
Qed.

Lemma checkNode_registered hm a n h c :
  nodes c !! a = Some n ->
  checkNode hm a h c = setAliveAt n (bool_decide (HealthCheck hm a = None)) h.
Proof.
  intros Hn. unfold checkNode, GetNode. rewrite Hn.
  by destruct (HealthCheck hm a).
Qed.

Lemma elem_of_keys c a : is_Some (nodes c !! a) -> a ∈ (map_to_list (nodes c)).*1.
Proof.
  intros [n Hn]. apply list_elem_of_fmap. exists (a, n). split; [done|].
  by apply elem_of_map_to_list.
Qed.

Lemma keyed_by_address_three :
  keyed_by_address (heap Scenario.three_nodes) (cluster Scenario.three_nodes).
Proof.
  apply keyed_by_address_list. vm_compute.
  repeat constructor; eexists; split; reflexivity.
Defined.

(** The probes of a round: the nodes of [ls] have the liveness their
    probe reported, the others the one they had. *)
Lemma checks_spec hm c (ls : list loc) h :
  keyed_by_address h c ->
  (forall n, n ∈ ls -> exists a, nodes c !! a = Some n) ->
  let h' := foldl (fun acc n => checkNode hm (addrAt acc n) acc c) h ls in
  same_addrs h h' /\
  forall a n, nodes c !! a = Some n ->
    aliveAt h' n =
      if bool_decide (n ∈ ls) then bool_decide (HealthCheck hm a = None) else aliveAt h n.
Proof.
  intros Hk. induction ls as [|n0 ls IH] using rev_ind; intros Hreg h'.
  all: try rename n into n0.
  { split; [apply same_addrs_refl|]. intros a n Hn. simpl.
    done. }
  destruct IH as [Hs IH].
  { intros n Hn. apply Hreg, elem_of_app. by left. }
  unfold h'. rewrite foldl_app. simpl.
  set (h1 := foldl (fun acc n => checkNode hm (addrAt acc n) acc c) h ls) in *.
  destruct (Hreg n0) as [a0 Hn0]; [apply elem_of_app; right; by left|].
  pose proof (keyed_by_address_frame h h1 c c Hs eq_refl Hk) as Hk1.
  destruct (Hk1 _ _ Hn0) as (nd0 & Hnd0 & Ha0).
  assert (addrAt h1 n0 = a0) as -> by (unfold addrAt; by rewrite Hnd0).
  rewrite (checkNode_registered hm a0 n0) by done. split.
  { eapply same_addrs_trans; [exact Hs|apply same_addrs_setAliveAt]. }
  intros a n Hn. rewrite aliveAt_setAliveAt.
  destruct (decide (n0 = n)) as [->|Hne].
  - rewrite Hnd0. rewrite (bool_decide_eq_true_2 (_ ∈ _)) by (apply elem_of_app; right; by left).
    destruct (Hk1 _ _ Hn) as (nd & Hnd & Ha). by assert (a0 = a) as -> by congruence.
  - rewrite (IH a n Hn).
    rewrite (bool_decide_ext (n ∈ ls ++ [n0]) (n ∈ ls)); [done|].
    rewrite elem_of_app, list_elem_of_singleton. intuition congruence.
Qed.

(** X10.  One round of the heartbeat on a table whose nodes are registered
    under their own addresses: the table keeps its entries; every node of
    it has the liveness its probe reported; the master is then a live
    node at the smallest address that answered, if that address is not
    empty; and if the table is not empty and nothing answered, there is
    no master.  On an empty table the round does nothing, also when the
    master pointer is set. *)
Theorem heartbeat_round hm h c :
  keyed_by_address h c ->
  let r := checkAllNodes hm h c in
  nodes r.2 = nodes c /\
  (forall a n, nodes c !! a = Some n ->
     aliveAt r.1 n = bool_decide (HealthCheck hm a = None)) /\
  (forall a, lowest_healthy hm c a -> a <> EmptyString ->
     exists n, master r.2 = Some n /\ addrAt r.1 n = a /\ aliveAt r.1 n = true) /\
  (nodes c <> ∅ ->
   (forall a, is_Some (nodes c !! a) -> HealthCheck hm a <> None) ->
   master r.2 = None) /\
  (nodes c = ∅ -> r = (h, c)).
Proof.
  intros Hk r. unfold r, checkAllNodes.
  case_bool_decide as Hlen.
  { assert (nodes c = ∅) as Hempty.
    { apply map_to_list_empty_iff. unfold GetNodes in Hlen.
      rewrite length_fmap in Hlen. by apply length_zero_iff_nil. }
    simpl. split_and!; try done.
    - intros a n Hn. rewrite Hempty in Hn. by rewrite lookup_empty in Hn.
    - intros a [[[n Hn] _] _]. rewrite Hempty in Hn. by rewrite lookup_empty in Hn. }
  set (h1 := foldl (fun acc n => checkNode hm (addrAt acc n) acc c) h (GetNodes c)).
  destruct (checks_spec hm c (GetNodes c) h Hk) as [Hs Hal].
  { intros n Hn. by apply elem_of_GetNodes. }
  fold h1 in Hs, Hal.
  assert (forall a n, nodes c !! a = Some n ->
            aliveAt h1 n = bool_decide (HealthCheck hm a = None)) as Hal1.
  { intros a n Hn. rewrite (Hal a n Hn). rewrite bool_decide_eq_true_2; [done|].
    apply elem_of_GetNodes. by eauto. }
  pose proof (keyed_by_address_frame h h1 c c Hs eq_refl Hk) as Hk1.
  assert (forall a, alive_addr h1 c a <->
                    is_Some (nodes c !! a) /\ HealthCheck hm a = None) as Halive.
  { intros a. unfold alive_addr. split.
    - intros (n & Hn & Ha). rewrite (Hal1 a n Hn) in Ha.
      apply bool_decide_eq_true in Ha. by eauto.
    - intros [[n Hn] Ha]. exists n. split; [done|].
      rewrite (Hal1 a n Hn). by apply bool_decide_eq_true. }
  pose proof (aliveAt_CheckAndElect h1 c) as HalCE.
  destruct (CheckAndElect_frame h1 c) as [HsCE HnCE].
  pose proof (fun a => CheckAndElect_master h1 c a) as Hmaster.
  pose proof (CheckAndElect_nobody h1 c) as Hnobody.
  destruct (CheckAndElect h1 c) as [[b h2] c2]. simpl in *.
  split_and!.
  - done.
  - intros a n Hn. by rewrite HalCE, (Hal1 a n Hn).
  - intros a [Hin Hmin] Ha.
    destruct (Hmaster a) as (n & Hm & Hcase); [|done|].
    { split; [by apply Halive|]. intros b' [? ?]%Halive. by apply Hmin. }
    exists n. split; [done|].
    assert (addrAt h1 n = a /\ aliveAt h1 n = true) as [Haddr Haln].
    { destruct Hcase as [Hn|(_ & ? & ?)]; [|done].
      destruct (Hk1 _ _ Hn) as (nd & Hnd & Hnda).
      split; [unfold addrAt; by rewrite Hnd|].
      rewrite (Hal1 a n Hn). apply bool_decide_eq_true. by apply Hin. }
    rewrite HalCE. split; [|done].
    rewrite <- Haddr. apply addrAt_same_addrs; [done|by apply aliveAt_is_Some].
  - intros _ Hnone. apply Hnobody. intros a [Hin Ha]%Halive. by apply (Hnone a).
  - intros Hempty. exfalso. apply Hlen. unfold GetNodes. by rewrite Hempty.
Qed.

(** The theorem on scenario 1 when [a:1] does not answer: [b:2] becomes
    the master and [a:1] is marked dead. *)
Lemma heartbeat_round_witness :
  let s := Scenario.three_nodes in
  let r := checkAllNodes Scenario.a_down (heap s) (cluster s) in
  aliveAt r.1 1%nat = false /\
  exists n, master r.2 = Some n /\ addrAt r.1 n = "b:2" /\ aliveAt r.1 n = true.
Proof.
  intros s r.
  destruct (heartbeat_round Scenario.a_down (heap s) (cluster s) keyed_by_address_three)
    as (_ & Hal & Hm & _).
  split.
  - apply (Hal "a:1"). vm_compute. reflexivity.
  - apply Hm; [|done]. split; [split; [by eexists|reflexivity]|].
    intros b Hin%elem_of_keys Hb.
    vm_compute in Hin.
    repeat (apply elem_of_cons in Hin as [->|Hin]); [done|by vm_compute|by vm_compute|].
    by apply elem_of_nil in Hin.
Defined.

(** X11.  A manual check of one address: CheckNode answers true exactly
    when the address is registered and its probe answers without error
    (the answer of IsNodeAlive, for a registered address), and the nodes
    stay registered under their own addresses. *)
Theorem CheckNode_result hm addr h c :
  keyed_by_address h c ->
  (CheckNode hm addr h c).1 =
    bool_decide (is_Some (GetNode addr c) /\ HealthCheck hm addr = None) /\
  (is_Some (GetNode addr c) -> (CheckNode hm addr h c).1 = IsNodeAlive hm addr) /\
  keyed_by_address (CheckNode hm addr h c).2 c.
Proof.
  intros Hk. unfold CheckNode, GetNode, IsNodeAlive.
  destruct (nodes c !! addr) as [n|] eqn:Hn.
  - rewrite (checkNode_registered hm addr n) by done. simpl.
    destruct (Hk _ _ Hn) as (nd & Hnd & _).
    rewrite aliveAt_setAliveAt, decide_True, Hnd by done. split_and!.
    + apply bool_decide_ext. split; [by eauto|by intros [_ ?]].
    + intros _. by destruct (HealthCheck hm addr).
    + eapply keyed_by_address_frame; [apply same_addrs_setAliveAt|done|done].
  - unfold checkNode, GetNode. rewrite Hn. simpl. split_and!; [done|by intros [? ?]|done].
Qed.

(** The theorem on scenario 1 when [a:1] does not answer. *)
Lemma CheckNode_result_witness :
  let s := Scenario.three_nodes in
  (CheckNode Scenario.a_down "a:1" (heap s) (cluster s)).1 = false /\
  (CheckNode Scenario.a_down "b:2" (heap s) (cluster s)).1 = true.
Proof.
  intros s. split.
  - destruct (CheckNode_result Scenario.a_down "a:1" (heap s) (cluster s)
                keyed_by_address_three) as (-> & _).
    vm_compute. reflexivity.
  - destruct (CheckNode_result Scenario.a_down "b:2" (heap s) (cluster s)
                keyed_by_address_three) as (-> & _).
    vm_compute. reflexivity.
Defined.

End heartbeat.

(** * Further properties of the participant store *)

Section node_store.
Import Protocol Spec.

Implicit Types (n : Node.Node) (log : list DbCall) (txID : string).

Lemma ensureSchema_fields n log :
  same_identity n (Node.ensureSchema n log).1.2 /\
  Node.pendingTx (Node.ensureSchema n log).1.2 = Node.pendingTx n /\
  Node.pendingData (Node.ensureSchema n log).1.2 = Node.pendingData n /\
  Node.TxState (Node.ensureSchema n log).1.2 = Node.TxState n.
Proof.
  unfold Node.ensureSchema, same_identity. destruct (Node.db n) as [d|] eqn:Hd; [|done].
  destruct (Node.schemaOnce n); [done|].
  by destruct (Node.ensureSchemaLocked d log).
Qed.

(** The ways [Prepare] ends: it fails and the pending maps and the state
    are as before; or it succeeds on a node without a database; or it
    succeeds on a node with one, after exactly two statements in the
    transaction it opened. *)
Lemma Prepare_cases (J : Node.Json) txID (payload : Node.Payload) n log :
  let r := Node.Prepare J txID payload n log in
  (r.1.1.1 = false /\ is_Some r.1.1.2 /\ same_identity n r.1.2 /\
   Node.pendingTx r.1.2 = Node.pendingTx n /\
   Node.pendingData r.1.2 = Node.pendingData n /\
   Node.TxState r.1.2 = Node.TxState n) \/
  (Node.pendingData n !! txID = None /\ Node.db n = None /\
   r = ((true, None),
        Node.setTx StateReady (Node.pendingTx n)
          (<[txID := payload]> (Node.pendingData n)) n, log)) \/
  (Node.pendingData n !! txID = None /\
   exists d n1 log1 h action stmt args bytes,
     Node.db n = Some d /\ Node.ensureSchema n log = (None, n1, log1) /\
     beginTx d log1 = inr h /\ Node.parseSQLAction J payload = inr action /\
     Node.buildStatement action = inr (stmt, args) /\
     Node.Marshal J payload = inr bytes /\
     r = ((true, None),
          Node.setTx StateReady (<[txID := mkOpenTx d h]> (Node.pendingTx n1))
            (<[txID := payload]> (Node.pendingData n1)) n1,
          log1 ++ [BeginTx] ++ [TxExec h stmt args] ++
            [TxExec h Node.sqlInsertPrepared [SStr txID; SStr bytes]])).
Proof.
  intros r. unfold r, Node.Prepare.
  destruct (Node.pendingData n !! txID) as [?|] eqn:Hp.
  { left. simpl. unfold same_identity. by split_and!; eauto. }
  destruct (Node.db n) as [d|] eqn:Hd; [|right; left; by split_and!].
  destruct (ensureSchema_fields n log) as (Hid & Htx & Hdata & Hst).
  destruct (Node.ensureSchema n log) as [[serr n1] log1] eqn:He. simpl in *.
  destruct serr as [err|]; [left; simpl; by split_and!; eauto|].
  destruct (beginTx d log1) as [err|h] eqn:Hb; [left; simpl; by split_and!; eauto|].
  destruct (Node.parseSQLAction J payload) as [err|action] eqn:Hparse;
    [left; simpl; by split_and!; eauto|].
  unfold Node.applySQLAction.
  destruct (Node.buildStatement action) as [err|[stmt args]] eqn:Hbuild;
    [left; simpl; by split_and!; eauto|].
  unfold Node.execIn. simpl.
  destruct (txExec d _ h stmt args) as [err|?] eqn:Hx1;
    [left; simpl; by split_and!; eauto|].
  destruct (Node.Marshal J payload) as [err|bytes] eqn:Hm;
    [left; simpl; by split_and!; eauto|].
  destruct (txExec d _ h Node.sqlInsertPrepared _) as [err|[err|rows]] eqn:Hx2;
    [left; simpl; by split_and!; eauto..|].
  case_bool_decide; [left; simpl; by split_and!; eauto|].
  right. right. split; [done|].
  exists d, n1, log1, h, action, stmt, args, bytes.
  split_and!; try done. by rewrite <- !app_assoc.
Qed.

(** X12.  Prepare is all or nothing on the node: whatever the payload and
    the database do, it changes neither the address, the role, the
    liveness nor the database of the node; when it answers false it
    returns an error and the pending maps and the state are as before;
    when it answers true there is no error, the id was not pending before
    and is pending now with the payload as given, and the state is
    READY. *)
Theorem Prepare_all_or_nothing (J : Node.Json) txID (payload : Node.Payload) n log :
  let r := Node.Prepare J txID payload n log in
  same_identity n r.1.2 /\
  (r.1.1.1 = false ->
     is_Some r.1.1.2 /\ Node.pendingTx r.1.2 = Node.pendingTx n /\
     Node.pendingData r.1.2 = Node.pendingData n /\
     Node.TxState r.1.2 = Node.TxState n) /\
  (r.1.1.1 = true ->
     r.1.1.2 = None /\ Node.pendingData n !! txID = None /\
     Node.pendingData r.1.2 = <[txID := payload]> (Node.pendingData n) /\
     Node.TxState r.1.2 = StateReady /\
     Node.HasPendingTransaction txID r.1.2 = true /\
     txID ∈ Node.GetPendingTransactions r.1.2).
Proof.
  cbv zeta.
  assert (forall n', Node.pendingData n' = <[txID := payload]> (Node.pendingData n) ->
            Node.HasPendingTransaction txID n' = true /\
            txID ∈ Node.GetPendingTransactions n') as Hpending.
  { intros n' Hn'. unfold Node.HasPendingTransaction, Node.GetPendingTransactions.
    rewrite Hn'. split.
    - apply bool_decide_eq_true. rewrite lookup_insert_eq. by eauto.
    - apply list_elem_of_fmap. exists (txID, payload). split; [done|].
      apply elem_of_map_to_list. by rewrite lookup_insert_eq. }
  destruct (Prepare_cases J txID payload n log)
    as [(Hf & Herr & Hid & Htx & Hdata & Hst)|[(Hp & Hd & Hr)|(Hp & Hr)]].
  - split; [done|]. split; [done|]. rewrite Hf. done.
  - rewrite Hr. simpl. split; [done|]. split; [done|]. intros _.
    destruct (Hpending (Node.setTx StateReady (Node.pendingTx n)
                          (<[txID := payload]> (Node.pendingData n)) n)) as [? ?]; [done|].
    by split_and!.
  - destruct Hr as (d & n1 & log1 & h & action & stmt & args & bytes &
                    Hd & He & _ & _ & _ & _ & Hr).
    destruct (ensureSchema_fields n log) as (Hid & Htx & Hdata & Hst).
    rewrite He in Hid, Htx, Hdata, Hst. simpl in *.
    rewrite Hr. simpl. split; [done|]. split; [done|]. intros _.
    destruct (Hpending (Node.setTx StateReady (<[txID := mkOpenTx d h]> (Node.pendingTx n1))
                          (<[txID := payload]> (Node.pendingData n1)) n1)) as [? ?].
    { simpl. by rewrite Hdata. }
    split_and!; try done. by rewrite Hdata.
Qed.

Local Ltac log_shape :=
  unfold Node.rollback; simpl;
  split_and!; [by rewrite <- ?app_assoc|by repeat constructor|simpl; lia].

(** X13.  The database calls of a Prepare that got its transaction [h]:
    when it fails, the calls after BeginTx are at most two statements in
    [h] followed by the rollback of [h], and nothing is committed; when
    it succeeds they are exactly two statements in [h], the statement
    built from the parsed payload and then the insert into the audit
    table, and [h] stays open under the id. *)
Theorem Prepare_transaction (J : Node.Json) txID (payload : Node.Payload) n log
    (d : DB) n1 log1 (h : TxHandle) :
  Node.pendingData n !! txID = None ->
  Node.db n = Some d ->
  Node.ensureSchema n log = (None, n1, log1) ->
  beginTx d log1 = inr h ->
  let r := Node.Prepare J txID payload n log in
  (r.1.1.1 = false ->
     exists mid, r.2 = log1 ++ [BeginTx] ++ mid ++ [TxRollback h] /\
       Forall (inTx h) mid /\ length mid <= 2) /\
  (r.1.1.1 = true ->
     exists action stmt args bytes,
       Node.parseSQLAction J payload = inr action /\
       Node.buildStatement action = inr (stmt, args) /\
       Node.Marshal J payload = inr bytes /\
       r.2 = log1 ++ [BeginTx] ++ [TxExec h stmt args] ++
               [TxExec h Node.sqlInsertPrepared [SStr txID; SStr bytes]] /\
       Node.pendingTx r.1.2 !! txID = Some (mkOpenTx d h)).
Proof.
  intros Hp Hd He Hb r. unfold r, Node.Prepare. rewrite Hp, Hd, He, Hb.
  assert (forall stmt args, inTx h (TxExec h stmt args)) as Hin by (intros; by eexists _, _).
  destruct (Node.parseSQLAction J payload) as [err|action] eqn:Hparse.
  { simpl. split; [|done]. intros _. exists []. log_shape. }
  unfold Node.applySQLAction.
  destruct (Node.buildStatement action) as [err|[stmt args]] eqn:Hbuild.
  { simpl. split; [|done]. intros _. exists []. log_shape. }
  unfold Node.execIn. simpl.
  destruct (txExec d _ h stmt args) as [err|?] eqn:Hx1.
  { simpl. split; [|done]. intros _. exists [TxExec h stmt args]. log_shape. }
  destruct (Node.Marshal J payload) as [err|bytes] eqn:Hm.
  { simpl. split; [|done]. intros _. exists [TxExec h stmt args]. log_shape. }
  destruct (txExec d _ h Node.sqlInsertPrepared _) as [err|[err|rows]] eqn:Hx2.
  - simpl. split; [|done]. intros _.
    exists [TxExec h stmt args; TxExec h Node.sqlInsertPrepared [SStr txID; SStr bytes]].
    log_shape.
  - simpl. split; [|done]. intros _.
    exists [TxExec h stmt args; TxExec h Node.sqlInsertPrepared [SStr txID; SStr bytes]].
    log_shape.
  - case_bool_decide; simpl.
    + split; [|done]. intros _.
      exists [TxExec h stmt args; TxExec h Node.sqlInsertPrepared [SStr txID; SStr bytes]].
      log_shape.
    + split; [done|]. intros _. exists action, stmt, args, bytes.
      split_and!; try done.
      * by rewrite <- !app_assoc.
      * by rewrite lookup_insert_eq.
Qed.

(** The theorem on scenario 3: the insert of Alice on a working
    database. *)
Lemma Prepare_transaction_witness :
  exists stmt args,
    (Node.Prepare Scenario.plainJson "tx-1" (Node.PayloadAction Scenario.insertAlice)
       Scenario.dbNode []).2 =
    [QueryTableExists Node.distTx] ++ [BeginTx] ++ [TxExec 1%nat stmt args] ++
      [TxExec 1%nat Node.sqlInsertPrepared [SStr "tx-1"; SStr "{}"]].
Proof.
  destruct (Prepare_transaction Scenario.plainJson "tx-1"
              (Node.PayloadAction Scenario.insertAlice) Scenario.dbNode []
              Scenario.goodDB (Node.setSchema None Scenario.dbNode)
              [QueryTableExists Node.distTx] 1%nat) as [_ Hok];
    [reflexivity|reflexivity|reflexivity|reflexivity|].
  destruct Hok as (action & stmt & args & bytes & _ & _ & Hm & Hlog & _);
    [vm_compute; reflexivity|].
  exists stmt, args. rewrite Hlog. by injection Hm as <-.
Defined.

Local Ltac finished :=
  simpl;
  repeat match goal with H : Node.db _ = _ |- _ => rewrite H end;
  split_and!; simpl;
  rewrite ?(delete_id (Node.pendingTx _)) by done; try done;
  unfold Node.HasPendingTransaction; simpl;
  apply bool_decide_eq_false; rewrite lookup_delete_eq; by intros [? ?].

(** X14.  Commit and Abort are all or nothing on the node: neither changes
    the address, the role, the liveness or the database; one that returns
    an error leaves the node exactly as it was, so the transaction is
    still pending if it was; one that returns nil removes the id from
    both pending maps, leaves the other ids alone and sets the state to
    COMMIT, respectively ABORT. *)
Theorem Commit_Abort_all_or_nothing txID n log :
  (let r := Node.Commit txID n log in
   same_identity n r.1.2 /\
   match r.1.1 with
   | Some _ => r.1.2 = n
   | None =>
       Node.pendingTx r.1.2 = delete txID (Node.pendingTx n) /\
       Node.pendingData r.1.2 = delete txID (Node.pendingData n) /\
       Node.TxState r.1.2 = StateCommit /\
       Node.HasPendingTransaction txID r.1.2 = false
   end) /\
  (let r := Node.Abort txID n log in
   same_identity n r.1.2 /\
   match r.1.1 with
   | Some _ => r.1.2 = n
   | None =>
       Node.pendingTx r.1.2 = delete txID (Node.pendingTx n) /\
       Node.pendingData r.1.2 = delete txID (Node.pendingData n) /\
       Node.TxState r.1.2 = StateAbort /\
       Node.HasPendingTransaction txID r.1.2 = false
   end).
Proof.
  split.
  - unfold Node.Commit, same_identity.
    destruct (Node.pendingTx n !! txID) as [tx|] eqn:Htx.
    + unfold Node.execIn.
      destruct (Node.unswallowed (Node.execError _)); [done|].
      destruct (Node.unswallowed (txCommit _ _ _)); [done|].
      finished.
    + destruct (Node.db n) as [d|] eqn:Hd; [destruct (dbExec d log _ _)|];
        [simpl; by rewrite Hd|finished..].
  - unfold Node.Abort, same_identity.
    destruct (Node.pendingTx n !! txID) as [tx|] eqn:Htx.
    + destruct (Node.unswallowed (txRollback _ _ _)); [done|].
      finished.
    + destruct (Node.db n) as [d|] eqn:Hd; [destruct (dbExec d log _ _)|];
        [simpl; by rewrite Hd|finished..].
Qed.

(** X15.  The pending maps stay consistent: a new node is consistent, and
    Prepare, Commit and Abort keep a node consistent whatever the database
    answers.  On a node with a database the ids with an open handle are
    the ids HasPendingTransaction reports; a node without one never holds
    a handle. *)
Theorem store_consistent_preserved (J : Node.Json) txID (payload : Node.Payload) n log :
  store_consistent n ->
  store_consistent (Node.Prepare J txID payload n log).1.2 /\
  store_consistent (Node.Commit txID n log).1.2 /\
  store_consistent (Node.Abort txID n log).1.2 /\
  (forall addr role d,
     store_consistent (Node.NewNode addr role) /\
     store_consistent (Node.NewNodeWithDB addr role d)).
Proof.
  intros Hc.
  assert (forall n',
            Node.db n' = Node.db n ->
            Node.pendingTx n' = delete txID (Node.pendingTx n) ->
            Node.pendingData n' = delete txID (Node.pendingData n) ->
            store_consistent n') as Hdel.
  { intros n' Hdb Htx Hdata. unfold store_consistent in *. rewrite Hdb.
    destruct (Node.db n).
    - intros id. rewrite Htx, Hdata.
      destruct (decide (id = txID)) as [->|Hne].
      + rewrite !lookup_delete_eq. split; by intros [? ?].
      + by rewrite !lookup_delete_ne.
    - rewrite Htx, Hc. apply delete_empty. }
  split_and!.
  - destruct (Prepare_cases J txID payload n log)
      as [(_ & _ & Hid & Htx & Hdata & _)|[(Hp & Hd & ->)|(Hp & Hr)]].
    + destruct Hid as (_ & _ & _ & Hdb). unfold store_consistent in *.
      rewrite Hdb, Htx, Hdata. done.
    + unfold store_consistent in *. simpl. by rewrite Hd in *.
    + destruct Hr as (d & n1 & log1 & h & action & stmt & args & bytes &
                      Hd & He & _ & _ & _ & _ & ->).
      destruct (ensureSchema_fields n log) as ((_ & _ & _ & Hdb) & Htx & Hdata & _).
      rewrite He in Hdb, Htx, Hdata. simpl in *.
      unfold store_consistent in *. simpl. rewrite Hdb, Hd in *.
      intros id. rewrite Htx, Hdata.
      destruct (decide (id = txID)) as [->|Hne].
      * rewrite !lookup_insert_eq. split; by eauto.
      * by rewrite !lookup_insert_ne.
  - unfold Node.Commit.
    destruct (Node.pendingTx n !! txID) as [tx|] eqn:Htx.
    + unfold Node.execIn.
      destruct (Node.unswallowed (Node.execError _)); [done|].
      destruct (Node.unswallowed (txCommit _ _ _)); [done|].
      by apply Hdel.
    + destruct (Node.db n) as [d|] eqn:Hd; [destruct (dbExec d log _ _)|]; simpl; try done.
      all: apply Hdel; simpl; [done|by rewrite delete_id|done].
  - unfold Node.Abort.
    destruct (Node.pendingTx n !! txID) as [tx|] eqn:Htx.
    + destruct (Node.unswallowed (txRollback _ _ _)); [done|].
      by apply Hdel.
    + destruct (Node.db n) as [d|] eqn:Hd; [destruct (dbExec d log _ _)|]; simpl; try done.
      all: apply Hdel; simpl; [done|by rewrite delete_id|done].
  - intros addr role d. unfold store_consistent. simpl. split; [done|].
    intros id. rewrite !lookup_empty. done.
Qed.

(** The theorem on a node with a database and one pending transaction. *)
Lemma store_consistent_preserved_witness :
  store_consistent (Node.Commit "tx-1" Scenario.dbPending.1 Scenario.dbPending.2).1.2.
Proof.
  assert (store_consistent Scenario.dbNode) as H0.
  { unfold store_consistent. simpl. intros id. by rewrite !lookup_empty. }
  destruct (store_consistent_preserved Scenario.plainJson "tx-1"
              (Node.PayloadAction Scenario.insertAlice) Scenario.dbNode [] H0)
    as (H1 & _).
  destruct (store_consistent_preserved Scenario.plainJson "tx-1"
              (Node.PayloadAction Scenario.insertAlice) Scenario.dbPending.1
              Scenario.dbPending.2 H1) as (_ & H2 & _).
  exact H2.
Defined.

(** X16.  Prepare followed by Commit, or by Abort, of the same id on a
    consistent node: if both succeed the pending maps are those before
    the Prepare.  On a node without a database the second call always
    succeeds and calls nothing; on a node with one, a successful Commit is
    the status update followed by the commit, and a successful Abort the
    rollback, of the very transaction the Prepare opened. *)
Theorem Prepare_then_finish (J : Node.Json) txID (payload : Node.Payload) n log :
  store_consistent n ->
  let p := Node.Prepare J txID payload n log in
  p.1.1.1 = true ->
  let c := Node.Commit txID p.1.2 p.2 in
  let a := Node.Abort txID p.1.2 p.2 in
  (c.1.1 = None ->
     Node.pendingTx c.1.2 = Node.pendingTx n /\
     Node.pendingData c.1.2 = Node.pendingData n /\ Node.TxState c.1.2 = StateCommit) /\
  (a.1.1 = None ->
     Node.pendingTx a.1.2 = Node.pendingTx n /\
     Node.pendingData a.1.2 = Node.pendingData n /\ Node.TxState a.1.2 = StateAbort) /\
  (Node.db n = None -> c.1.1 = None /\ a.1.1 = None /\ c.2 = log /\ a.2 = log) /\
  (forall d, Node.db n = Some d ->
     exists h, Node.pendingTx p.1.2 !! txID = Some (mkOpenTx d h) /\
       (c.1.1 = None ->
          c.2 = p.2 ++ [TxExec h Node.sqlSetCommitted [SStr txID]; TxCommit h]) /\
       (a.1.1 = None -> a.2 = p.2 ++ [TxRollback h])).
Proof.
  cbv zeta. intros Hc Hok.
  destruct (Prepare_cases J txID payload n log)
    as [(Hf & _)|[(Hp & Hd & Hr)|(Hp & Hr)]].
  { congruence. }
  - unfold store_consistent in Hc. rewrite Hd in Hc.
    rewrite Hr. unfold Node.Commit, Node.Abort. simpl.
    rewrite Hc, lookup_empty, Hd. simpl. unfold Node.finish. simpl.
    rewrite delete_insert_eq, delete_id by done.
    split_and!; try done; intros d' ?; congruence.
  - destruct Hr as (d & n1 & log1 & h & action & stmt & args & bytes &
                    Hd & He & _ & _ & _ & _ & Hr).
    destruct (ensureSchema_fields n log) as (_ & Htx & Hdata & _).
    rewrite He in Htx, Hdata. simpl in *.
    assert (Node.pendingTx n !! txID = None) as Hnotx.
    { unfold store_consistent in Hc. rewrite Hd in Hc.
      destruct (Node.pendingTx n !! txID) eqn:E; [|done].
      destruct (proj1 (Hc txID)) as [? ?]; [by rewrite E; eauto|congruence]. }
    rewrite Hr. unfold Node.Commit, Node.Abort. simpl.
    rewrite !lookup_insert_eq. simpl.
    split_and!.
    + destruct (Node.unswallowed (Node.execError _)); [done|].
      destruct (Node.unswallowed (txCommit _ _ _)); [done|].
      simpl. intros _. rewrite !delete_insert_eq, Htx, Hdata, !delete_id by done. done.
    + destruct (Node.unswallowed (txRollback _ _ _)); [done|].
      simpl. intros _. rewrite !delete_insert_eq, Htx, Hdata, !delete_id by done. done.
    + intros ?. congruence.
    + intros d' Hd'. assert (d' = d) as -> by congruence. exists h. split; [done|]. split.
      * destruct (Node.unswallowed (Node.execError _)); [done|].
        destruct (Node.unswallowed (txCommit _ _ _)); [done|].
        simpl. intros _. by rewrite <- !app_assoc.
      * destruct (Node.unswallowed (txRollback _ _ _)); [done|]. done.
Qed.

(** The theorem on scenario 3: prepare and commit of the insert of
    Alice. *)
Lemma Prepare_then_finish_witness :
  Node.pendingData
    (Node.Commit "tx-1" Scenario.dbPending.1 Scenario.dbPending.2).1.2 = ∅.
Proof.
  assert (store_consistent Scenario.dbNode) as H0.
  { unfold store_consistent. simpl. intros id. by rewrite !lookup_empty. }
  destruct (Prepare_then_finish Scenario.plainJson "tx-1"
              (Node.PayloadAction Scenario.insertAlice) Scenario.dbNode [] H0)
    as (Hcommit & _); [vm_compute; reflexivity|].
  destruct Hcommit as (_ & Hdata & _); [vm_compute; reflexivity|].
  exact Hdata.
Defined.

End node_store.

(** * Parsing, finished transactions and the participant wrapper *)

Section parse_and_wrapper.
Import Protocol Spec.

Implicit Types (n : Node.Node) (log : list DbCall) (txID : string).

Lemma prefix_app (p q s : string) :
  String.prefix (p +:+ q) s = true -> String.prefix p s = true.
Proof.
  revert s. induction p as [|a p IH]; intros s H; [by destruct s|].
  destruct s as [|b s]; [done|]. simpl in *.
  destruct (ascii_dec a b); [by apply IH|done].
Qed.

Lemma Contains_app (s p q : string) :
  Strs.Contains s (p +:+ q) = true -> Strs.Contains s p = true.
Proof.
  induction s as [|c s IH]; cbn [Strs.Contains].
  - rewrite !orb_false_r. apply prefix_app.
  - intros [Hp|Hs]%orb_true_iff; apply orb_true_iff; [left|right].
    + by apply (prefix_app p q (String c s)).
    + by apply IH.
Qed.

(** X17.  isAlreadyFinishedErr makes three tests of which two decide: an
    error text is recognised exactly when it contains [already been
    committed] or [already been rolled back].  Commit swallows such
    errors: when the status update in the open transaction and then the
    commit itself both fail with recognised errors, Commit does not roll
    back, returns nil, forgets the transaction and sets the state to
    COMMIT. *)
Theorem finished_errors_swallowed txID n log (tx : OpenTx) (e1 e2 : error) :
  Node.pendingTx n !! txID = Some tx ->
  Strs.Contains e1 "already been committed" ||
    Strs.Contains e1 "already been rolled back" = true ->
  Strs.Contains e2 "already been committed" ||
    Strs.Contains e2 "already been rolled back" = true ->
  txExec (txDB tx) log (txHandle tx) Node.sqlSetCommitted [SStr txID] = inl e1 ->
  txCommit (txDB tx) (log ++ [TxExec (txHandle tx) Node.sqlSetCommitted [SStr txID]])
    (txHandle tx) = Some e2 ->
  (forall err, Node.isAlreadyFinishedErr err =
     Strs.Contains err "already been committed" ||
     Strs.Contains err "already been rolled back") /\
  Node.Commit txID n log =
    (None, Node.finish StateCommit txID (delete txID (Node.pendingTx n)) n,
     log ++ [TxExec (txHandle tx) Node.sqlSetCommitted [SStr txID]] ++
       [TxCommit (txHandle tx)]).
Proof.
  intros Htx He1 He2 Hx Hc.
  assert (forall err, Node.isAlreadyFinishedErr err =
            Strs.Contains err "already been committed" ||
            Strs.Contains err "already been rolled back") as Htwo.
  { intros err. unfold Node.isAlreadyFinishedErr.
    destruct (Strs.Contains err "already been committed") eqn:H1; [done|].
    destruct (Strs.Contains err "already been rolled back") eqn:H2; [done|].
    destruct (Strs.Contains err "already been committed or rolled back") eqn:H3; [|done].
    apply (Contains_app err "already been committed" " or rolled back") in H3.
    congruence. }
  split; [done|].
  unfold Node.Commit, Node.execIn. rewrite Htx, Hx. simpl.
  rewrite Htwo, He1. simpl. rewrite Hc. simpl. rewrite Htwo, He2. simpl.
  by rewrite <- app_assoc.
Qed.

(** The theorem on a node whose open transaction the database has
    already finished. *)
Lemma finished_errors_swallowed_witness :
  (Node.Commit "tx-1" Scenario.donePending []).1.1 = None /\
  Node.HasPendingTransaction "tx-1" (Node.Commit "tx-1" Scenario.donePending []).1.2 = false.
Proof.
  destruct (finished_errors_swallowed "tx-1" Scenario.donePending []
              (mkOpenTx Scenario.doneDB 1%nat) Scenario.ErrTxDone Scenario.ErrTxDone)
    as [_ ->]; [reflexivity|vm_compute; reflexivity|vm_compute; reflexivity|
                reflexivity|reflexivity|].
  split; vm_compute; reflexivity.
Defined.

Lemma validateSQLAction_inv (a : Node.SQLAction) :
  Node.validateSQLAction a = None ->
  (Node.Operation a = "INSERT" \/ Node.Operation a = "UPDATE") /\
  Node.Table a <> EmptyString /\ Node.Values a <> ∅ /\
  (Node.Operation a = "UPDATE" -> Node.Where a <> ∅).
Proof.
  unfold Node.validateSQLAction, Strs.eqb.
  case_bool_decide as Ht; [done|].
  case_bool_decide as Hv; [done|].
  assert (Node.Values a <> ∅) as Hv' by (intros E; apply Hv; by rewrite E).
  case_bool_decide as Hi.
  { intros _. split_and!; [by left|done|done|]. rewrite Hi. done. }
  case_bool_decide as Hu; [|done].
  case_bool_decide as Hw; [done|]. intros _.
  split_and!; [by right|done|done|]. intros _ E. apply Hw. by rewrite E.
Qed.

Lemma parseSQLAction_valid (J : Node.Json) (payload : Node.Payload) (a : Node.SQLAction) :
  Node.parseSQLAction J payload = inr a -> Node.validateSQLAction a = None.
Proof.
  unfold Node.parseSQLAction.
  destruct (Node.decodePayload J payload) as [err|a0]; [done|].
  destruct (Node.validateSQLAction _) eqn:Hv; [done|]. by intros [= <-].
Qed.

Lemma safeIdent_err (id : string) (err : error) :
  Node.safeIdent id = inl err ->
  err = "identifier empty" \/ err = "identifier contains invalid characters".
Proof.
  unfold Node.safeIdent. destruct (Strs.eqb id EmptyString); [intros [= <-]; by left|].
  destruct (Node.allChars Node.identChar id); [done|]. intros [= <-]. by right.
Qed.

Lemma insertLoop_err m cols : forall i (colIdents : list string)
    (args : list Scalar) (placeholders : list string) err,
  Node.insertLoop m cols i colIdents args placeholders = inl err ->
  err = "identifier empty" \/ err = "identifier contains invalid characters".
Proof.
  induction cols as [|c rest IH]; intros i colIdents args phs err; simpl; [done|].
  destruct (Node.safeIdent c) as [e|ident] eqn:Hc.
  - intros [= <-]. by eapply safeIdent_err.
  - apply IH.
Qed.

Lemma updateLoop_err m cols : forall i (parts : list string) (args : list Scalar) idx err,
  Node.updateLoop m cols i parts args idx = inl err ->
  err = "identifier empty" \/ err = "identifier contains invalid characters".
Proof.
  induction cols as [|c rest IH]; intros i parts args idx err; simpl; [done|].
  destruct (Node.safeIdent c) as [e|ident] eqn:Hc.
  - intros [= <-]. by eapply safeIdent_err.
  - apply IH.
Qed.

(** X18.  What parseSQLAction accepts, and what becomes of it in
    applySQLAction: the operation is INSERT or UPDATE in upper case, the
    table and the values are not empty, an UPDATE has a where clause; so
    the statement construction can only fail on an identifier, with one of
    its two identifier errors, and it does fail when the table or a column
    among the values (for an UPDATE also a column of the where clause) is
    not a valid identifier. *)
Theorem parsed_action_builds (J : Node.Json) (payload : Node.Payload) (a : Node.SQLAction) :
  Node.parseSQLAction J payload = inr a ->
  ((Node.Operation a = "INSERT" \/ Node.Operation a = "UPDATE") /\
   Node.Table a <> EmptyString /\ Node.Values a <> ∅ /\
   (Node.Operation a = "UPDATE" -> Node.Where a <> ∅)) /\
  (forall err, Node.buildStatement a = inl err ->
     err = "identifier empty" \/ err = "identifier contains invalid characters") /\
  ((exists r, Node.buildStatement a = inr r) <->
   validIdent (Node.Table a) /\
   (forall c, is_Some (Node.Values a !! c) -> validIdent c) /\
   (Node.Operation a = "UPDATE" ->
    forall c, is_Some (Node.Where a !! c) -> validIdent c)).
Proof.
  intros Hparse. apply parseSQLAction_valid in Hparse.
  pose proof (validateSQLAction_inv a Hparse) as (Hop & Ht & Hv & Hw).
  split; [done|].
  assert (Node.Operation a = "UPDATE" ->
          bool_decide (length (Node.sortedKeys (Node.Where a)) = 0%nat) = false) as Hlen.
  { intros Hu. apply bool_decide_eq_false. rewrite sortedKeys_ascending, length_ascendingKeys.
    intros E%map_size_empty_iff. by apply Hw. }
  split.
  - intros err. unfold Node.buildStatement.
    destruct (Node.safeIdent (Node.Table a)) as [e|table] eqn:Htab.
    { intros [= <-]. by eapply safeIdent_err. }
    destruct Hop as [Hop|Hop]; rewrite Hop; unfold Strs.eqb; simpl.
    + destruct (Node.insertLoop _ _ _ _ _ _) as [e|[[? ?] ?]] eqn:Hl; [|done].
      intros [= <-]. by eapply insertLoop_err.
    + rewrite (Hlen Hop).
      destruct (Node.updateLoop (Node.Values a) _ _ _ _ _) as [e|[[? ?] ?]] eqn:Hl1.
      { intros [= <-]. by eapply updateLoop_err. }
      destruct (Node.updateLoop (Node.Where a) _ _ _ _ _) as [e|[[? ?] ?]] eqn:Hl2; [|done].
      intros [= <-]. by eapply updateLoop_err.
  - unfold Node.buildStatement. split.
    + intros [r Hr].
      destruct (Node.safeIdent (Node.Table a)) as [e|table] eqn:Htab; [done|].
      apply safeIdent_inv in Htab as [Hvt _]. split; [done|].
      destruct Hop as [Hop|Hop]; rewrite Hop in Hr; unfold Strs.eqb in Hr; simpl in Hr.
      * destruct (Node.insertLoop _ _ _ _ _ _) as [e|r'] eqn:Hl; [done|].
        apply insertLoop_inv in Hl. split.
        -- by apply valid_keys.
        -- rewrite Hop. done.
      * rewrite (Hlen Hop) in Hr.
        destruct (Node.updateLoop (Node.Values a) _ _ _ _ _) as [e|[[? ?] ?]] eqn:Hl1; [done|].
        destruct (Node.updateLoop (Node.Where a) _ _ _ _ _) as [e|r'] eqn:Hl2; [done|].
        apply updateLoop_inv in Hl1, Hl2. split.
        -- by apply valid_keys.
        -- intros _. by apply valid_keys.
    + intros (Hvt & Hvv & Hvw). rewrite (safeIdent_valid _ Hvt).
      pose proof (ascendingKeys_valid _ Hvv) as Hcols.
      destruct Hop as [Hop|Hop]; rewrite Hop; unfold Strs.eqb; simpl.
      * rewrite sortedKeys_ascending.
        rewrite insertLoop_spec by (rewrite ?length_replicate; done). by eauto.
      * rewrite (Hlen Hop).
        pose proof (ascendingKeys_valid _ (Hvw Hop)) as Hwcols.
        rewrite !sortedKeys_ascending.
        rewrite updateLoop_spec by (rewrite ?length_replicate; done).
        rewrite updateLoop_spec by (rewrite ?length_replicate; done). by eauto.
Qed.

(** The theorem on the update of Bob, whose operation is given in lower
    case between blanks. *)
Lemma parsed_action_builds_witness :
  exists a, Node.parseSQLAction Scenario.plainJson (Node.PayloadAction Scenario.updateBob)
              = inr a /\
    Node.Operation a = "UPDATE" /\ exists r, Node.buildStatement a = inr r.
Proof.
  exists {| Node.Table := "Users"; Node.Operation := "UPDATE";
            Node.Values := Node.Values Scenario.updateBob;
            Node.Where := Node.Where Scenario.updateBob |}.
  split; [vm_compute; reflexivity|]. split; [reflexivity|].
  destruct (parsed_action_builds Scenario.plainJson (Node.PayloadAction Scenario.updateBob)
              {| Node.Table := "Users"; Node.Operation := "UPDATE";
                 Node.Values := Node.Values Scenario.updateBob;
                 Node.Where := Node.Where Scenario.updateBob |})
    as (_ & _ & Hiff); [vm_compute; reflexivity|].
  apply Hiff. simpl.
  split_and!.
  - split; [done|reflexivity].
  - intros c Hc%elem_of_ascendingKeys. vm_compute in Hc.
    repeat (apply elem_of_cons in Hc as [->|Hc]); [by split..|].
    by apply elem_of_nil in Hc.
  - intros _ c Hc%elem_of_ascendingKeys. vm_compute in Hc.
    repeat (apply elem_of_cons in Hc as [->|Hc]); [by split..|].
    by apply elem_of_nil in Hc.
Defined.

Lemma Commit_pendingData txID n log :
  match (Node.Commit txID n log).1.1 with
  | Some _ => (Node.Commit txID n log).1.2 = n
  | None =>
      Node.pendingData (Node.Commit txID n log).1.2 = delete txID (Node.pendingData n)
  end.
Proof.
  unfold Node.Commit. destruct (Node.pendingTx n !! txID) as [tx|].
  - unfold Node.execIn.
    destruct (Node.unswallowed (Node.execError _)); [done|].
    by destruct (Node.unswallowed (txCommit _ _ _)).
  - destruct (Node.db n) as [d|]; [by destruct (dbExec d log _ _)|done].
Qed.

Lemma Abort_pendingData txID n log :
  match (Node.Abort txID n log).1.1 with
  | Some _ => (Node.Abort txID n log).1.2 = n
  | None =>
      Node.pendingData (Node.Abort txID n log).1.2 = delete txID (Node.pendingData n)
  end.
Proof.
  unfold Node.Abort. destruct (Node.pendingTx n !! txID) as [tx|].
  - by destruct (Node.unswallowed (txRollback _ _ _)).
  - destruct (Node.db n) as [d|]; [by destruct (dbExec d log _ _)|done].
Qed.

Lemma wrapper_consistent_delete txID (p : Participant.Participant) n1 :
  wrapper_consistent p ->
  Node.pendingData n1 = delete txID (Node.pendingData (Participant.node p)) ->
  wrapper_consistent
    (Participant.mkParticipant n1 (delete txID (Participant.transactions p))).
Proof.
  intros Hc Hdata id ts. simpl. rewrite Hdata.
  destruct (decide (id = txID)) as [->|Hne].
  - by rewrite lookup_delete_eq.
  - rewrite !lookup_delete_ne by done. apply Hc.
Qed.

(** X19.  The wrapper's table follows its node: a new participant is
    consistent, and Prepare, Commit and Abort of the wrapper keep it so,
    whatever the database answers: every entry of the table is READY
    under its own id with the payload pending in the node.  Hence the
    READY test of the wrapper's Commit never fails: for a known id the
    answer is the node's. *)
Theorem wrapper_consistent_preserved (J : Node.Json) txID (payload : Node.Payload)
    (p : Participant.Participant) log :
  wrapper_consistent p ->
  wrapper_consistent (Participant.Prepare J txID payload p log).1.2 /\
  wrapper_consistent (Participant.Commit txID p log).1.2 /\
  wrapper_consistent (Participant.Abort txID p log).1.2 /\
  (forall n0, wrapper_consistent (Participant.NewParticipant n0)) /\
  (is_Some (Participant.transactions p !! txID) ->
   (Participant.Commit txID p log).1.1 =
     match (Node.Commit txID (Participant.node p) log).1.1 with
     | Some err => CommitResponse.mk false err
     | None => CommitResponse.mk true EmptyString
     end).
Proof.
  intros Hc. split_and!.
  - unfold Participant.Prepare.
    destruct (Participant.transactions p !! txID) as [ts|] eqn:Hts; [done|].
    destruct (Prepare_cases J txID payload (Participant.node p) log)
      as [(Hf & Herr & _ & _ & Hdata & _)|[(Hp & Hd & Hr)|(Hp & Hr)]].
    + destruct (Node.Prepare J txID payload (Participant.node p) log)
        as [[[ready err] n1] log1]. simpl in *. subst ready. simpl.
      intros id ts Hid. simpl in *. rewrite Hdata. by apply Hc.
    + rewrite Hr. simpl. intros id ts. simpl.
      destruct (decide (id = txID)) as [->|Hne].
      * rewrite !lookup_insert_eq. by intros [= <-].
      * rewrite !lookup_insert_ne by done. apply Hc.
    + destruct Hr as (d & n1 & log1 & h & action & stmt & args & bytes &
                      Hd & He & _ & _ & _ & _ & ->).
      destruct (ensureSchema_fields (Participant.node p) log) as (_ & _ & Hdata & _).
      rewrite He in Hdata. simpl in *.
      intros id ts. simpl. rewrite Hdata.
      destruct (decide (id = txID)) as [->|Hne].
      * rewrite !lookup_insert_eq. by intros [= <-].
      * rewrite !lookup_insert_ne by done. apply Hc.
  - unfold Participant.Commit.
    destruct (Participant.transactions p !! txID) as [ts|] eqn:Hts; [|done].
    case_bool_decide; [done|].
    pose proof (Commit_pendingData txID (Participant.node p) log) as Hn.
    destruct (Node.Commit txID (Participant.node p) log) as [[[err|] n1] log1];
      simpl in *.
    + subst n1. by rewrite mkParticipant_eta.
    + by apply wrapper_consistent_delete.
  - unfold Participant.Abort.
    destruct (Participant.transactions p !! txID) as [ts|] eqn:Hts; [|done].
    pose proof (Abort_pendingData txID (Participant.node p) log) as Hn.
    destruct (Node.Abort txID (Participant.node p) log) as [[[err|] n1] log1];
      simpl in *.
    + subst n1. by rewrite mkParticipant_eta.
    + by apply wrapper_consistent_delete.
  - intros n0 id ts. unfold Participant.NewParticipant. simpl.
    by rewrite lookup_empty.
  - intros [ts Hts]. unfold Participant.Commit. rewrite Hts.
    destruct (Hc _ _ Hts) as (Hready & _).
    rewrite bool_decide_eq_false_2 by (intros ?; done).
    by destruct (Node.Commit txID (Participant.node p) log) as [[[err|] n1] log1].
Qed.

(** The theorem on a participant that prepared the insert of Alice on a
    working database. *)
Lemma wrapper_consistent_preserved_witness :
  let p := (Participant.Prepare Scenario.plainJson "tx-1"
              (Node.PayloadAction Scenario.insertAlice)
              (Participant.NewParticipant Scenario.dbNode) []).1.2 in
  wrapper_consistent p /\ is_Some (Participant.transactions p !! "tx-1").
Proof.
  intros p. split; [|vm_compute; by eexists].
  assert (wrapper_consistent (Participant.NewParticipant Scenario.dbNode)) as H0.
  { intros id ts. unfold Participant.NewParticipant. simpl. by rewrite lookup_empty. }
  destruct (wrapper_consistent_preserved Scenario.plainJson "tx-1"
              (Node.PayloadAction Scenario.insertAlice)
              (Participant.NewParticipant Scenario.dbNode) [] H0) as (H1 & _).
  exact H1.
Defined.

End parse_and_wrapper.

(** * What an Execute leaves behind *)

Section execute_frame.
Import Protocol Cluster Coordinator Spec.

Implicit Types (h : gmap loc Node.Node) (l m : loc) (w : World) (txID : string).

Lemma same_identity_refl (n : Node.Node) : same_identity n n.
Proof. by unfold same_identity. Qed.

Lemma same_identity_trans (n1 n2 n3 : Node.Node) :
  same_identity n1 n2 -> same_identity n2 n3 -> same_identity n1 n3.
Proof. unfold same_identity. intros (?&?&?&?) (?&?&?&?). split_and!; congruence. Qed.

Lemma Prepare_identity (J : Node.Json) txID (payload : Node.Payload) (n : Node.Node) log :
  same_identity n (Node.Prepare J txID payload n log).1.2.
Proof.
  destruct (Prepare_cases J txID payload n log)
    as [(_ & _ & Hid & _)|[(_ & _ & ->)|(_ & Hr)]]; [done|done|].
  destruct Hr as (d & n1 & log1 & hd & action & stmt & args & bytes &
                  _ & He & _ & _ & _ & _ & ->).
  destruct (ensureSchema_fields n log) as (Hid & _). by rewrite He in Hid.
Qed.

Lemma Commit_identity txID (n : Node.Node) log :
  same_identity n (Node.Commit txID n log).1.2 /\
  ((Node.Commit txID n log).1.1 = None ->
   Node.TxState (Node.Commit txID n log).1.2 = StateCommit).
Proof.
  unfold Node.Commit, same_identity. destruct (Node.pendingTx n !! txID) as [tx|].
  - unfold Node.execIn.
    destruct (Node.unswallowed (Node.execError _)); [done|].
    by destruct (Node.unswallowed (txCommit _ _ _)).
  - destruct (Node.db n) as [d|] eqn:Hd; [destruct (dbExec d log _ _)|]; simpl;
      by rewrite ?Hd.
Qed.

Lemma Abort_identity txID (n : Node.Node) log :
  same_identity n (Node.Abort txID n log).1.2.
Proof.
  unfold Node.Abort, same_identity. destruct (Node.pendingTx n !! txID) as [tx|].
  - by destruct (Node.unswallowed (txRollback _ _ _)).
  - destruct (Node.db n) as [d|] eqn:Hd; [destruct (dbExec d log _ _)|]; simpl;
      by rewrite ?Hd.
Qed.

Lemma only_local_refl (lo : option loc) h : only_local lo h h.
Proof.
  intros m. destruct (h !! m) as [n|] eqn:Hm; [|done].
  exists n. split_and!; [done|apply same_identity_refl|done].
Qed.

Lemma only_local_trans (lo : option loc) h1 h2 h3 :
  only_local lo h1 h2 -> only_local lo h2 h3 -> only_local lo h1 h3.
Proof.
  intros H12 H23 m. specialize (H12 m). specialize (H23 m).
  destruct (h1 !! m) as [n|].
  - destruct H12 as (n' & Hn' & Hid & Heq). rewrite Hn' in H23.
    destruct H23 as (n'' & Hn'' & Hid' & Heq'). exists n''. split_and!; [done| |].
    + by eapply same_identity_trans.
    + intros Hne. by rewrite Heq', Heq.
  - by rewrite H12 in H23.
Qed.

Lemma only_local_insert l h (n n1 : Node.Node) :
  h !! l = Some n -> same_identity n n1 -> only_local (Some l) h (<[l := n1]> h).
Proof.
  intros Hl Hid m. destruct (decide (m = l)) as [->|Hne].
  - rewrite Hl, lookup_insert_eq. exists n1. split_and!; [done|done|]. by intros [].
  - rewrite lookup_insert_ne by done. destruct (h !! m) as [n'|]; [|done].
    exists n'. split_and!; [done|apply same_identity_refl|done].
Qed.

Lemma only_local_localPrepare (J : Node.Json) txID (payload : Node.Payload) l w :
  only_local (Some l) (heap w) (heap (localPrepare J txID payload l w).2).
Proof.
  unfold localPrepare. destruct (heap w !! l) as [n|] eqn:Hl; [|apply only_local_refl].
  pose proof (Prepare_identity J txID payload n (dblog w)) as Hid.
  destruct (Node.Prepare J txID payload n (dblog w)) as [[r n1] log1]. simpl in *.
  by apply (only_local_insert l (heap w) n n1).
Qed.

Lemma only_local_localCommit txID l w :
  only_local (Some l) (heap w) (heap (localCommit txID l w).2).
Proof.
  unfold localCommit. destruct (heap w !! l) as [n|] eqn:Hl; [|apply only_local_refl].
  pose proof (Commit_identity txID n (dblog w)) as [Hid _].
  destruct (Node.Commit txID n (dblog w)) as [[r n1] log1]. simpl in *.
  by apply (only_local_insert l (heap w) n n1).
Qed.

Lemma only_local_localAbort txID l w :
  only_local (Some l) (heap w) (heap (localAbort txID l w).2).
Proof.
  unfold localAbort. destruct (heap w !! l) as [n|] eqn:Hl; [|apply only_local_refl].
  pose proof (Abort_identity txID n (dblog w)) as Hid.
  destruct (Node.Abort txID n (dblog w)) as [[r n1] log1]. simpl in *.
  by apply (only_local_insert l (heap w) n n1).
Qed.

(** The heap and the database log after each phase are those after its
    local call, if it makes one. *)
Lemma prepareTransaction_world (J : Node.Json) co txID (payload : Node.Payload)
    (ps : list loc) w :
  let pt := prepareTransaction J co txID payload ps w in
  match localNode co with
  | Some l =>
      heap pt.2 = heap (localPrepare J txID payload l w).2 /\
      dblog pt.2 = dblog (localPrepare J txID payload l w).2 /\
      includeLocal pt.1 = true /\
      localPrepared pt.1 =
        (localPrepare J txID payload l w).1.1 && isNone (localPrepare J txID payload l w).1.2
  | None =>
      heap pt.2 = heap w /\ dblog pt.2 = dblog w /\
      includeLocal pt.1 = false /\ localPrepared pt.1 = false
  end.
Proof.
  unfold prepareTransaction. destruct (localNode co) as [l|].
  - destruct (localPrepare J txID payload l w) as [[ready err] w1]. simpl.
    destruct (ready && isNone err);
      destruct (preparePhase (client co) txID payload (heap w1) ps (trace w1));
      by rewrite collect_spec.
  - destruct (preparePhase (client co) txID payload (heap w) ps (trace w)).
    by rewrite collect_spec.
Qed.

Lemma commitTransaction_world co txID (o : prepareOutcome) w :
  let ct := commitTransaction co txID o w in
  match localNode co with
  | Some l =>
      if includeLocal o && localPrepared o
      then heap ct.2 = heap (localCommit txID l w).2 /\
           dblog ct.2 = dblog (localCommit txID l w).2 /\
           (ct.1.1 = true -> (localCommit txID l w).1 = None)
      else heap ct.2 = heap w /\ dblog ct.2 = dblog w
  | None => heap ct.2 = heap w /\ dblog ct.2 = dblog w
  end /\
  ct.1.2 = (length (preparedRemotes o) +
            (if includeLocal o && localPrepared o then 1 else 0))%nat.
Proof.
  unfold commitTransaction. destruct (localNode co) as [l|].
  - destruct (includeLocal o && localPrepared o).
    + destruct (localCommit txID l w) as [err w1]. simpl.
      destruct (commitPhase (client co) txID (preparedRemotes o) (trace w1)). simpl.
      split_and!; try done. rewrite foldl_commitSuccess.
      intros [? _]%andb_true_iff. by destruct err.
    + by destruct (commitPhase (client co) txID (preparedRemotes o) (trace w)).
  - by destruct (commitPhase (client co) txID (preparedRemotes o) (trace w)).
Qed.

Lemma abortTransaction_world co txID (o : prepareOutcome) (addrs : list string) w :
  let w2 := abortTransaction co txID o addrs w in
  match localNode co with
  | Some l =>
      if includeLocal o && localPrepared o
      then heap w2 = heap (localAbort txID l w).2 /\ dblog w2 = dblog (localAbort txID l w).2
      else heap w2 = heap w /\ dblog w2 = dblog w
  | None => heap w2 = heap w /\ dblog w2 = dblog w
  end.
Proof.
  unfold abortTransaction. destruct (localNode co) as [l|].
  - destruct (includeLocal o && localPrepared o).
    + by destruct (abortPhase (client co) txID addrs (trace (localAbort txID l w).2)).
    + by destruct (abortPhase (client co) txID addrs (trace w)).
  - by destruct (abortPhase (client co) txID addrs (trace w)).
Qed.

Lemma only_local_alive (lo : option loc) h h' m :
  only_local lo h h' -> aliveAt h' m = aliveAt h m /\ roleAt h' m = roleAt h m /\
                        addrAt h' m = addrAt h m.
Proof.
  intros Ho. specialize (Ho m). unfold aliveAt, roleAt, addrAt.
  destruct (h !! m) as [n|].
  - destruct Ho as (n' & -> & (Ha & Hr & Hal & _) & _). simpl.
    unfold Node.GetAlive, Node.GetRole. by rewrite Ha, Hr, Hal.
  - by rewrite Ho.
Qed.

(** X20.  An Execute works on the coordinator's own node and on nothing
    else of the process: it allocates and drops no node; every node keeps
    its address, role, liveness and database; every node other than the
    local one is untouched; without a local node the heap and the database
    log are as before.  So the followers and the live nodes of any
    membership table are the same before and after. *)
Theorem Execute_frame (J : Node.Json) co txID (payload : Node.Payload) (ps : list loc) w :
  let r := ExecuteOn J co txID payload ps w in
  only_local (localNode co) (heap w) (heap r.2) /\
  (localNode co = None -> heap r.2 = heap w /\ dblog r.2 = dblog w) /\
  (forall c, GetSlaveNodes (heap r.2) c = GetSlaveNodes (heap w) c /\
             GetAliveNodes (heap r.2) c = GetAliveNodes (heap w) c).
Proof.
  cbv zeta.
  assert (only_local (localNode co) (heap w) (heap (ExecuteOn J co txID payload ps w).2) /\
          (localNode co = None ->
           heap (ExecuteOn J co txID payload ps w).2 = heap w /\
           dblog (ExecuteOn J co txID payload ps w).2 = dblog w)) as [Ho Hnone].
  { unfold ExecuteOn. case_bool_decide; [split; [apply only_local_refl|done]|].
    pose proof (prepareTransaction_world J co txID payload ps w) as Hpt.
    destruct (prepareTransaction J co txID payload ps w) as [o w1]. simpl in Hpt.
    case_bool_decide.
    - pose proof (abortTransaction_world co txID o (addrAt (heap w) <$> ps) w1) as Hab.
      simpl in *. destruct (localNode co) as [l|].
      + destruct Hpt as (Hh & _ & _ & _). split; [|done].
        destruct (includeLocal o && localPrepared o); destruct Hab as [-> _].
        * eapply only_local_trans; [|apply only_local_localAbort].
          rewrite Hh. apply only_local_localPrepare.
        * rewrite Hh. apply only_local_localPrepare.
      + destruct Hpt as (Hh & Hd & _), Hab as [-> ->]. rewrite Hh, Hd.
        split; [apply only_local_refl|done].
    - pose proof (commitTransaction_world co txID o w1) as [Hct _].
      destruct (commitTransaction co txID o w1) as [[ok total] w2]. simpl in *.
      assert (only_local (localNode co) (heap w) (heap w2) /\
              (localNode co = None -> heap w2 = heap w /\ dblog w2 = dblog w)) as Hres.
      { destruct (localNode co) as [l|].
        + destruct Hpt as (Hh & _ & _ & _). split; [|done].
          destruct (includeLocal o && localPrepared o).
          * destruct Hct as (-> & _ & _).
            eapply only_local_trans; [|apply only_local_localCommit].
            rewrite Hh. apply only_local_localPrepare.
          * destruct Hct as [-> _]. rewrite Hh. apply only_local_localPrepare.
        + destruct Hpt as (Hh & Hd & _), Hct as [-> ->]. rewrite Hh, Hd.
          split; [apply only_local_refl|done]. }
      by destruct ok. }
  split_and!; [done|done|].
  intros c. unfold GetSlaveNodes, GetAliveNodes. split.
  - apply list_filter_iff. intros m.
    destruct (only_local_alive _ _ _ m Ho) as (-> & -> & _). done.
  - apply list_filter_iff. intros m.
    destruct (only_local_alive _ _ _ m Ho) as (-> & _). done.
Qed.

(** X21.  The response of an Execute has a message exactly when it
    succeeded and an error exactly when it failed: on success the error is
    empty, no Prepare had failed and the message counts every participant,
    the local node included; on failure the message is empty and the error
    is not. *)
Theorem response_shape (J : Node.Json) co txID (payload : Node.Payload) (ps : list loc) w :
  let pt := prepareTransaction J co txID payload ps w in
  let r := ExecuteOn J co txID payload ps w in
  TransactionResponse.TransactionID r.1 = txID /\
  (TransactionResponse.Success r.1 = true ->
     TransactionResponse.Error r.1 = EmptyString /\
     failedNodes pt.1 = [] /\
     TransactionResponse.Message r.1 =
       "Transaction committed on " +:+ Strs.Itoa (totalParticipants co ps) +:+ " nodes") /\
  (TransactionResponse.Success r.1 = false ->
     TransactionResponse.Message r.1 = EmptyString /\
     TransactionResponse.Error r.1 <> EmptyString).
Proof.
  cbv zeta. unfold ExecuteOn. case_bool_decide as Htotal; [by split_and!|].
  destruct (prepareTransaction_spec J co txID payload ps w)
    as (failedRemotes & pre & _ & Hincl & _ & Hfail & _ & Hall & _).
  destruct (prepareTransaction J co txID payload ps w) as [o w1]. simpl in *.
  case_bool_decide as Hfailed; [by split_and!|].
  assert (failedNodes o = []) as Hnil by (destruct (failedNodes o); [done|simpl in *; lia]).
  pose proof (commitTransaction_world co txID o w1) as [_ Hcount].
  destruct (commitTransaction co txID o w1) as [[ok total] w2]. simpl in *.
  destruct ok; simpl; [|by split_and!].
  split_and!; try done. intros _. split_and!; try done.
  rewrite Hnil in Hfail. symmetry in Hfail. apply app_eq_nil in Hfail as [Hlocal ->].
  rewrite (Hall eq_refl), length_fmap in Hcount.
  rewrite Hcount, Hincl. unfold totalParticipants.
  destruct (localNode co) as [l|]; [|done].
  by destruct (localPrepared o).
Qed.

(** X22.  The coordinator's own node after an Execute that succeeded: the
    id was not pending on it before, it is not pending on it after, the
    pending payloads are what they were, and the state is COMMIT. *)
Theorem local_node_after_Execute (J : Node.Json) co txID (payload : Node.Payload)
    (ps : list loc) w l (n : Node.Node) :
  localNode co = Some l ->
  heap w !! l = Some n ->
  let r := ExecuteOn J co txID payload ps w in
  exists n', heap r.2 !! l = Some n' /\
    (TransactionResponse.Success r.1 = true ->
       Node.pendingData n !! txID = None /\
       Node.pendingData n' = Node.pendingData n /\
       Node.HasPendingTransaction txID n' = false /\
       Node.TxState n' = StateCommit).
Proof.
  intros Hloc Hn. cbv zeta.
  pose proof (prepareTransaction_world J co txID payload ps w) as Hpt.
  destruct (prepareTransaction_spec J co txID payload ps w)
    as (failedRemotes & pre & _ & _ & _ & Hfail & _).
  unfold ExecuteOn. rewrite Hloc in *.
  rewrite bool_decide_eq_false_2 by lia.
  destruct (prepareTransaction J co txID payload ps w) as [o w1]. simpl in *.
  destruct Hpt as (Hh & Hd & Hincl & Hprepared).
  unfold localPrepare in Hh, Hd, Hprepared. rewrite Hn in Hh, Hd, Hprepared.
  pose proof (Prepare_cases J txID payload n (dblog w)) as Hcases.
  destruct (Node.Prepare J txID payload n (dblog w)) as [[[ready err] n1] log1].
  simpl in *.
  assert (heap w1 !! l = Some n1) as Hl1 by (by rewrite Hh, lookup_insert_eq).
  case_bool_decide as Hfailed.
  - pose proof (abortTransaction_world co txID o (addrAt (heap w) <$> ps) w1) as Hab.
    rewrite Hloc, Hincl in Hab. simpl in *.
    destruct (localPrepared o) eqn:Hlp.
    + destruct Hab as [-> _]. unfold localAbort. rewrite Hl1.
      destruct (Node.Abort txID n1 (dblog w1)) as [[e n2] log2]. simpl.
      exists n2. rewrite lookup_insert_eq. by split_and!.
    + destruct Hab as [-> _]. exists n1. by split_and!.
  - assert (failedNodes o = []) as Hnil
      by (destruct (failedNodes o); [done|simpl in *; lia]).
    rewrite Hnil in Hfail.
    assert (localPrepared o = true) as Hlp.
    { destruct (localPrepared o); [done|]. by destruct failedRemotes. }
    pose proof (commitTransaction_world co txID o w1) as [Hct _].
    rewrite Hloc, Hincl, Hlp in Hct. simpl in Hct.
    destruct (commitTransaction co txID o w1) as [[ok total] w2]. simpl in *.
    destruct Hct as (Hh2 & _ & Hok).
    unfold localCommit in Hh2, Hok. rewrite Hl1 in Hh2, Hok.
    pose proof (Commit_pendingData txID n1 (dblog w1)) as Hcd.
    pose proof (Commit_identity txID n1 (dblog w1)) as [_ Hcs].
    destruct (Node.Commit txID n1 (dblog w1)) as [[e n2] log2]. simpl in *.
    exists n2. split.
    { destruct ok; simpl; by rewrite Hh2, lookup_insert_eq. }
    destruct ok; simpl; [intros _|done].
    specialize (Hok eq_refl). subst e. specialize (Hcs eq_refl).
    rewrite Hlp in Hprepared. symmetry in Hprepared.
    apply andb_true_iff in Hprepared as [-> _].
    assert (Node.pendingData n !! txID = None /\
            Node.pendingData n1 = <[txID := payload]> (Node.pendingData n)) as [Hfree Hins].
    { destruct Hcases as [(? & _)|[(Hp & _ & Hr)|(Hp & Hr)]]; [done| |].
      - assert (n1 = Node.setTx StateReady (Node.pendingTx n)
                       (<[txID := payload]> (Node.pendingData n)) n) as -> by congruence.
        done.
      - destruct Hr as (d & n0 & log0 & hd & ? & ? & ? & ? & _ & He & _ & _ & _ & _ & Hr).
        assert (n1 = Node.setTx StateReady (<[txID := mkOpenTx d hd]> (Node.pendingTx n0))
                       (<[txID := payload]> (Node.pendingData n0)) n0) as -> by congruence.
        destruct (ensureSchema_fields n (dblog w)) as (_ & _ & Hdata & _).
        rewrite He in Hdata. simpl in *. by rewrite Hdata. }
    split_and!; [done| | |done].
    + by rewrite Hcd, Hins, delete_insert_eq, delete_id.
    + unfold Node.HasPendingTransaction. apply bool_decide_eq_false.
      rewrite Hcd, lookup_delete_eq. by intros [? ?].
Qed.

(** The theorem on the leader [a:1] of scenario 1 with both followers
    answering READY. *)
Lemma local_node_after_Execute_witness :
  let co := Scenario.leader Scenario.readyClient in
  let w := Scenario.world Scenario.elected in
  let r := Execute Scenario.plainJson co "tx-1" (Node.PayloadAction Scenario.insertAlice) w in
  TransactionResponse.Success r.1 = true /\
  exists n', heap r.2 !! 1%nat = Some n' /\ Node.TxState n' = StateCommit.
Proof.
  intros co w r. split; [vm_compute; reflexivity|].
  destruct (local_node_after_Execute Scenario.plainJson co "tx-1"
              (Node.PayloadAction Scenario.insertAlice)
              (GetSlaveNodes (heap w) (cluster co)) w 1%nat
              (Node.SetRole RoleMaster (Node.NewNode "a:1" RoleSlave)))
    as (n' & Hn' & Hok); [reflexivity|vm_compute; reflexivity|].
  exists n'. split; [exact Hn'|].
  by destruct Hok as (_ & _ & _ & ?); [vm_compute; reflexivity|].
Defined.

End execute_frame.

(** * The HTTP client and the server of a node *)

Section transport.
Import Protocol Transport Spec.

Context {S : Type}.
Implicit Types (do : S -> (error + Response) * S) (st : S) (ev : list Event).
Implicit Types (c : HTTPClient).

Lemma attempts_app (e1 e2 : list Event) : attempts (e1 ++ e2) = (attempts e1 + attempts e2)%nat.
Proof. unfold attempts. by rewrite filter_app, length_app. Qed.

Lemma sleeps_app (e1 e2 : list Event) : sleeps (e1 ++ e2) = (sleeps e1 + sleeps e2)%nat.
Proof. unfold sleeps. by rewrite filter_app, length_app. Qed.

Lemma retryLoop_S do (delay : Z) (k : nat) (lastErr : option error) st ev :
  retryLoop do delay (Datatypes.S k) lastErr st ev =
  let '(answer, st1) := do st in
  let ev1 := ev ++ [Attempt] in
  let retry (lastErr : option error) (ev2 : list Event) :=
    if bool_decide (k = 0%nat) then ((None, lastErr), st1, ev2)
    else retryLoop do delay k lastErr st1
           (if (0 <? delay)%Z then ev2 ++ [Sleep delay] else ev2) in
  match answer with
  | inr resp =>
      if (StatusCode resp <? StatusInternalServerError)%nat
      then ((Some resp, None), st1, ev1)
      else retry (Some ("transient status: " +:+ Strs.Itoa (StatusCode resp)))
                 (ev1 ++ [Drain])
  | inl err => retry (Some err) ev1
  end.
Proof. reflexivity. Qed.

Lemma answers_S do st (k : nat) :
  answers do st (Datatypes.S k) = do st :: answers do (do st).2 k.
Proof. reflexivity. Qed.

Lemma length_answers do (k : nat) : forall st, length (answers do st k) = k.
Proof. induction k as [|k IH]; intros st; simpl; [done|]. by rewrite IH. Qed.

(** One more request in front: a transient failure, after which the loop
    goes on from the state it left. *)
Lemma retry_result_later do st (a : error + Response) st1 (n m : nat)
    (r : (option Response * option error) * S) :
  do st = (a, st1) -> transient a -> (1 <= m)%nat ->
  retry_result do st1 n m r ->
  retry_result do st (Datatypes.S n) (Datatypes.S m) r.
Proof.
  intros Hdo Htr Hm (a' & st' & Hlast & Hst & Hall & Hres).
  exists a', st'. rewrite answers_S, Hdo. simpl.
  destruct m as [|m]; [lia|]. split_and!.
  - rewrite answers_S in *. done.
  - done.
  - simpl in Hall. rewrite Nat.sub_0_r in *. rewrite answers_S in *.
    simpl. constructor; [done|]. destruct m; [by constructor|]. done.
  - destruct Hres as [Hok|(Ht & -> & Hr)]; [by left|right]. done.
Qed.

(** A single request that ends the loop. *)
Lemma retry_result_last do st (a : error + Response) st1 (n : nat)
    (res : option Response * option error) :
  do st = (a, st1) ->
  ((~ transient a /\ exists resp, a = inr resp /\ res = (Some resp, None)) \/
   (transient a /\ 1%nat = n /\ res = (None, Some (errorOf a)))) ->
  retry_result do st n 1 (res, st1).
Proof.
  intros Hdo Hres. exists a, st1. simpl. rewrite Hdo. split_and!; try done.
Qed.

Lemma retry_outcome_later do st (a : error + Response) st1 (k : nat) (delay : Z) ev
    (pre : list Event) (r : (option Response * option error) * S * list Event) :
  do st = (a, st1) -> transient a ->
  attempts pre = 1%nat -> sleeps pre = 0%nat ->
  retry_outcome do st1 k delay
    (if (0 <? delay)%Z then (ev ++ pre) ++ [Sleep delay] else ev ++ pre) r ->
  retry_outcome do st (Datatypes.S k) delay ev r.
Proof.
  intros Hdo Htr Hat Hsl (ext & Hev & Hatt & Hsleeps & (ext' & Hlast) & Hres & Hresult).
  exists (pre ++ (if (0 <? delay)%Z then [Sleep delay] else []) ++ ext).
  assert (attempts (pre ++ (if (0 <? delay)%Z then [Sleep delay] else []) ++ ext) =
          Datatypes.S (attempts ext)) as Hcount.
  { rewrite !attempts_app, Hat. by destruct (0 <? delay)%Z. }
  refine (conj _ (conj _ (conj _ (conj _ (conj _ _))))).
  - rewrite Hev. destruct (0 <? delay)%Z; by rewrite <- ?app_assoc.
  - rewrite Hcount. lia.
  - rewrite Hcount, !sleeps_app, Hsl, Hsleeps.
    destruct (0 <? delay)%Z; simpl; lia.
  - exists (pre ++ (if (0 <? delay)%Z then [Sleep delay] else []) ++ ext').
    destruct Hlast as [->| ->]; [left|right]; by rewrite <- !app_assoc.
  - destruct r as [[[[resp|] [e|]] st'] ev']; simpl in *; try done.
    rewrite Hcount. lia.
  - rewrite Hcount. eapply retry_result_later; [done|done|lia|done].
Qed.

Lemma retry_outcome_last do st (a : error + Response) st1 (k : nat) (delay : Z) ev
    (ext : list Event) (res : option Response * option error) :
  do st = (a, st1) ->
  attempts ext = 1%nat -> sleeps ext = 0%nat ->
  (ext = [Attempt] \/ ext = [Attempt; Drain]) ->
  ((~ transient a /\ exists resp, a = inr resp /\ res = (Some resp, None)) \/
   (transient a /\ k = 0%nat /\ res = (None, Some (errorOf a)))) ->
  retry_outcome do st k delay ev (res, st1, ev ++ ext).
Proof.
  intros Hdo Hat Hsl Hlast Hres. exists ext.
  refine (conj _ (conj _ (conj _ (conj _ (conj _ _))))).
  - done.
  - lia.
  - rewrite Hat, Hsl. by destruct (0 <? delay)%Z.
  - exists []. by destruct Hlast as [->| ->]; [left|right].
  - simpl. destruct Hres as [(Hnt & resp & -> & ->)|(_ & -> & ->)]; [|by rewrite Hat].
    simpl in Hnt. unfold StatusInternalServerError. lia.
  - simpl. rewrite Hat. apply (retry_result_last do st a); [done|].
    destruct Hres as [?|(? & -> & ?)]; [by left|by right].
Qed.

Lemma retryLoop_spec do (delay : Z) (k : nat) :
  forall (lastErr : option error) st ev,
    retry_outcome do st k delay ev (retryLoop do delay (Datatypes.S k) lastErr st ev).
Proof.
  induction k as [|k IH]; intros lastErr st ev; rewrite retryLoop_S;
    destruct (do st) as [[err|resp] st1] eqn:Hdo; cbv zeta.
  - rewrite bool_decide_eq_true_2 by done.
    apply (retry_outcome_last do st (inl err)); [done|done|done|by left|by right].
  - destruct (StatusCode resp <? StatusInternalServerError)%nat eqn:Hcode.
    + apply Nat.ltb_lt in Hcode. unfold StatusInternalServerError in Hcode.
      apply (retry_outcome_last do st (inr resp)); [done|done|done|by left|left].
      split; [simpl; lia|by eauto].
    + apply Nat.ltb_ge in Hcode. unfold StatusInternalServerError in Hcode.
      rewrite bool_decide_eq_true_2 by done. rewrite <- app_assoc.
      apply (retry_outcome_last do st (inr resp)); [done|done|done|by right|by right].
  - rewrite bool_decide_eq_false_2 by done.
    apply (retry_outcome_later do st (inl err) st1 k delay ev [Attempt]);
      [done|done|done|done|apply IH].
  - destruct (StatusCode resp <? StatusInternalServerError)%nat eqn:Hcode.
    + apply Nat.ltb_lt in Hcode. unfold StatusInternalServerError in Hcode.
      apply (retry_outcome_last do st (inr resp)); [done|done|done|by left|left].
      split; [simpl; lia|by eauto].
    + apply Nat.ltb_ge in Hcode. unfold StatusInternalServerError in Hcode.
      rewrite bool_decide_eq_false_2 by done.
      apply (retry_outcome_later do st (inr resp) st1 k delay ev [Attempt; Drain]);
        [done|done|done|done|].
      rewrite <- (app_assoc ev [Attempt] [Drain]). apply IH.
Qed.

(** X23.  The retry discipline of doWithRetry, with [n] the attempt count
    it computes: if [n] is not positive no request is made and both
    results are nil; otherwise at least one and at most [n] requests are
    made, one after the other, the last thing done is a request or the
    draining of its answer, never a sleep, and there is one sleep between
    consecutive requests exactly when the delay is positive.  Every
    request before the last failed transiently (a transport error or a
    status of 500 or above).  The result is either the response of the
    last request, whose status is below 500, with no error, or a nil
    response with the error of the last request -- its transport error, or
    "transient status: " and its status -- and the latter only after all
    [n] requests. *)
Theorem doWithRetry_discipline c do st ev :
  let n := wrap64 (maxRetries c + 1) in
  let r := doWithRetry c do st ev in
  ((n <= 0)%Z -> r = ((None, None), st, ev)) /\
  ((0 < n)%Z ->
   exists ext,
     r.2 = ev ++ ext /\
     (1 <= attempts ext)%nat /\ (Z.of_nat (attempts ext) <= n)%Z /\
     sleeps ext = (if (0 <? retryDelay c)%Z then attempts ext - 1 else 0)%nat /\
     (exists ext', ext = ext' ++ [Attempt] \/ ext = ext' ++ [Attempt; Drain]) /\
     match r.1.1 with
     | (Some resp, None) => (StatusCode resp < StatusInternalServerError)%nat
     | (None, Some _) => Z.of_nat (attempts ext) = n
     | _ => False
     end /\
     retry_result do st (Z.to_nat n) (attempts ext) r.1).
Proof.
  cbv zeta. unfold doWithRetry. split.
  - intros Hn. by rewrite Z2Nat.nonpos.
  - intros Hn.
    destruct (Z.to_nat (wrap64 (maxRetries c + 1))) as [|k] eqn:Hk; [lia|].
    destruct (retryLoop_spec do (retryDelay c) k None st ev)
      as (ext & Hev & Hatt & Hsl & Hlast & Hres & Hresult).
    exists ext. refine (conj _ (conj _ (conj _ (conj _ (conj _ (conj _ _)))))); try done; try lia.
    destruct (retryLoop do (retryDelay c) (Datatypes.S k) None st ev)
      as [[[[resp|] [e|]] st'] ev']; simpl in *; try done. lia.
Qed.

(** X24.  How a client is configured: NewHTTPClient makes exactly one
    request per call and never sleeps; WithRetry replaces a negative
    retry count or delay by zero, and with a count [k] below the largest
    64-bit integer a call makes at most [max k 0 + 1] requests; with that
    largest integer the attempt count wraps around and a call makes no
    request at all. *)
Theorem client_configuration do st ev (k d : Z) c :
  (exists ext,
     (doWithRetry NewHTTPClient do st ev).2 = ev ++ ext /\
     attempts ext = 1%nat /\ sleeps ext = 0%nat) /\
  maxRetries (WithRetry k d c) = Z.max k 0 /\
  retryDelay (WithRetry k d c) = Z.max d 0 /\
  ((k < 2 ^ 63 - 1)%Z ->
   exists ext,
     (doWithRetry (WithRetry k d c) do st ev).2 = ev ++ ext /\
     (1 <= Z.of_nat (attempts ext) <= Z.max k 0 + 1)%Z) /\
  (k = (2 ^ 63 - 1)%Z ->
   doWithRetry (WithRetry k d c) do st ev = ((None, None), st, ev)).
Proof.
  assert (maxRetries (WithRetry k d c) = Z.max k 0) as Hk.
  { unfold WithRetry. simpl. destruct (k <? 0)%Z eqn:E; [apply Z.ltb_lt in E|apply Z.ltb_ge in E]; lia. }
  split_and!.
  - unfold doWithRetry.
    change (Z.to_nat (wrap64 (maxRetries NewHTTPClient + 1))) with 1%nat.
    destruct (retryLoop_spec do (retryDelay NewHTTPClient) 0 None st ev)
      as (ext & Hev & Hatt & Hsl & _).
    exists ext. refine (conj _ (conj _ _)); [done|lia|].
    rewrite Hsl. destruct (0 <? retryDelay NewHTTPClient)%Z; lia.
  - done.
  - unfold WithRetry. simpl.
    destruct (d <? 0)%Z eqn:E; [apply Z.ltb_lt in E|apply Z.ltb_ge in E]; lia.
  - intros Hlt. unfold doWithRetry. rewrite Hk.
    assert (wrap64 (Z.max k 0 + 1) = Z.max k 0 + 1)%Z as ->.
    { unfold wrap64.
      rewrite Z.mod_small by lia. lia. }
    destruct (Z.to_nat (Z.max k 0 + 1)) as [|j] eqn:Hj; [lia|].
    destruct (retryLoop_spec do (retryDelay (WithRetry k d c)) j None st ev)
      as (ext & Hev & Hatt & _).
    exists ext. split; [done|]. lia.
  - intros ->. unfold doWithRetry. rewrite Hk.
    change (Z.to_nat (wrap64 (Z.max (2 ^ 63 - 1) 0 + 1))) with 0%nat. done.
Qed.

End transport.

Section wire.
Import Protocol Transport Spec.

Implicit Types (n : Node.Node) (log : list DbCall) (ev : list Event).

Lemma doWithRetry_once {S : Type} (do : S -> (error + Response) * S) (st : S) ev :
  doWithRetry NewHTTPClient do st ev =
  match do st with
  | (inr resp, st1) =>
      if (StatusCode resp <? StatusInternalServerError)%nat
      then ((Some resp, None), st1, ev ++ [Attempt])
      else ((None, Some ("transient status: " +:+ Strs.Itoa (StatusCode resp))), st1,
            (ev ++ [Attempt]) ++ [Drain])
  | (inl err, st1) => ((None, Some err), st1, ev ++ [Attempt])
  end.
Proof.
  unfold doWithRetry.
  change (Z.to_nat (wrap64 (maxRetries NewHTTPClient + 1))) with 1%nat.
  rewrite retryLoop_S. destruct (do st) as [[err|resp] st1]; cbv zeta; [done|].
  by destruct (StatusCode resp <? StatusInternalServerError)%nat.
Qed.

(** X25.  A Prepare sent by the client as the coordinator builds it, over
    a connection to the server of a node: the node's Prepare runs once on
    the request as sent.  If it succeeds the client returns the READY
    response and no error.  If it fails, the server answers ABORT with
    status 500, which the client takes for a transient failure: it drains
    the answer and returns no response and the error [transient status:
    500], so the node's own error text does not reach the caller. *)
Theorem Prepare_over_the_wire (J : Node.Json) (W : Wire) (addr : string)
    (req : PrepareRequest) (body : string) n log ev :
  MarshalPrepareRequest W req = inr body ->
  delivers W req ->
  faithful_wire W ->
  let p := Node.Prepare J (TransactionID req) (Payload req) n log in
  let r := Transport.Prepare W NewHTTPClient (direct J W) addr req (n, log) ev in
  r.1.2 = (p.1.2, p.2) /\
  (p.1.1.1 = true /\ p.1.1.2 = None ->
     r.1.1 = (Some (PrepareResponse.mk StatusReady EmptyString), None) /\
     r.2 = ev ++ [Attempt]) /\
  (~ (p.1.1.1 = true /\ p.1.1.2 = None) ->
     r.1.1 = (None, Some "transient status: 500") /\
     r.2 = ev ++ [Attempt; Drain]).
Proof.
  intros Hbody Hdel (_ & _ & Hready & _). cbv zeta.
  unfold Transport.Prepare, postJSON. rewrite Hbody, doWithRetry_once.
  unfold direct, handlePrepare. simpl. unfold Strs.eqb.
  rewrite ?bool_decide_eq_true_2 by done. simpl.
  rewrite (Hdel body Hbody).
  destruct (Node.Prepare J (TransactionID req) (Payload req) n log)
    as [[[ready err] n1] log1]. simpl.
  destruct ready, err as [e|]; simpl.
  - split_and!; [done|by intros [_ ?]|]. intros _. by rewrite <- app_assoc.
  - rewrite Hready. split_and!; [done|done|]. intros Hno. by destruct Hno.
  - split_and!; [done|by intros [? _]|]. intros _. by rewrite <- app_assoc.
  - split_and!; [done|by intros [? _]|]. intros _. by rewrite <- app_assoc.
Qed.

(** The theorem on scenario 3, with and without the database. *)
Lemma Prepare_over_the_wire_witness :
  let req := mkPrepareRequest "tx-1" (Node.PayloadAction Scenario.insertAlice) in
  (Transport.Prepare Scenario.letterWire NewHTTPClient
     (direct Scenario.plainJson Scenario.letterWire) "b:2" req (Scenario.dbNode, []) []).1.1 =
    (Some (PrepareResponse.mk StatusReady EmptyString), None) /\
  (Transport.Prepare Scenario.letterWire NewHTTPClient
     (direct Scenario.plainJson Scenario.letterWire) "b:2" req (Scenario.downNode, []) []).1.1 =
    (None, Some "transient status: 500").
Proof.
  intros req.
  assert (delivers Scenario.letterWire req) as Hdel by (by intros body [= <-]).
  assert (faithful_wire Scenario.letterWire) as Hwire.
  { split_and!; try done; by intros txID body [= <-]. }
  split.
  - destruct (Prepare_over_the_wire Scenario.plainJson Scenario.letterWire "b:2" req "tx-1"
                Scenario.dbNode [] [] eq_refl Hdel Hwire) as (_ & Hok & _).
    apply Hok. split; vm_compute; reflexivity.
  - destruct (Prepare_over_the_wire Scenario.plainJson Scenario.letterWire "b:2" req "tx-1"
                Scenario.downNode [] [] eq_refl Hdel Hwire) as (_ & _ & Hfail).
    apply Hfail. intros [Hready _]. vm_compute in Hready. discriminate Hready.
Defined.

(** X26.  Commit and Abort over the same connection: the node's Commit,
    respectively Abort, runs once; the client returns the response of
    success and no error when it returned nil, and otherwise no response
    and the error [transient status: 500], whatever the node's error
    was. *)
Theorem finish_over_the_wire (J : Node.Json) (W : Wire) (addr txID : string) n log ev :
  faithful_wire W ->
  (forall body, MarshalCommitRequest W txID = inr body ->
     let c := Node.Commit txID n log in
     let r := Transport.Commit W NewHTTPClient (direct J W) addr txID (n, log) ev in
     r.1.2 = (c.1.2, c.2) /\
     r.1.1 = (if c.1.1 is None then (Some (CommitResponse.mk true EmptyString), None)
              else (None, Some "transient status: 500"))) /\
  (forall body, MarshalAbortRequest W txID = inr body ->
     let a := Node.Abort txID n log in
     let r := Transport.Abort W NewHTTPClient (direct J W) addr txID (n, log) ev in
     r.1.2 = (a.1.2, a.2) /\
     r.1.1 = (if a.1.1 is None then (Some (AbortResponse.mk true EmptyString), None)
              else (None, Some "transient status: 500"))).
Proof.
  intros (Hc & Ha & _ & Hcr & Har). split.
  - intros body Hbody. cbv zeta.
    unfold Transport.Commit, postJSON. rewrite Hbody, doWithRetry_once.
    unfold direct, handleCommit. simpl. unfold Strs.eqb.
    rewrite ?(bool_decide_eq_false_2 ("commit" = "prepare")) by done.
    rewrite ?bool_decide_eq_true_2 by done. simpl.
    rewrite (Hc txID body Hbody).
    destruct (Node.Commit txID n log) as [[[e|] n1] log1]; simpl; [done|].
    by rewrite Hcr.
  - intros body Hbody. cbv zeta.
    unfold Transport.Abort, postJSON. rewrite Hbody, doWithRetry_once.
    unfold direct, handleAbort. simpl. unfold Strs.eqb.
    rewrite ?(bool_decide_eq_false_2 ("abort" = "prepare")) by done.
    rewrite ?(bool_decide_eq_false_2 ("abort" = "commit")) by done.
    rewrite ?bool_decide_eq_true_2 by done. simpl.
    rewrite (Ha txID body Hbody).
    destruct (Node.Abort txID n log) as [[[e|] n1] log1]; simpl; [done|].
    by rewrite Har.
Qed.

(** The theorem on the node that holds ["tx-1"] in an open transaction. *)
Lemma finish_over_the_wire_witness :
  (Transport.Commit Scenario.letterWire NewHTTPClient
     (direct Scenario.plainJson Scenario.letterWire) "b:2" "tx-1"
     Scenario.dbPending []).1.1 =
  (Some (CommitResponse.mk true EmptyString), None).
Proof.
  assert (faithful_wire Scenario.letterWire) as Hwire.
  { split_and!; try done; by intros txID body [= <-]. }
  destruct (finish_over_the_wire Scenario.plainJson Scenario.letterWire "b:2" "tx-1"
              Scenario.dbPending.1 Scenario.dbPending.2 [] Hwire) as [Hcommit _].
  destruct (Hcommit "tx-1" eq_refl) as [_ Hres].
  etransitivity; [exact Hres|]. vm_compute. reflexivity.
Defined.

End wire.

(** * The schema check, identifiers, eviction, and who is contacted *)

Section schema_once.
Import Protocol Spec.

Implicit Types (n : Node.Node) (log : list DbCall) (txID : string).

(** X27.  The schema check of a node runs once.  The first Prepare of an
    id that is not pending, on a node with a database, runs it and marks
    it as done; from then on ensureSchema calls the database no more and
    answers what the check answered.  So if the check failed, every later
    Prepare of an id that is not pending fails with that same error and
    touches neither the node nor the database, whatever the database
    would answer by then. *)
Theorem schema_check_once (J : Node.Json) txID (payload : Node.Payload) n log (d : DB) :
  Node.db n = Some d ->
  Node.schemaOnce n = false ->
  Node.pendingData n !! txID = None ->
  let r := Node.Prepare J txID payload n log in
  Node.schemaOnce r.1.2 = true /\
  Node.schemaErr r.1.2 = (Node.ensureSchemaLocked d log).1 /\
  (forall log', Node.ensureSchema r.1.2 log' = (Node.schemaErr r.1.2, r.1.2, log')) /\
  (forall err, (Node.ensureSchemaLocked d log).1 = Some err ->
     r = ((false, Some err), Node.setSchema (Some err) n, (Node.ensureSchemaLocked d log).2) /\
     forall txID' (payload' : Node.Payload) log',
       Node.pendingData n !! txID' = None ->
       Node.Prepare J txID' payload' r.1.2 log' = ((false, Some err), r.1.2, log')).
Proof.
  intros Hd Honce Hp. cbv zeta.
  assert (Node.ensureSchema n log =
          ((Node.ensureSchemaLocked d log).1,
           Node.setSchema (Node.ensureSchemaLocked d log).1 n,
           (Node.ensureSchemaLocked d log).2)) as He.
  { unfold Node.ensureSchema. rewrite Hd, Honce.
    by destruct (Node.ensureSchemaLocked d log). }
  assert (Node.schemaOnce (Node.Prepare J txID payload n log).1.2 = true /\
          Node.schemaErr (Node.Prepare J txID payload n log).1.2 =
            (Node.ensureSchemaLocked d log).1 /\
          Node.db (Node.Prepare J txID payload n log).1.2 = Some d) as (H1 & H2 & H3).
  { unfold Node.Prepare. rewrite Hp, Hd, He.
    destruct (Node.ensureSchemaLocked d log).1 as [err|]; [done|].
    repeat case_match; done. }
  split_and!; [done|done| |].
  - intros log'. unfold Node.ensureSchema. by rewrite H3, H1.
  - intros err Herr.
    assert (Node.Prepare J txID payload n log =
            ((false, Some err), Node.setSchema (Some err) n,
             (Node.ensureSchemaLocked d log).2)) as Hr.
    { unfold Node.Prepare. rewrite Hp, Hd, He, Herr. done. }
    split; [done|]. rewrite Hr. simpl.
    intros txID' payload' log' Hp'. unfold Node.Prepare, Node.ensureSchema. simpl.
    by rewrite Hp', Hd.
Qed.

(** The theorem on a node whose database is down at the first Prepare:
    a later Prepare fails alike without a call. *)
Lemma schema_check_once_witness :
  let r := Node.Prepare Scenario.plainJson "tx-1" (Node.PayloadAction Scenario.insertAlice)
             Scenario.downNode [] in
  Node.Prepare Scenario.plainJson "tx-2" (Node.PayloadAction Scenario.insertAlice) r.1.2 r.2 =
    ((false, Some "connection refused"), r.1.2, r.2).
Proof.
  intros r.
  destruct (schema_check_once Scenario.plainJson "tx-1"
              (Node.PayloadAction Scenario.insertAlice) Scenario.downNode []
              Scenario.downDB eq_refl eq_refl eq_refl) as (_ & _ & _ & Hsticky).
  destruct (Hsticky "connection refused" eq_refl) as [_ Hlater].
  apply Hlater. reflexivity.
Defined.

Lemma lower_plain (r : ascii) :
  Node.identChar r = true ->
  plainChar (Strs.lower_ascii r) = true /\ Node.identChar (Strs.lower_ascii r) = true /\
  Strs.lower_ascii (Strs.lower_ascii r) = Strs.lower_ascii r.
Proof.
  destruct r as [[] [] [] [] [] [] [] []]; vm_compute; intros H;
    first [discriminate H | by split_and!].
Qed.

Lemma plain_not_quote (r : ascii) : plainChar r = true -> r <> ascii_of_nat 34.
Proof. intros H ->. vm_compute in H. discriminate H. Qed.

(** X28.  What safeIdent returns: an identifier as long as the one given,
    made of lower-case letters, digits, underscores and hyphens only, so
    without a double quote, and one that safeIdent returns unchanged. *)
Theorem safeIdent_plain (id ident : string) :
  Node.safeIdent id = inr ident ->
  ident <> EmptyString /\
  String.length ident = String.length id /\
  Node.allChars plainChar ident = true /\
  (forall r, plainChar r = true -> r <> ascii_of_nat 34) /\
  Node.safeIdent ident = inr ident.
Proof.
  intros [[Hne Hall] ->]%safeIdent_inv.
  assert (String.length (Strs.ToLower id) = String.length id /\
          Node.allChars plainChar (Strs.ToLower id) = true /\
          Node.allChars Node.identChar (Strs.ToLower id) = true /\
          Strs.ToLower (Strs.ToLower id) = Strs.ToLower id) as (Hlen & Hplain & Hid & Hidem).
  { clear Hne. unfold Strs.ToLower. induction id as [|r id IH]; [done|].
    simpl in Hall. apply andb_true_iff in Hall as [Hr Hall].
    destruct (IH Hall) as (IH1 & IH2 & IH3 & IH4).
    destruct (lower_plain r Hr) as (Hp & Hi & Hl).
    simpl. rewrite IH1, IH2, IH3, IH4, Hp, Hi, Hl. done. }
  assert (Strs.ToLower id <> EmptyString) as Hne'.
  { destruct id; [done|]. done. }
  split_and!; try done.
  - apply plain_not_quote.
  - rewrite safeIdent_valid by done. by rewrite Hidem.
Qed.

(** The theorem on a table name in mixed case. *)
Lemma safeIdent_plain_witness :
  Node.safeIdent "Users" = inr "users" /\ Node.safeIdent "users" = inr "users".
Proof.
  split; [reflexivity|]. by apply (safeIdent_plain "Users" "users").
Defined.

End schema_once.

Section eviction.
Import Protocol Cluster Spec.

Implicit Types (h : gmap loc Node.Node) (c : Cluster).

(** X29.  When there is no live master, CheckAndElect is an eviction
    followed by the selection step: the same result, nodes and table as
    EvictMaster and then electMasterLocked. *)
Theorem CheckAndElect_evicts h c :
  IsMasterAlive h c = false ->
  CheckAndElect h c = electMasterLocked (EvictMaster h c).1 (EvictMaster h c).2.
Proof.
  unfold IsMasterAlive, CheckAndElect, EvictMaster.
  destruct (master c) as [m|] eqn:Hm.
  - intros ->. simpl. unfold electMasterLocked.
    rewrite (lowestAliveAddrLocked_ext h (setRoleAt m RoleSlave h) (mkCluster (nodes c) None))
      by (intros ?; apply aliveAt_setRoleAt).
    assert (lowestAliveAddrLocked h (mkCluster (nodes c) None) = lowestAliveAddrLocked h c)
      as -> by (by rewrite !lowestAliveAddrLocked_unfold).
    by destruct (Strs.eqb (lowestAliveAddrLocked h c) EmptyString).
  - intros _. simpl. rewrite Hm. simpl. unfold electMasterLocked.
    destruct (Strs.eqb (lowestAliveAddrLocked h c) EmptyString); [|done].
    destruct c. simpl in *. by subst.
Qed.

(** The theorem on scenario 1, which has no master yet. *)
Lemma CheckAndElect_evicts_witness :
  let s := Scenario.three_nodes in
  CheckAndElect (heap s) (cluster s) = electMasterLocked (heap s) (cluster s).
Proof.
  intros s. apply (CheckAndElect_evicts (heap s) (cluster s)). reflexivity.
Defined.

End eviction.

Section contacts.
Import Protocol Cluster Coordinator Spec.

Implicit Types (w : World) (txID : string).

Lemma commitTransaction_trace co txID (o : prepareOutcome) w :
  exists pre,
    trace (commitTransaction co txID o w).2 =
      trace w ++ pre ++ ((fun a => RpcCommit a txID) <$> preparedRemotes o) /\
    (pre = [] \/ pre = [LocalCommit txID]).
Proof.
  unfold commitTransaction.
  assert (forall l, exists pre,
            trace (localCommit txID l w).2 = trace w ++ pre /\
            (pre = [] \/ pre = [LocalCommit txID])) as Hlocal.
  { intros l. unfold localCommit. destruct (heap w !! l) as [n|].
    - destruct (Node.Commit txID n (dblog w)) as [[e n1] log1]. simpl.
      exists [LocalCommit txID]. split; [done|by right].
    - exists []. rewrite app_nil_r. split; [done|by left]. }
  assert (exists pre w1,
            (match localNode co with
             | Some l =>
                 if includeLocal o && localPrepared o
                 then let '(err, w1) := localCommit txID l w in (isNone err, w1)
                 else (true, w)
             | None => (true, w)
             end).2 = w1 /\
            trace w1 = trace w ++ pre /\ (pre = [] \/ pre = [LocalCommit txID]))
    as (pre & w1 & Hw1 & Htr & Hpre).
  { destruct (localNode co) as [l|];
      [destruct (includeLocal o && localPrepared o)|].
    - destruct (Hlocal l) as (pre & Htr & Hpre).
      destruct (localCommit txID l w) as [err w1]. simpl in *. by exists pre, w1.
    - exists [], w. rewrite app_nil_r. split_and!; [done|done|by left].
    - exists [], w. rewrite app_nil_r. split_and!; [done|done|by left]. }
  exists pre. split; [|done].
  destruct (match localNode co with Some _ => _ | None => _ end) as [ok w1'].
  simpl in Hw1. subst w1'.
  pose proof (commitPhase_trace (client co) txID (preparedRemotes o) (trace w1)) as Hc.
  destruct (commitPhase (client co) txID (preparedRemotes o) (trace w1)) as [results tr1].
  simpl in *. by rewrite Hc, Htr, <- app_assoc.
Qed.

Lemma abortTransaction_trace co txID (o : prepareOutcome) (addrs : list string) w :
  exists pre,
    trace (abortTransaction co txID o addrs w) =
      trace w ++ pre ++ ((fun a => RpcAbort a txID) <$> addrs) /\
    (pre = [] \/ pre = [LocalAbort txID]).
Proof.
  unfold abortTransaction.
  assert (exists pre w1,
            match localNode co with
            | Some l =>
                if includeLocal o && localPrepared o then (localAbort txID l w).2 else w
            | None => w
            end = w1 /\
            trace w1 = trace w ++ pre /\ (pre = [] \/ pre = [LocalAbort txID]))
    as (pre & w1 & -> & Htr & Hpre).
  { destruct (localNode co) as [l|];
      [destruct (includeLocal o && localPrepared o)|].
    - unfold localAbort. destruct (heap w !! l) as [n|].
      + destruct (Node.Abort txID n (dblog w)) as [[e n1] log1]. simpl.
        eexists [LocalAbort txID], _. split_and!; [done|done|by right].
      + exists [], w. rewrite app_nil_r. simpl. split_and!; [done|done|by left].
    - exists [], w. rewrite app_nil_r. split_and!; [done|done|by left].
    - exists [], w. rewrite app_nil_r. split_and!; [done|done|by left]. }
  exists pre. split; [|done].
  pose proof (abortPhase_trace (client co) txID addrs (trace w1)) as Ha.
  destruct (abortPhase (client co) txID addrs (trace w1)) as [results tr1].
  simpl in *. by rewrite Ha, Htr, <- app_assoc.
Qed.

(** X30.  Whom an Execute contacts: every call it makes is about the
    transaction id of this Execute, and every call that goes over HTTP
    goes to the address of a node of the table that was alive with the
    role of a follower when the Execute began. *)
Theorem Execute_contacts (J : Node.Json) co txID (payload : Node.Payload) w :
  let r := Execute J co txID payload w in
  exists ext,
    trace r.2 = trace w ++ ext /\
    Forall (fun call =>
              callID call = txID /\
              forall a, rpcAddr call = Some a -> live_follower (heap w) (cluster co) a) ext.
Proof.
  cbv zeta. unfold Execute.
  set (ps := GetSlaveNodes (heap w) (cluster co)).
  assert (forall a, a ∈ addrAt (heap w) <$> ps -> live_follower (heap w) (cluster co) a)
    as Hfollower.
  { intros a (m & -> & Hm)%list_elem_of_fmap.
    unfold ps, GetSlaveNodes in Hm. apply list_elem_of_filter in Hm as [[Hal Hrole] Hin].
    apply elem_of_GetNodes in Hin as [b Hb]. by exists b, m. }
  assert (forall (f : string -> Call) (addrs : list string),
            (forall a, callID (f a) = txID /\ rpcAddr (f a) = Some a) ->
            (forall a, a ∈ addrs -> a ∈ addrAt (heap w) <$> ps) ->
            Forall (fun call =>
                      callID call = txID /\
                      forall a, rpcAddr call = Some a ->
                        live_follower (heap w) (cluster co) a) (f <$> addrs)) as Hrpc.
  { intros f addrs Hf Hsub. apply Forall_fmap, Forall_forall. intros a Ha. simpl.
    destruct (Hf a) as [Hid Haddr]. split; [done|].
    intros a' Ha'. rewrite Haddr in Ha'. injection Ha' as <-. by apply Hfollower, Hsub. }
  assert (forall pre : list Call,
            (pre = [] \/ exists t, (t = LocalPrepare txID \/ t = LocalCommit txID \/
                                    t = LocalAbort txID) /\ pre = [t]) ->
            Forall (fun call =>
                      callID call = txID /\
                      forall a, rpcAddr call = Some a ->
                        live_follower (heap w) (cluster co) a) pre) as Hlocal.
  { intros pre [->|(t & Ht & ->)]; [constructor|].
    constructor; [|constructor]. by destruct Ht as [->|[->| ->]]. }
  unfold ExecuteOn. case_bool_decide as Htotal.
  { exists []. by rewrite app_nil_r. }
  destruct (prepareTransaction_spec J co txID payload ps w)
    as (failedRemotes & pre & _ & _ & _ & _ & Hperm & _ & Htr & Hpre & _).
  destruct (prepareTransaction J co txID payload ps w) as [o w1]. simpl in *.
  assert (Forall (fun call =>
                    callID call = txID /\
                    forall a, rpcAddr call = Some a ->
                      live_follower (heap w) (cluster co) a)
                 (pre ++ ((fun p => RpcPrepare (addrAt (heap w) p) txID) <$> ps))) as Hprep.
  { apply Forall_app. split.
    - apply Hlocal. destruct Hpre as [->| ->]; [by left|right; by eauto].
    - rewrite (list_fmap_compose (addrAt (heap w)) (fun a => RpcPrepare a txID)).
      by apply Hrpc. }
  case_bool_decide as Hfailed.
  - destruct (abortTransaction_trace co txID o (addrAt (heap w) <$> ps) w1)
      as (loc & Hab & Hloc).
    simpl. eexists. split.
    { rewrite Hab, Htr, <- !app_assoc. reflexivity. }
    rewrite app_assoc. apply Forall_app. split; [done|].
    apply Forall_app. split.
    + apply Hlocal. destruct Hloc as [->| ->]; [by left|right; by eauto 6].
    + by apply Hrpc.
  - destruct (commitTransaction_trace co txID o w1) as (loc & Hct & Hloc).
    destruct (commitTransaction co txID o w1) as [[ok total] w2]. simpl in *.
    exists ((pre ++ ((fun p => RpcPrepare (addrAt (heap w) p) txID) <$> ps)) ++
            loc ++ ((fun a => RpcCommit a txID) <$> preparedRemotes o)).
    split.
    { destruct ok; simpl; by rewrite Hct, Htr, <- !app_assoc. }
    apply Forall_app. split; [done|].
    apply Forall_app. split.
    + apply Hlocal. destruct Hloc as [->| ->]; [by left|right; by eauto 6].
    + apply Hrpc; [done|]. intros a Ha. rewrite <- Hperm. apply elem_of_app. by left.
Qed.

End contacts.
